(** * h5py/_hl/selections.py: index translation and selection composition

    A shallow embedding of the high-level selection layer of h5py
    ([h5py/_hl/selections.py]) together with the properties its
    specification states about it.

    Python integers are unbounded, so they are modelled by [Z]; tuples and
    lists of integers are [list Z]; a function that may raise returns a
    [result]; code that mutates dataspace objects threads an explicit heap
    of [SpaceID] states addressed by handles. *)

From Stdlib Require Import ZArith List Bool Lia Arith.
Import ListNotations.
Local Open Scope Z_scope.


(** ** Python values that appear as index arguments *)

(** The built-in [slice(start, stop, step)]; [None] is an absent field. *)
Record pyslice : Type := mkslice
  { sl_start : option Z; sl_stop : option Z; sl_step : option Z }.

(** [class MultiBlockSlice]: the four stored attributes. *)
Record MultiBlockSlice : Type := mkMBS
  { mbs_start : Z; mbs_stride : Z; mbs_count : option Z; mbs_block : Z }.

(** One index argument, classified by what the code tests on it
    ([isinstance(_, slice)], [isinstance(_, MultiBlockSlice)],
    [is Ellipsis], [int(_)], [list(_)], [dtype == bool]). *)
Inductive index : Type :=
| Int (i : Z)
| Slice (s : pyslice)
| MBS (m : MultiBlockSlice)
| Ellipsis
| IntList (l : list Z)
| IntTuple (l : list Z)
| BoolArray (shape : list Z) (data : list bool).

(** [slice(None, None, None)] *)
Definition full_slice : index := Slice (mkslice None None None).

(** ** Exceptions *)

(** [_repr] of a strided block: the class name is fixed, the four
    parameters are printed. *)
Record mbs_repr : Type := mkrepr
  { r_start : Z; r_stride : Z; r_count : option Z; r_block : Z }.

(** One constructor per message text of the module, carrying the values
    that the format string interpolates. *)
Inductive message : Type :=
| StartNegative                         (* Start can't be negative *)
| NonPositiveParameter                  (* Stride, count and block can't be 0 or negative *)
| BlocksOverlap                         (* Blocks will overlap if block > stride *)
| NoFullBlocks (r : mbs_repr) (length : Z)
| ExtendsBeyond (r : mbs_repr) (start end_index max_index : Z)
| MismatchedShape                       (* Mismatched selection shape *)
| PointwiseBroadcast                    (* Broadcasting is not supported for point-wise selections *)
| ScalarIndex                           (* Invalid index for scalar dataset (only ..., () allowed) *)
| CantBroadcast (source_shape array_shape : list Z)
| CantBroadcastScalar (source_shape : list Z)
| BoolNot1D                             (* Boolean indexing arrays must be 1-D *)
| NotIncreasing                         (* Indexing elements must be in increasing order *)
| OneVectorOnly                         (* Only one indexing vector or array is currently allowed ... *)
| AdvancedInappropriate                 (* Advanced selection inappropriate *)
| SameLength                            (* All sequence arguments must have the same length *)
| ComplexBroadcast                      (* Broadcasting is not supported for complex selections *)
| OneEllipsis                           (* Only one ellipsis may be used. *)
| SequenceTooLong                       (* Argument sequence too long *)
| IllegalIndex (arg : index)            (* Illegal index (must be a slice or number) *)
| IndexOutOfRange (exp max_index : Z)   (* Index (exp) out of range (0-max) *)
| StepTooSmall (step : Z)               (* Step must be >= 1 (got step) *)
| SliceStepZero                         (* slice step cannot be zero (built-in) *)
| NegativeLength                        (* length should not be negative (built-in) *)
| NotConvertible                        (* int() / list() of an unsuitable object (built-in) *)
| UnravelOutOfBounds                    (* index is out of bounds for array (numpy) *)
| UnrecognizedClass
| UnrecognizedMethod
| NoIndexing.                           (* This class does not support indexing *)

Inductive exn : Type :=
| ValueError (m : message)
| TypeError (m : message)
| IndexError
| ZeroDivisionError
| UnboundLocalError
| NotImplementedError (m : message).

Inductive result (A : Type) : Type :=
| Ok (a : A)
| Raise (e : exn).
Arguments Ok {A} a.
Arguments Raise {A} e.

Definition bind {A B} (m : result A) (k : A -> result B) : result B :=
  match m with Ok a => k a | Raise e => Raise e end.

Declare Scope py_scope.
Delimit Scope py_scope with py.
Notation "x <- m ;; k" := (bind m (fun x => k))
  (at level 61, m at next level, right associativity) : py_scope.
Notation "' pat <- m ;; k" := (bind m (fun x => match x with pat => k end))
  (at level 61, pat pattern, m at next level, right associativity) : py_scope.
Local Open Scope py_scope.

(** ** Built-in arithmetic and sequences *)

(** [x // y] on Python integers: floor division, which is [Z.div]; a zero
    divisor raises. *)
Definition floordiv (x y : Z) : result Z :=
  if y =? 0 then Raise ZeroDivisionError else Ok (x / y).

(** [len(_)] *)
Definition len {A} (l : list A) : Z := Z.of_nat (length l).

(** [(x,) * n]: a non-positive [n] gives the empty tuple. *)
Definition tuple_repeat {A} (x : A) (n : Z) : list A := repeat x (Z.to_nat n).

(** [l[-idx]] for [idx >= 1]: [IndexError] when [idx > len(l)]. *)
Definition neg_index {A} (l : list A) (idx : nat) : result A :=
  match idx with
  | O => Raise IndexError
  | S _ =>
      if (idx <=? length l)%nat
      then match nth_error l (length l - idx) with
           | Some x => Ok x
           | None => Raise IndexError
           end
      else Raise IndexError
  end.

(** [range(n)] *)
Definition range (n : Z) : list Z := map Z.of_nat (seq 0 (Z.to_nat n)).

(** [slice.indices(length)] of the Python data model (the C function
    [PySlice_GetLongIndices]): the step defaults to 1, zero is refused,
    negative bounds count from the end, and both bounds are clamped to
    [[lower, upper]], which is [[0, length]] for a positive step and
    [[-1, length - 1]] for a negative one. *)
Definition clamp_bound (lower upper length : Z) (dflt : Z) (b : option Z) : Z :=
  match b with
  | None => dflt
  | Some v =>
      if v <? 0
      then let v' := v + length in if v' <? lower then lower else v'
      else if v >? upper then upper else v
  end.

Definition slice_step (s : pyslice) : Z :=
  match sl_step s with None => 1 | Some k => k end.

Definition slice_indices (s : pyslice) (length : Z) : result (Z * Z * Z) :=
  let step := slice_step s in
  if step =? 0 then Raise (ValueError SliceStepZero)
  else if length <? 0 then Raise (ValueError NegativeLength)
  else
    let lower := if step <? 0 then -1 else 0 in
    let upper := if step <? 0 then length - 1 else length in
    let start := clamp_bound lower upper length (if step <? 0 then upper else lower) (sl_start s) in
    let stop := clamp_bound lower upper length (if step <? 0 then lower else upper) (sl_stop s) in
    Ok (start, stop, step).

(** ** MultiBlockSlice *)

(** [MultiBlockSlice.__init__(start=0, stride=1, count=None, block=1)] *)
Definition MultiBlockSlice_init (start stride : Z) (count : option Z) (block : Z)
  : result MultiBlockSlice :=
  if start <? 0 then Raise (ValueError StartNegative)
  else if (stride <? 1)
          || match count with Some c => c <? 1 | None => false end
          || (block <? 1)
  then Raise (ValueError NonPositiveParameter)
  else if block >? stride then Raise (ValueError BlocksOverlap)
  else Ok (mkMBS start stride count block).

(** [MultiBlockSlice._repr(count=None)] *)
Definition _repr (self : MultiBlockSlice) (count : option Z) : mbs_repr :=
  let count := match count with None => mbs_count self | Some c => Some c end in
  mkrepr (mbs_start self) (mbs_stride self) count (mbs_block self).

(** [MultiBlockSlice.indices(length)] *)
Definition MultiBlockSlice_indices (self : MultiBlockSlice) (length : Z)
  : result (Z * Z * Z * Z) :=
  count <-
    match mbs_count self with
    | None =>
        q <- floordiv (length - mbs_start self - mbs_block self) (mbs_stride self) ;;
        let count := q + 1 in
        if count <? 1
        then Raise (ValueError (NoFullBlocks (_repr self None) length))
        else Ok count
    | Some c => Ok c
    end ;;
  let end_index := mbs_start self + mbs_block self + (count - 1) * mbs_stride self - 1 in
  if end_index >=? length
  then Raise (ValueError (ExtendsBeyond (_repr self (Some count)) (mbs_start self) end_index (length - 1)))
  else Ok (mbs_start self, count, mbs_stride self, mbs_block self).

(** ** Per-axis translation *)

(** [_translate_int(exp, length)] *)
Definition _translate_int (exp length : Z) : result (Z * Z * Z) :=
  let exp := if exp <? 0 then length + exp else exp in
  if negb ((0 <=? exp) && (exp <? length))
  then Raise (ValueError (IndexOutOfRange exp (length - 1)))
  else Ok (exp, 1, 1).

(** [_translate_slice(exp, length)] *)
Definition _translate_slice (exp : pyslice) (length : Z) : result (Z * Z * Z) :=
  '(start, stop, step) <- slice_indices exp length ;;
  if step <? 1 then Raise (ValueError (StepTooSmall step))
  else if stop <? start then Ok (0, 0, 1)
  else
    let count := 1 + (stop - start - 1) / step in
    Ok (start, count, step).

(** [_translate_multi_block_slice(exp, length)] *)
Definition _translate_multi_block_slice (exp : MultiBlockSlice) (length : Z)
  : result (Z * Z * Z * Z) :=
  MultiBlockSlice_indices exp length.

(** ** Argument tuples *)

(** [arg is Ellipsis] *)
Definition is_Ellipsis (arg : index) : bool :=
  match arg with Ellipsis => true | _ => false end.

(** The body of the loop of [_expand_ellipsis]: what one argument
    contributes to [final_args]. *)
Definition expand_arg (rank n_args : Z) (arg : index) : list index :=
  if is_Ellipsis arg
  then tuple_repeat full_slice (rank - n_args + 1)
  else [arg].

(** [_expand_ellipsis(args, rank)] *)
Definition _expand_ellipsis (args : list index) (rank : Z) : result (list index) :=
  let n_el := len (filter is_Ellipsis args) in
  if n_el >? 1 then Raise (ValueError OneEllipsis)
  else
    let args := if (n_el =? 0) && negb (len args =? rank)
                then args ++ [Ellipsis] else args in
    let n_args := len args in
    let final_args := flat_map (expand_arg rank n_args) args in
    if len final_args >? rank then Raise (TypeError SequenceTooLong)
    else Ok final_args.

(** [int(arg)]: integers convert, a one-element boolean array converts to
    0 or 1, nothing else in [index] does. *)
Definition py_int (arg : index) : result Z :=
  match arg with
  | Int i => Ok i
  | BoolArray _ [b] => Ok (if b then 1 else 0)
  | _ => Raise (TypeError NotConvertible)
  end.

(** One axis of a hyperslab: (start, count, stride, block, scalar). *)
Record axis : Type := mkaxis
  { a_start : Z; a_count : Z; a_stride : Z; a_block : Z; a_scalar : bool }.

(** The body of the loop of [_handle_simple] for one [(arg, length)] pair. *)
Definition translate_axis (arg : index) (length : Z) : result axis :=
  match arg with
  | Slice s =>
      '(_start, _count, _stride) <- _translate_slice s length ;;
      Ok (mkaxis _start _count _stride 1 false)
  | MBS m =>
      '(_start, _count, _stride, _block) <- _translate_multi_block_slice m length ;;
      Ok (mkaxis _start _count _stride _block false)
  | _ =>
      match ('(_start, _count, _stride) <-
               (i <- py_int arg ;; _translate_int i length) ;;
             Ok (mkaxis _start _count _stride 1 true)) with
      | Raise (TypeError _) => Raise (TypeError (IllegalIndex arg))
      | r => r
      end
  end.

(** [for arg, length in zip(args, shape): ...] *)
Fixpoint translate_axes (args : list index) (shape : list Z) : result (list axis) :=
  match args, shape with
  | arg :: args', length :: shape' =>
      a <- translate_axis arg length ;;
      rest <- translate_axes args' shape' ;;
      Ok (a :: rest)
  | _, _ => Ok []
  end.

(** The 5-tuple [(start, count, stride, block, scalar)] of tuples. *)
Record simple : Type := mksimple
  { s_start : list Z; s_count : list Z; s_stride : list Z;
    s_block : list Z; s_scalar : list bool }.

Definition simple_of_axes (l : list axis) : simple :=
  mksimple (map a_start l) (map a_count l) (map a_stride l)
           (map a_block l) (map a_scalar l).

(** [_handle_simple(shape, args)] *)
Definition _handle_simple (shape : list Z) (args : list index) : result simple :=
  args <- _expand_ellipsis args (len shape) ;;
  l <- translate_axes args shape ;;
  Ok (simple_of_axes l).

(** ** The dataspace engine ([h5s]) *)

(** Modelled from the spec: [product] of [h5py/_hl/base.py], the numeric
    product of a shape tuple (the product of no numbers is 1). *)
Definition product (nums : list Z) : Z := fold_left Z.mul nums 1.

(** Modelled from the spec: the extent classes a region descriptor reports
    (the constants [h5s.NULL], [h5s.SCALAR], [h5s.SIMPLE]; [NO_CLASS] stands
    for any class this layer does not recognise). *)
Inductive space_class : Type := NULL | SCALAR | SIMPLE | NO_CLASS.

(** Modelled from the spec: the selection modes a region descriptor reports
    ([h5s.SEL_NONE], [h5s.SEL_ALL], [h5s.SEL_POINTS], [h5s.SEL_HYPERSLABS];
    [SEL_ERROR] stands for any mode this layer does not recognise). *)
Inductive select_type : Type :=
  SEL_NONE | SEL_ALL | SEL_POINTS | SEL_HYPERSLABS | SEL_ERROR.

(** Modelled from the spec: the set operators of the engine primitives that
    this module passes ([h5s.SELECT_SET], [SELECT_OR], [SELECT_NOTB],
    [SELECT_APPEND], [SELECT_PREPEND]). *)
Inductive select_op : Type :=
  SELECT_SET | SELECT_OR | SELECT_NOTB | SELECT_APPEND | SELECT_PREPEND.

(** A coordinate tuple, one entry per axis. *)
Definition coord : Type := list Z.

(** Modelled from the spec: the state of one region descriptor
    ([h5s.SpaceID]): the extent (class and shape), the committed selection
    (its mode and, for points and hyperslabs, the selected coordinates) and
    the offset set by repositioning. *)
Record SpaceID : Type := mkSpace
  { sp_class : space_class;
    sp_shape : list Z;
    sp_type : select_type;
    sp_points : list coord;
    sp_offset : list Z }.

(** Equality of two tuples of integers ([p == q]). *)
Definition coord_eqb (p q : coord) : bool :=
  (length p =? length q)%nat && forallb (fun '(x, y) => x =? y) (combine p q).

(** Modelled from the spec: membership of a coordinate in a region. *)
Definition coord_in (p : coord) (l : list coord) : bool := existsb (coord_eqb p) l.

(** Modelled from the spec: the coordinates of a regular grid, all tuples
    over per-axis position lists, last axis fastest. *)
Fixpoint grid (axes : list (list Z)) : list coord :=
  match axes with
  | [] => [[]]
  | ps :: rest => flat_map (fun p => map (cons p) (grid rest)) ps
  end.

(** Modelled from the spec: the positions that a hyperslab
    (start, count, stride, block) selects on one axis: [count] blocks of
    [block] consecutive positions, [stride] apart. *)
Definition axis_positions (start count stride block : Z) : list Z :=
  flat_map (fun i => map (fun j => start + i * stride + j) (range block)) (range count).

(** Modelled from the spec: the per-axis positions of a hyperslab. *)
Fixpoint hyperslab_axes (start count stride block : list Z) : list (list Z) :=
  match start, count, stride, block with
  | s :: start', c :: count', d :: stride', b :: block' =>
      axis_positions s c d b :: hyperslab_axes start' count' stride' block'
  | _, _, _, _ => []
  end.

(** Modelled from the spec: the coordinates of a hyperslab. *)
Definition hyperslab_points (start count stride block : list Z) : list coord :=
  grid (hyperslab_axes start count stride block).

(** Modelled from the spec: the coordinates of the whole extent. *)
Definition all_points (shape : list Z) : list coord := grid (map range shape).

(** Modelled from the spec: the coordinates a descriptor currently selects. *)
Definition selected (sid : SpaceID) : list coord :=
  match sp_type sid with
  | SEL_ALL => all_points (sp_shape sid)
  | SEL_POINTS | SEL_HYPERSLABS => sp_points sid
  | _ => []
  end.

(** Modelled from the spec: [h5s.create_simple(shape, maxshape)], a fresh
    descriptor over [shape] (rank 0 is the scalar extent). *)
Definition create_simple (shape : list Z) : SpaceID :=
  mkSpace (match shape with [] => SCALAR | _ => SIMPLE end) shape SEL_ALL []
          (map (fun _ => 0) shape).

(** Modelled from the spec: primitive "select whole extent". *)
Definition select_all (sid : SpaceID) : SpaceID :=
  mkSpace (sp_class sid) (sp_shape sid) SEL_ALL [] (sp_offset sid).

(** Modelled from the spec: primitive "select none". *)
Definition select_none (sid : SpaceID) : SpaceID :=
  mkSpace (sp_class sid) (sp_shape sid) SEL_NONE [] (sp_offset sid).

(** Modelled from the spec: commit a hyperslab-based region; a region
    without points is the empty selection. *)
Definition with_hyperslabs (sid : SpaceID) (pts : list coord) : SpaceID :=
  match pts with
  | [] => select_none sid
  | _ => mkSpace (sp_class sid) (sp_shape sid) SEL_HYPERSLABS pts (sp_offset sid)
  end.

(** Modelled from the spec: primitive "select a hyperslab" with set, OR and
    the one-sided subtraction [SELECT_NOTB] (keep what is selected and not
    in the new hyperslab); absent stride and block are all ones. *)
Definition select_hyperslab (sid : SpaceID) (start count : list Z)
    (stride block : option (list Z)) (op : select_op) : SpaceID :=
  let ones := map (fun _ => 1) start in
  let stride := match stride with Some d => d | None => ones end in
  let block := match block with Some b => b | None => ones end in
  let new := hyperslab_points start count stride block in
  match op with
  | SELECT_OR =>
      match sp_type sid with
      | SEL_ALL => sid
      | _ => with_hyperslabs sid
               (selected sid ++ filter (fun p => negb (coord_in p (selected sid))) new)
      end
  | SELECT_NOTB =>
      with_hyperslabs sid (filter (fun p => negb (coord_in p new)) (selected sid))
  | _ => with_hyperslabs sid new
  end.

(** Modelled from the spec: primitive "select/append/prepend discrete
    points". *)
Definition select_elements (sid : SpaceID) (points : list coord) (op : select_op) : SpaceID :=
  let pts := match op with
             | SELECT_APPEND => sp_points sid ++ points
             | SELECT_PREPEND => points ++ sp_points sid
             | _ => points
             end in
  mkSpace (sp_class sid) (sp_shape sid) SEL_POINTS pts (sp_offset sid).

(** Modelled from the spec: primitive "compute selected-point count". *)
Definition get_select_npoints (sid : SpaceID) : Z :=
  match sp_type sid with
  | SEL_ALL => product (sp_shape sid)
  | _ => len (selected sid)
  end.

(** Modelled from the spec: primitive "compute bounding box", the least and
    greatest selected coordinate on every axis, shifted by the offset. *)
Definition get_select_bounds (sid : SpaceID) : list Z * list Z :=
  let shift (c : coord) := map (fun '(x, o) => x + o) (combine c (sp_offset sid)) in
  match map shift (selected sid) with
  | [] => (map (fun _ => 0) (sp_shape sid), map (fun _ => 0) (sp_shape sid))
  | p :: ps =>
      (fold_left (fun acc q => map (fun '(a, x) => Z.min a x) (combine acc q)) ps p,
       fold_left (fun acc q => map (fun '(a, x) => Z.max a x) (combine acc q)) ps p)
  end.

(** Modelled from the spec: primitive "reposition a descriptor". *)
Definition offset_simple (sid : SpaceID) (offset : list Z) : SpaceID :=
  mkSpace (sp_class sid) (sp_shape sid) (sp_type sid) (sp_points sid) offset.

(** *** Descriptor objects

    A [SpaceID] is a mutable object that several names may refer to; the
    heap maps handles to descriptor states. *)
Definition loc : Type := nat.
Definition heap : Type := list SpaceID.

Definition null_space : SpaceID := mkSpace NULL [] SEL_NONE [] [].

Definition deref (h : heap) (l : loc) : SpaceID := nth l h null_space.

Fixpoint store (h : heap) (l : loc) (v : SpaceID) : heap :=
  match h, l with
  | [], _ => []
  | _ :: t, O => v :: t
  | x :: t, S l' => x :: store t l' v
  end.

Definition modify (f : SpaceID -> SpaceID) (l : loc) (h : heap) : heap :=
  store h l (f (deref h l)).

Definition alloc (v : SpaceID) (h : heap) : loc * heap := (length h, h ++ [v]).

(** Modelled from the spec: primitive "copy a descriptor": a new object in
    the same state. *)
Definition copy (l : loc) (h : heap) : loc * heap := alloc (deref h l) h.

(** ** Generators

    A generator that is driven to its end by a consumer that leaves the
    yielded objects alone produces a finite trace: every [yield] hands out
    a handle (here with the state of the object at that moment), and the
    run ends by returning or by raising. *)
Inductive trace : Type :=
| Stop (h : heap)
| Yield (l : loc) (now : SpaceID) (rest : trace)
| Throw (e : exn).

Fixpoint yields (t : trace) : list (loc * SpaceID) :=
  match t with
  | Yield l now rest => (l, now) :: yields rest
  | _ => []
  end.

Fixpoint outcome (t : trace) : result heap :=
  match t with
  | Stop h => Ok h
  | Yield _ _ rest => outcome rest
  | Throw e => Raise e
  end.

(** [args = (args,)] unless [args] is a tuple already. *)
Inductive pyarg : Type :=
| Single (a : index)
| Tuple (l : list index).

Definition as_tuple (args : pyarg) : list index :=
  match args with
  | Tuple l => l
  | Single (IntTuple l) => map Int l
  | Single a => [a]
  end.

(** ** class Selection *)
Module Selection.

Record t : Type := mk { _id : loc; _shape : list Z }.

(** [Selection.__init__(shape, spaceid=None)] *)
Definition init (shape : list Z) (spaceid : option loc) (h : heap) : t * heap :=
  match spaceid with
  | Some sid => (mk sid (sp_shape (deref h sid)), h)
  | None =>
      let '(l, h) := alloc (create_simple shape) h in
      (mk l shape, modify select_all l h)
  end.

Definition shape (self : t) : list Z := _shape self.

Definition nselect (self : t) (h : heap) : Z :=
  get_select_npoints (deref h (_id self)).

Definition mshape (self : t) (h : heap) : list Z := [nselect self h].

Definition array_shape (self : t) (h : heap) : list Z := mshape self h.

Definition expand_shape (self : t) (source_shape : list Z) (h : heap)
  : result (list Z) :=
  if negb (product source_shape =? nselect self h)
  then Raise (TypeError PointwiseBroadcast)
  else Ok source_shape.

Definition broadcast (self : t) (source_shape : list Z) (h : heap) : trace :=
  if negb (product source_shape =? nselect self h)
  then Throw (TypeError PointwiseBroadcast)
  else Yield (_id self) (deref h (_id self)) (Stop h).

Definition getitem (self : t) (args : pyarg) (h : heap) : result (t * heap) :=
  Raise (NotImplementedError NoIndexing).

End Selection.

(** Monadic left fold: a [for] loop whose body may raise. *)
Fixpoint foldM {A S : Type} (f : S -> A -> result S) (l : list A) (s : S) : result S :=
  match l with
  | [] => Ok s
  | x :: l' => s' <- f s x ;; foldM f l' s'
  end.

(** [l.pop()] on a non-empty list: the last element and the rest. *)
Definition pop {A} (l : list A) : option (A * list A) :=
  match rev l with
  | [] => None
  | x :: r => Some (x, rev r)
  end.

(** [numpy.unravel_index(idx, dims)] in C order: the last axis varies
    fastest; an index outside [0, product(dims)) is refused. *)
Fixpoint unravel_rev (idx : Z) (rdims : list Z) : list Z :=
  match rdims with
  | [] => []
  | d :: rest => idx mod d :: unravel_rev (idx / d) rest
  end.

Definition unravel_index (idx : Z) (dims : list Z) : result (list Z) :=
  if (idx <? 0) || (product dims <=? idx)
  then Raise (ValueError UnravelOutOfBounds)
  else Ok (rev (unravel_rev idx (rev dims))).

(** ** class SimpleSelection *)
Module SimpleSelection.

Record t : Type := mk
  { _id : loc;
    _shape : list Z;
    _sel : list Z * list Z * list Z * list bool;
    _array_shape : list Z;
    _block_shape : list Z }.

Definition shape (self : t) : list Z := _shape self.

(** [__init__(shape)] *)
Definition init (shape : list Z) (spaceid : option loc) (h : heap) : t * heap :=
  let '(base, h) := Selection.init shape spaceid h in
  let shape := Selection._shape base in
  let rank := len shape in
  (mk (Selection._id base) shape
      (tuple_repeat 0 rank, shape, tuple_repeat 1 rank, tuple_repeat false rank)
      shape (tuple_repeat 1 rank), h).

Definition mshape (self : t) : list Z :=
  let '(_, count, _, _) := _sel self in
  let block := _block_shape self in
  map (fun '(_count, _block) => _count * _block) (combine count block).

Definition array_shape (self : t) : list Z := _array_shape self.

(** [x in (Ellipsis, ())] *)
Definition in_ellipsis_or_unit (x : index) : bool :=
  match x with
  | Ellipsis => true
  | IntTuple [] => true
  | _ => false
  end.

(** [__getitem__(args)] *)
Definition getitem (self : t) (args : pyarg) (h : heap) : result (t * heap) :=
  let args := as_tuple args in
  match shape self with
  | [] =>
      match args with
      | a0 :: _ =>
          if negb (in_ellipsis_or_unit a0) then Raise (TypeError ScalarIndex)
          else Ok (self, modify select_all (_id self) h)
      | [] => Ok (self, modify select_all (_id self) h)
      end
  | _ =>
      s <- _handle_simple (shape self) args ;;
      let '(mksimple start count stride block scalar) := s in
      let h := modify (fun sid => select_hyperslab sid start count
                                    (Some stride) (Some block) SELECT_SET)
                      (_id self) h in
      let length := map (fun '(count, block) => count * block) (combine count block) in
      let array_shape :=
        map fst (filter (fun '(dim_length, scalar) => negb scalar)
                        (combine length scalar)) in
      Ok (mk (_id self) (_shape self) (start, count, stride, scalar)
             array_shape block, h)
  end.

(** The body of the loop of [expand_shape] at [idx]. *)
Definition expand_step (self : t) (source_shape : list Z)
    (st : list Z * list Z) (idx : nat) : result (list Z * list Z) :=
  let '(_, _, _, scalar) := _sel self in
  let '(remaining_src_dims, eshape) := st in
  skip <- (if len remaining_src_dims =? 0 then Ok true else neg_index scalar idx) ;;
  if (skip : bool) then Ok (remaining_src_dims, eshape ++ [1])
  else
    match pop remaining_src_dims with
    | None => Raise IndexError
    | Some (t, remaining_src_dims) =>
        fits <- (if t =? 1 then Ok true
                 else m <- neg_index (mshape self) idx ;;
                      if m =? t then Ok true
                      else b <- neg_index (_block_shape self) idx ;;
                           Ok (b =? t)) ;;
        if (fits : bool) then Ok (remaining_src_dims, eshape ++ [t])
        else Raise (TypeError (CantBroadcast source_shape (array_shape self)))
    end.

(** [expand_shape(source_shape)] *)
Definition expand_shape (self : t) (source_shape : list Z) : result (list Z) :=
  let rank := length (mshape self) in
  '(remaining_src_dims, eshape) <-
    foldM (expand_step self source_shape) (seq 1 rank) (source_shape, []) ;;
  if existsb (fun n => n >? 1) remaining_src_dims
  then Raise (TypeError (CantBroadcast source_shape (array_shape self)))
  else Ok (rev eshape).

(** [tuple(x//y for x, y in zip(xs, ys))] *)
Fixpoint floordiv_zip (xs ys : list Z) : result (list Z) :=
  match xs, ys with
  | x :: xs', y :: ys' =>
      q <- floordiv x y ;;
      qs <- floordiv_zip xs' ys' ;;
      Ok (q :: qs)
  | _, _ => Ok []
  end.

(** [tuple(start_ + chunk_idx * step_ for ... in zip(start, step, chunk))] *)
Fixpoint chunk_offset (start step chunk : list Z) : list Z :=
  match start, step, chunk with
  | start_ :: start', step_ :: step', chunk_idx :: chunk' =>
      (start_ + chunk_idx * step_) :: chunk_offset start' step' chunk'
  | _, _, _ => []
  end.

(** [for idx in range(nchunks): ...; sid.offset_simple(offset); yield sid] *)
Fixpoint broadcast_loop (sid : loc) (start step chunks : list Z)
    (idxs : list Z) (h : heap) : trace :=
  match idxs with
  | [] => Stop h
  | idx :: idxs' =>
      match unravel_index idx chunks with
      | Raise e => Throw e
      | Ok chunk =>
          let offset := chunk_offset start step chunk in
          let h := modify (fun s => offset_simple s offset) sid h in
          Yield sid (deref h sid) (broadcast_loop sid start step chunks idxs' h)
      end
  end.

(** [broadcast(source_shape)] *)
Definition broadcast (self : t) (source_shape : list Z) (h : heap) : trace :=
  match shape self with
  | [] =>
      if negb (product source_shape =? 1)
      then Throw (TypeError (CantBroadcastScalar source_shape))
      else
        let h := modify select_all (_id self) h in
        Yield (_id self) (deref h (_id self)) (Stop h)
  | _ =>
      let '(start, _count, step, _scalar) := _sel self in
      let rank := len (mshape self) in
      match expand_shape self source_shape with
      | Raise e => Throw e
      | Ok chunk_shape =>
          match floordiv_zip (mshape self) chunk_shape with
          | Raise e => Throw e
          | Ok chunks =>
              let nchunks := product chunks in
              if nchunks =? 1
              then Yield (_id self) (deref h (_id self)) (Stop h)
              else
                let '(sid, h) := copy (_id self) h in
                let h := modify (fun s => select_hyperslab s
                                    (tuple_repeat 0 rank) (tuple_repeat 1 rank)
                                    (Some step) (Some chunk_shape) SELECT_SET) sid h in
                broadcast_loop sid start step chunks (range nchunks) h
          end
      end
  end.

End SimpleSelection.

(** ** class FancySelection *)

(** [list(arg)]: lists and tuples of integers are iterable, integers,
    strided blocks and Ellipsis are not. *)
Definition py_list (arg : index) : result (list Z) :=
  match arg with
  | IntList l | IntTuple l => Ok l
  | _ => Raise (TypeError NotConvertible)
  end.

(** [arr.nonzero()[0]] of a 1-D boolean array: the positions of [True]. *)
Fixpoint nonzero_from (i : Z) (data : list bool) : list Z :=
  match data with
  | [] => []
  | b :: data' => (if b then [i] else []) ++ nonzero_from (i + 1) data'
  end.

Definition nonzero (data : list bool) : list Z := nonzero_from 0 data.

(** [l[position] = v] for a position inside the list. *)
Fixpoint list_set {A} (l : list A) (position : nat) (v : A) : list A :=
  match l, position with
  | [], _ => []
  | _ :: t, O => v :: t
  | x :: t, S p => x :: list_set t p v
  end.

(** A [dict] from axis positions to sequences, in insertion order. *)
Definition dict : Type := list (nat * list Z).

Fixpoint dict_set (d : dict) (k : nat) (v : list Z) : dict :=
  match d with
  | [] => [(k, v)]
  | (k', v') :: d' => if (k' =? k)%nat then (k, v) :: d' else (k', v') :: dict_set d' k v
  end.

Fixpoint dict_get (d : dict) (k : nat) : option (list Z) :=
  match d with
  | [] => None
  | (k', v) :: d' => if (k' =? k)%nat then Some v else dict_get d' k
  end.

(** [any(fst >= snd for fst, snd in zip(l[:-1], l[1:]))] *)
Definition not_increasing (list_arg : list Z) : bool :=
  existsb (fun '(fst, snd) => fst >=? snd) (combine (removelast list_arg) (tl list_arg)).

Module FancySelection.

Record t : Type := mk
  { _id : loc;
    _shape : list Z;
    _mshape : list Z;
    _array_shape : list Z }.

Definition shape (self : t) : list Z := _shape self.
Definition mshape (self : t) : list Z := _mshape self.
Definition array_shape (self : t) : list Z := _array_shape self.

(** [__init__(shape)] *)
Definition init (shape : list Z) (spaceid : option loc) (h : heap) : t * heap :=
  let '(base, h) := Selection.init shape spaceid h in
  let shape := Selection._shape base in
  (mk (Selection._id base) shape shape shape, h).

(** The body of the first loop of [__getitem__]: record the argument at
    [idx] in [sequenceargs] when it is a sequence. *)
Definition collect_step (sequenceargs : dict) (ia : nat * index) : result dict :=
  let '(idx, arg) := ia in
  match arg with
  | Slice _ => Ok sequenceargs
  | _ =>
      arg <- match arg with
             | BoolArray shape data =>
                 if negb (len shape =? 1) then Raise (TypeError BoolNot1D)
                 else Ok (IntList (nonzero data))
             | _ => Ok arg
             end ;;
      match py_list arg with
      | Raise (TypeError _) => Ok sequenceargs
      | Raise e => Raise e
      | Ok list_arg =>
          let sequenceargs := dict_set sequenceargs idx list_arg in
          if not_increasing list_arg then Raise (TypeError NotIncreasing)
          else Ok sequenceargs
      end
  end.

(** [enumerate(args)] *)
Definition enumerate {A} (l : list A) : list (nat * A) :=
  combine (seq 0 (length l)) l.

(** The list of argument vectors that are OR-ed together. *)
Definition argvector (args : list index) (sequenceargs : dict) (vectorlength : Z)
  : list (list index) :=
  if vectorlength >? 0
  then map (fun idx =>
              fold_left (fun entry '(position, seq) =>
                           list_set entry position (Int (nth idx seq 0)))
                        sequenceargs args)
           (seq 0 (Z.to_nat vectorlength))
  else [fold_left (fun entry '(position, _) =>
                     list_set entry position (Slice (mkslice (Some 0) (Some 0) None)))
                  sequenceargs args].

(** [for vector in argvector: ... select_hyperslab(..., op=SELECT_OR)];
    the variables of the last round stay bound after the loop. *)
Definition or_step (self : t) (st : option simple * heap) (vector : list index)
  : result (option simple * heap) :=
  let '(_, h) := st in
  s <- _handle_simple (shape self) vector ;;
  Ok (Some s,
      modify (fun sid => select_hyperslab sid (s_start s) (s_count s)
                           (Some (s_stride s)) (Some (s_block s)) SELECT_OR)
             (_id self) h).

(** The final shape: the sequence axis gets the sequence length, scalar
    axes are marked by -1. *)
Definition mark_axes (sequenceargs : dict) (count : list Z) (scalar : list bool) : list Z :=
  map (fun '(idx, c) =>
         match dict_get sequenceargs idx with
         | Some seq => len seq
         | None => if nth idx scalar false then -1 else c
         end)
      (enumerate count).

(** [__getitem__(args)] *)
Definition getitem (self : t) (args : pyarg) (h : heap) : result (t * heap) :=
  let args := as_tuple args in
  args <- _expand_ellipsis args (len (shape self)) ;;
  sequenceargs <- foldM collect_step (enumerate args) [] ;;
  if len sequenceargs >? 1 then Raise (TypeError OneVectorOnly)
  else
    match sequenceargs with
    | [] => Raise (TypeError AdvancedInappropriate)
    | (_, first) :: _ =>
        let vectorlength := len first in
        if negb (forallb (fun '(_, x) => len x =? vectorlength) sequenceargs)
        then Raise (TypeError SameLength)
        else
          let h := modify select_none (_id self) h in
          '(last, h) <- foldM (or_step self)
                              (argvector args sequenceargs vectorlength) (None, h) ;;
          match last with
          | None => Raise UnboundLocalError
          | Some s =>
              let mshape := mark_axes sequenceargs (s_count s) (s_scalar s) in
              Ok (mk (_id self) (_shape self)
                     (map Z.abs mshape)
                     (filter (fun x => x >=? 0) mshape), h)
          end
    end.

Definition expand_shape (self : t) (source_shape : list Z) : result (list Z) :=
  if negb (coord_eqb source_shape (array_shape self))
  then Raise (TypeError ComplexBroadcast)
  else Ok source_shape.

Definition broadcast (self : t) (source_shape : list Z) (h : heap) : trace :=
  if negb (coord_eqb source_shape (array_shape self))
  then Throw (TypeError ComplexBroadcast)
  else Yield (_id self) (deref h (_id self)) (Stop h).

End FancySelection.

(** ** guess_shape *)

(** [get_n_axis(sid, axis)] of [guess_shape]: the number of elements
    selected along [axis].  [boxshape] is an array of floats holding whole
    numbers; it is an integer list here. *)
Definition get_n_axis (sid : SpaceID) (N : Z) (bottomcorner boxshape : list Z)
    (axis : nat) : result Z :=
  if nth axis boxshape 0 =? 1 then Ok 1
  else
    let start := list_set bottomcorner axis (nth axis bottomcorner 0 + 1) in
    let count := list_set boxshape axis (nth axis boxshape 0 - 1) in
    let masked_sid := select_hyperslab sid start count None None SELECT_NOTB in
    let N_leftover := get_select_npoints masked_sid in
    floordiv N N_leftover.

(** [tuple(f(x) for x in xs)] where [f] may raise. *)
Fixpoint mapM {A B} (f : A -> result B) (l : list A) : result (list B) :=
  match l with
  | [] => Ok []
  | x :: l' => y <- f x ;; ys <- mapM f l' ;; Ok (y :: ys)
  end.

(** The per-axis counts of the masking procedure. *)
Definition axis_counts (sid : SpaceID) : result (list Z) :=
  let N := get_select_npoints sid in
  let rank := length (sp_shape sid) in
  let '(bottomcorner, topcorner) := get_select_bounds sid in
  let boxshape := map (fun '(t, b) => t - b + 1) (combine topcorner bottomcorner) in
  mapM (get_n_axis sid N bottomcorner boxshape) (seq 0 rank).

(** [guess_shape(sid)]; the result [None] is Python's [None]. *)
Definition guess_shape (sid : SpaceID) : result (option (list Z)) :=
  let sel_class := sp_class sid in
  let sel_type := sp_type sid in
  let simple_extent :=
    let N := get_select_npoints sid in
    let rank := len (sp_shape sid) in
    match sel_type with
    | SEL_NONE => Ok (Some (tuple_repeat 0 rank))
    | SEL_ALL => Ok (Some (sp_shape sid))
    | SEL_POINTS => Ok (Some [N])
    | SEL_HYPERSLABS =>
        if N =? 0 then Ok (Some (tuple_repeat 0 rank))
        else
          shape <- axis_counts sid ;;
          if negb (product shape =? N) then Ok (Some [N])
          else Ok (Some shape)
    | _ => Raise (TypeError UnrecognizedMethod)
    end in
  match sel_class with
  | NULL => Ok None
  | SCALAR =>
      match sel_type with
      | SEL_NONE => Ok None
      | SEL_ALL => Ok (Some [])
      | _ => simple_extent
      end
  | SIMPLE => simple_extent
  | _ => Raise (TypeError UnrecognizedClass)
  end.

(** ** The broadcast rule as the specification words it *)

(** One axis of the walk: [a] is (is-scalar, mshape, block length) of the
    axis, [src] the source dimensions not yet consumed, last one first.  A
    scalar axis consumes nothing and gives 1; another axis takes the last
    remaining source dimension (1 when there is none), which is legal iff
    it is 1, the axis span or the block length. *)
Definition expand_axis_rule (a : bool * Z * Z) (src : list Z) : option (Z * list Z) :=
  let '(scalar, m, b) := a in
  if scalar then Some (1, src)
  else match src with
       | [] => Some (1, [])
       | t :: rest =>
           if (t =? 1) || (m =? t) || (b =? t) then Some (t, rest) else None
       end.

(** The walk over the axes from last to first: the expanded dimensions in
    walk order and the source dimensions left over. *)
Fixpoint expand_walk (axes : list (bool * Z * Z)) (src : list Z)
  : option (list Z * list Z) :=
  match axes with
  | [] => Some ([], src)
  | a :: axes' =>
      match expand_axis_rule a src with
      | None => None
      | Some (d, src') =>
          match expand_walk axes' src' with
          | None => None
          | Some (e, rest) => Some (d :: e, rest)
          end
      end
  end.

(** The expanded shape, or [None] for a broadcast-incompatible source. *)
Definition expand_shape_spec (scalar : list bool) (mshape block source_shape : list Z)
  : option (list Z) :=
  match expand_walk (rev (combine (combine scalar mshape) block)) (rev source_shape) with
  | None => None
  | Some (e, unused) =>
      if existsb (fun n => n >? 1) unused then None else Some (rev e)
  end.

(** The per-axis tuples of a regular selection all have the rank of the
    extent; [__init__] and [__getitem__] keep it so. *)
Definition consistent (self : SimpleSelection.t) : Prop :=
  let '(start, count, stride, scalar) := SimpleSelection._sel self in
  length start = length count
  /\ length stride = length count
  /\ length scalar = length count
  /\ length (SimpleSelection._block_shape self) = length count.

(** [self._sel[0]], [self._sel[1]], [self._sel[2]], [self._sel[3]] *)
Definition sel_start (self : SimpleSelection.t) : list Z :=
  let '(start, _, _, _) := SimpleSelection._sel self in start.
Definition sel_count (self : SimpleSelection.t) : list Z :=
  let '(_, count, _, _) := SimpleSelection._sel self in count.
Definition sel_stride (self : SimpleSelection.t) : list Z :=
  let '(_, _, stride, _) := SimpleSelection._sel self in stride.
Definition sel_scalar (self : SimpleSelection.t) : list bool :=
  let '(_, _, _, scalar) := SimpleSelection._sel self in scalar.

(** Counts are never negative and blocks are at least 1 in a selection
    that [__init__] and [__getitem__] built. *)
Definition positive_blocks (self : SimpleSelection.t) : Prop :=
  Forall (fun c => 0 <= c) (sel_count self)
  /\ Forall (fun b => 1 <= b) (SimpleSelection._block_shape self).

(** A strided block among the arguments was built by its constructor. *)
Definition valid_index (a : index) : Prop :=
  match a with
  | MBS m => exists start stride count block,
      MultiBlockSlice_init start stride count block = Ok m
  | _ => True
  end.

(** The flat position of a multi-index over a grid of [dims], the last
    axis varying fastest. *)
Fixpoint ravel (multi dims : list Z) : Z :=
  match multi, dims with
  | c :: multi', _ :: dims' => c * product dims' + ravel multi' dims'
  | _, _ => 0
  end.

(** The regular selection of the examples: shape (10, 5, 4, 2) indexed
    [..., 0], and shape (10, 5) indexed [:, :]. *)
Definition index_last_axis (h : heap) : result (SimpleSelection.t * heap) :=
  let '(sel, h) := SimpleSelection.init [10; 5; 4; 2] None h in
  SimpleSelection.getitem sel (Tuple [Ellipsis; Int 0]) h.

Definition index_whole_matrix (h : heap) : result (SimpleSelection.t * heap) :=
  let '(sel, h) := SimpleSelection.init [10; 5] None h in
  SimpleSelection.getitem sel (Tuple [full_slice; full_slice]) h.

(** A scalar (rank-0) regular selection. *)
Definition scalar_selection (h : heap) : SimpleSelection.t * heap :=
  SimpleSelection.init [] None h.

(** A union selection on shape (10, 10) indexed [(a, :)]. *)
Definition index_rows (a : index) (h : heap) : result (FancySelection.t * heap) :=
  let '(sel, h) := FancySelection.init [10; 10] None h in
  FancySelection.getitem sel (Tuple [a; full_slice]) h.

(** Two regions built with the engine primitives over a (10, 10) extent:
    the rectangles [0:1, 0:2] and [1:2, 1:2], and the rectangles
    [0:2, 0:2] and [5:7, 5:7]. *)
Definition corner_union : SpaceID :=
  select_hyperslab
    (select_hyperslab (create_simple [10; 10]) [0; 0] [1; 2] None None SELECT_SET)
    [1; 1] [1; 1] None None SELECT_OR.

Definition far_union : SpaceID :=
  select_hyperslab
    (select_hyperslab (create_simple [10; 10]) [0; 0] [2; 2] None None SELECT_SET)
    [5; 5] [2; 2] None None SELECT_OR.

(** [chunks[a] = mshape[a] / chunk_shape[a]] *)
Definition chunk_counts (mshape chunk_shape : list Z) : list Z :=
  map (fun '(x, y) => x / y) (combine mshape chunk_shape).

(** A pass-through selection adopted from a region of three points. *)
Definition three_points : heap :=
  [select_elements (create_simple [4; 4]) [[0; 0]; [1; 2]; [3; 3]] SELECT_SET].

Definition adopted : Selection.t :=
  fst (Selection.init [4; 4] (Some 0%nat) three_points).

(** ** Union selections as the specification words them *)

(** The classification of an argument of a union selection: a "sequence"
    is an integer list (or tuple) or a 1-D boolean mask turned into its
    nonzero positions. *)
Definition sequence_values (a : index) : option (list Z) :=
  match a with
  | IntList l | IntTuple l => Some l
  | BoolArray [_] data => Some (nonzero data)
  | _ => None
  end.

(** Slices, integers and strided blocks are the arguments that are not
    sequences. *)
Definition plain (a : index) : Prop :=
  match a with
  | Int _ | Slice _ | MBS _ => True
  | _ => False
  end.

(** Some adjacent pair of the sequence has first >= second. *)
Definition has_descent (l : list Z) : Prop :=
  exists i x y, nth_error l i = Some x /\ nth_error l (S i) = Some y /\ x >= y.

(** Every boolean array among the arguments is 1-D. *)
Definition one_dimensional (a : index) : Prop :=
  match a with
  | BoolArray shape _ => len shape = 1
  | _ => True
  end.

(** What the translated axes contribute to [array_shape]: a scalar axis is
    dropped, another axis keeps its count. *)
Definition kept_counts (axes : list axis) : list Z :=
  map a_count (filter (fun a => negb (a_scalar a)) axes).

(** [slice(0, 0)] *)
Definition empty_slice : index := Slice (mkslice (Some 0) (Some 0) None).

(** A fresh union selection over the (10, 10) extent. *)
Definition fresh_rows : FancySelection.t * heap :=
  FancySelection.init [10; 10] None [].

(** ** Hyperslab axes inside the extent *)

(** [p in range(start, stop, step)] for a positive step: the elements that
    the built-in slice [start:stop:step] visits. *)
Definition range_contains (start stop step p : Z) : bool :=
  (start <=? p) && (p <? stop) && ((p - start) mod step =? 0).

(** A hyperslab axis that fits an axis of [length] elements: [count]
    blocks of [block] elements that do not overlap, every element at a
    position of the axis. *)
Definition within_extent (length : Z) (a : axis) : Prop :=
  0 <= a_start a /\ 0 <= a_count a /\ 1 <= a_block a
  /\ a_block a <= a_stride a
  /\ forall i j, 0 <= i < a_count a -> 0 <= j < a_block a ->
       0 <= a_start a + i * a_stride a + j < length.

(** The translation of [slice(None)] on an axis of [n] elements. *)
Definition whole_axis (n : Z) : axis := mkaxis 0 n 1 1 false.

(** ** Members that the regular selection inherits or stores *)

(** [Selection.nselect], which [SimpleSelection] inherits. *)
Definition simple_nselect (self : SimpleSelection.t) (h : heap) : Z :=
  get_select_npoints (deref h (SimpleSelection._id self)).

(** [tuple(dim_length for dim_length, scalar in zip(length, scalar) if
    not scalar)]: a shape without its scalar axes. *)
Definition drop_scalar (length : list Z) (scalar : list bool) : list Z :=
  map fst (filter (fun '(dim_length, scalar) => negb scalar)
                  (combine length scalar)).

(** A fresh regular selection over the (10, 5, 4, 2) extent. *)
Definition fresh_block : SimpleSelection.t * heap :=
  SimpleSelection.init [10; 5; 4; 2] None [].

(** ** class PointSelection *)

(** The message texts of [PointSelection] and of [select]; each is the
    text of a [TypeError]. *)
Inductive entry_message : Type :=
| OnlyBoolArrays        (* PointSelection __getitem__ only works with bool arrays *)
| IncompatibleShape     (* Boolean indexing array has incompatible shape *)
| ReferenceShape.       (* Reference shape does not match dataset shape *)

(** The outcome of an entry point: a value, a [TypeError] with one of the
    texts above, or an exception of the translation layer. *)
Inductive entry_result (A : Type) : Type :=
| Returns (a : A)
| RaisesType (m : entry_message)
| Raises (e : exn).
Arguments Returns {A} a.
Arguments RaisesType {A} m.
Arguments Raises {A} e.

(** The sequence of points handed to [set], [append] and [prepend], as
    [np.asarray] sees it: 1-D for one point given as a flat sequence of
    coordinates, 2-D for a sequence of points. *)
Inductive points_array : Type :=
| Flat (row : list Z)
| Rows (rows : list (list Z)).

(** Conversion of an integer to [dtype='u8']: 64 bits, wrapping around. *)
Definition as_u8 (x : Z) : Z := x mod 2 ^ 64.


(** [np.transpose(arg.nonzero())] of a boolean array holding [data] in C
    order: the coordinates of the [True] entries, last axis fastest.  A
    0-d array is treated as an array of shape (1,). *)
Definition argwhere (shape : list Z) (data : list bool) : list coord :=
  let shape := match shape with [] => [1] | _ => shape end in
  map fst (filter snd (combine (all_points shape) data)).

Module PointSelection.

Record t : Type := mk { _id : loc; _shape : list Z }.

(** [__init__(shape, spaceid=None)], inherited. *)
Definition init (shape : list Z) (spaceid : option loc) (h : heap) : t * heap :=
  let '(base, h) := Selection.init shape spaceid h in
  (mk (Selection._id base) (Selection._shape base), h).

Definition shape (self : t) : list Z := _shape self.

(** [nselect] and [mshape], inherited. *)
Definition nselect (self : t) (h : heap) : Z :=
  get_select_npoints (deref h (_id self)).

Definition mshape (self : t) (h : heap) : list Z := [nselect self h].

(** [_perform_selection(points, op)] *)
Definition _perform_selection (self : t) (points : points_array) (op : select_op)
    (h : heap) : heap :=
  let points := match points with
                | Flat row => [map as_u8 row]
                | Rows rows => map (map as_u8) rows
                end in
  let op := match sp_type (deref h (_id self)) with
            | SEL_POINTS => op
            | _ => SELECT_SET
            end in
  if len points =? 0 then modify select_none (_id self) h
  else modify (fun sid => select_elements sid points op) (_id self) h.

(** [append(points)], [prepend(points)], [set(points)] *)
Definition append (self : t) (points : points_array) (h : heap) : heap :=
  _perform_selection self points SELECT_APPEND h.

Definition prepend (self : t) (points : points_array) (h : heap) : heap :=
  _perform_selection self points SELECT_PREPEND h.

Definition set (self : t) (points : points_array) (h : heap) : heap :=
  _perform_selection self points SELECT_SET h.

(** [__getitem__(arg)] *)
Definition getitem (self : t) (arg : index) (h : heap) : entry_result (t * heap) :=
  match arg with
  | BoolArray arg_shape data =>
      if negb (coord_eqb arg_shape (shape self)) then RaisesType IncompatibleShape
      else
        let points := argwhere arg_shape data in
        Returns (self, set self (Rows points) h)
  | _ => RaisesType OnlyBoolArrays
  end.

End PointSelection.

(** ** select *)

(** An instance of [Selection] or of one of its subclasses. *)
Inductive selection : Type :=
| Plain (s : Selection.t)
| Points (s : PointSelection.t)
| Regular (s : SimpleSelection.t)
| Union (s : FancySelection.t).

(** [sel.shape] *)
Definition selection_shape (sel : selection) : list Z :=
  match sel with
  | Plain s => Selection.shape s
  | Points s => PointSelection.shape s
  | Regular s => SimpleSelection.shape s
  | Union s => FancySelection.shape s
  end.

(** The arguments of [select]: index values (one, or a tuple of them), or
    one of the special objects, which [select] recognises when it is the
    only argument.  A region reference is represented by the region that
    it records. *)
Inductive select_args : Type :=
| Indexing (args : pyarg)
| ExistingSelection (arg : selection)
| RegionReference (region : SpaceID).

(** Modelled from the spec: [h5r.get_region(ref, dsid)] resolves a
    reference into a new descriptor holding the recorded region. *)
Definition get_region (region : SpaceID) (h : heap) : loc * heap := alloc region h.

(** The test of the loop of [select] on one argument: it is not a slice,
    a strided block or Ellipsis, and [int(a)] raises or [a] is an array of
    shape (1,). *)
Definition needs_fancy (a : index) : bool :=
  match a with
  | Slice _ | MBS _ | Ellipsis => false
  | _ =>
      match py_int a with
      | Raise _ => true
      | Ok _ =>
          match a with
          | BoolArray a_shape _ => coord_eqb a_shape [1]
          | _ => false
          end
      end
  end.

(** [select(shape, args, dsid)] *)
Definition select (shape : list Z) (args : select_args) (h : heap)
  : entry_result (selection * heap) :=
  match args with
  | ExistingSelection arg =>
      if negb (coord_eqb (selection_shape arg) shape)
      then Raises (TypeError MismatchedShape)
      else Returns (arg, h)
  | RegionReference region =>
      let '(sid, h) := get_region region h in
      if negb (coord_eqb shape (sp_shape (deref h sid)))
      then RaisesType ReferenceShape
      else
        let '(sel, h) := Selection.init shape (Some sid) h in
        Returns (Plain sel, h)
  | Indexing args =>
      let args := as_tuple args in
      match args with
      | [BoolArray arg_shape data] =>
          let '(sel, h) := PointSelection.init shape None h in
          match PointSelection.getitem sel (BoolArray arg_shape data) h with
          | Returns (sel, h) => Returns (Points sel, h)
          | RaisesType m => RaisesType m
          | Raises e => Raises e
          end
      | _ =>
          if existsb needs_fancy args
          then
            let '(sel, h) := FancySelection.init shape None h in
            match FancySelection.getitem sel (Tuple args) h with
            | Ok (sel, h) => Returns (Union sel, h)
            | Raise e => Raises e
            end
          else
            let '(sel, h) := SimpleSelection.init shape None h in
            match SimpleSelection.getitem sel (Tuple args) h with
            | Ok (sel, h) => Returns (Regular sel, h)
            | Raise e => Raises e
            end
      end
  end.

(** ** Further vocabulary for union selections *)

(** The argument is a sequence for a union selection. *)
Definition is_sequence (a : index) : bool :=
  match sequence_values a with
  | Some _ => true
  | None => false
  end.

(** The index values that make a regular selection. *)
Definition simple_kind (a : index) : Prop :=
  match a with
  | Int _ | Slice _ | MBS _ | Ellipsis => True
  | BoolArray a_shape [_] => a_shape <> [1]
  | _ => False
  end.

(** A fresh point selection over the (3, 4) extent. *)
Definition fresh_points : PointSelection.t * heap :=
  PointSelection.init [3; 4] None [].

(** The index ([1, 2], [3, 4]) on a fresh union selection over (10, 10). *)
Definition two_lists : pyarg := Tuple [IntList [1; 2]; IntList [3; 4]].

(** The call [select((10, 10), (1, slice(None)), dsid)] on an empty heap. *)
Definition select_row : entry_result (selection * heap) :=
  select [10; 10] (Indexing (Tuple [Int 1; full_slice])) [].

(** ** Coordinates inside the extent *)

(** The coordinate tuple [p] names an element of an extent of [shape]. *)
Definition inside (shape : list Z) (p : coord) : Prop :=
  Forall2 (fun x n => 0 <= x < n) p shape.

(** The positions that a translated axis selects. *)
Definition positions (a : axis) : list Z :=
  axis_positions (a_start a) (a_count a) (a_stride a) (a_block a).

(** ** The bounding box of a hyperslab *)

(** The last position that a translated axis selects. *)
Definition last_position (a : axis) : Z :=
  a_start a + (a_count a - 1) * a_stride a + a_block a - 1.

(** A translated axis that selects at least one element, in blocks that
    do not overlap. *)
Definition occupied (a : axis) : Prop :=
  1 <= a_count a /\ 1 <= a_block a /\ a_block a <= a_stride a.

(** [tuple(f(a, x) for a, x in zip(acc, q))] *)
Definition pointwise (f : Z -> Z -> Z) (acc q : coord) : coord :=
  map (fun '(a, x) => f a x) (combine acc q).

(** The extent of the bounding box of a translated axis:
    [topcorner - bottomcorner + 1]. *)
Definition box_length (a : axis) : Z := last_position a - a_start a + 1.

(** An axis to stand for a position outside a list of axes. *)
Definition no_axis : axis := mkaxis 0 0 0 0 false.

(** ** Indexing again *)

(** Two descriptor states over the same extent, at the same offset: they
    differ in the committed selection only. *)
Definition same_extent (x y : SpaceID) : Prop :=
  sp_class x = sp_class y /\ sp_shape x = sp_shape y /\ sp_offset x = sp_offset y.

(** * Properties *)

(** ** Slices *)

Section SliceTranslation.

Variable exp : pyslice.
Variable L : Z.
Hypothesis L_nonneg : 0 <= L.


Lemma clamp_bound_range (dflt : Z) (b : option Z) :
  0 <= dflt <= L -> 0 <= clamp_bound 0 L L dflt b <= L.
Proof.
  intros Hd. unfold clamp_bound. destruct b as [v|]; [|exact Hd].
  destruct (v <? 0) eqn:E1.
  - cbv zeta. destruct (v + L <? 0) eqn:E2; lia.
  - destruct (v >? L) eqn:E2; lia.
Qed.

(** For a positive step, [slice.indices] clamps both bounds to [0, L]. *)
Lemma slice_indices_positive_step :
  1 <= slice_step exp ->
  exists start stop,
    slice_indices exp L = Ok (start, stop, slice_step exp)
    /\ 0 <= start <= L /\ 0 <= stop <= L.
Proof.
  intros Hs. unfold slice_indices.
  destruct (slice_step exp =? 0) eqn:E0; [lia|].
  destruct (L <? 0) eqn:EL; [lia|].
  destruct (slice_step exp <? 0) eqn:En; [lia|].
  eexists _, _. split; [reflexivity|].
  split; apply clamp_bound_range; lia.
Qed.

Lemma translate_slice_small_step :
  slice_step exp < 1 ->
  _translate_slice exp L
  = Raise (ValueError (if slice_step exp =? 0 then SliceStepZero
                       else StepTooSmall (slice_step exp))).
Proof.
  intros Hs. unfold _translate_slice, slice_indices.
  destruct (slice_step exp =? 0) eqn:E0; [reflexivity|].
  destruct (L <? 0) eqn:EL; [lia|].
  cbn. destruct (slice_step exp <? 1) eqn:E1; [reflexivity|lia].
Qed.

End SliceTranslation.

(** C1 (as amended).  On an axis of length [L >= 0]: a step below 1 is
    refused with a [ValueError] (by [slice.indices] itself when it is 0, by
    the step test otherwise); for a step of at least 1 the bounds are
    clamped to [0, L], the result is the empty region [(0, 0, 1)] when
    [stop < start], and otherwise [(start, count, step)] with
    [count = 1 + (stop - start - 1) // step], which is [(start, 0, step)]
    when [stop = start]. *)
Theorem translate_slice_clamps_and_counts (exp : pyslice) (L : Z) :
  0 <= L ->
  let step := slice_step exp in
  (step < 1 ->
   _translate_slice exp L
   = Raise (ValueError (if step =? 0 then SliceStepZero else StepTooSmall step)))
  /\ (1 <= step ->
      exists start stop,
        slice_indices exp L = Ok (start, stop, step)
        /\ 0 <= start <= L /\ 0 <= stop <= L
        /\ (stop < start -> _translate_slice exp L = Ok (0, 0, 1))
        /\ (start <= stop ->
            _translate_slice exp L
            = Ok (start, 1 + (stop - start - 1) / step, step))
        /\ (stop = start -> _translate_slice exp L = Ok (start, 0, step))).
Proof.
  intros HL step. subst step. split.
  - apply translate_slice_small_step; exact HL.
  - intros Hs.
    destruct (slice_indices_positive_step exp L HL Hs) as (start & stop & Hi & Hst & Hsp).
    exists start, stop. repeat split; try tauto; try lia.
    + intros Hlt. unfold _translate_slice. rewrite Hi. cbn.
      destruct (slice_step exp <? 1) eqn:E1; [lia|].
      destruct (stop <? start) eqn:E2; [reflexivity|lia].
    + intros Hle. unfold _translate_slice. rewrite Hi. cbn.
      destruct (slice_step exp <? 1) eqn:E1; [lia|].
      destruct (stop <? start) eqn:E2; [lia|reflexivity].
    + intros ->. unfold _translate_slice. rewrite Hi. cbn.
      destruct (slice_step exp <? 1) eqn:E1; [lia|].
      rewrite Z.ltb_irrefl.
      replace (start - start - 1) with (-1) by lia.
      assert (Hq : -1 / slice_step exp = -1).
      { symmetry. apply Z.div_unique with (r := slice_step exp - 1); lia. }
      rewrite Hq. reflexivity.
Qed.

Lemma translate_slice_clamps_and_counts_witness :
  0 <= 10
  /\ (let step := slice_step (mkslice (Some 2) (Some 9) (Some 3)) in
      (step < 1 ->
       _translate_slice (mkslice (Some 2) (Some 9) (Some 3)) 10
       = Raise (ValueError (if step =? 0 then SliceStepZero else StepTooSmall step)))
      /\ (1 <= step ->
          exists start stop,
            slice_indices (mkslice (Some 2) (Some 9) (Some 3)) 10
            = Ok (start, stop, step)
            /\ 0 <= start <= 10 /\ 0 <= stop <= 10
            /\ (stop < start ->
                _translate_slice (mkslice (Some 2) (Some 9) (Some 3)) 10 = Ok (0, 0, 1))
            /\ (start <= stop ->
                _translate_slice (mkslice (Some 2) (Some 9) (Some 3)) 10
                = Ok (start, 1 + (stop - start - 1) / step, step))
            /\ (stop = start ->
                _translate_slice (mkslice (Some 2) (Some 9) (Some 3)) 10
                = Ok (start, 0, step)))).
Proof.
  split; [lia|].
  apply (translate_slice_clamps_and_counts (mkslice (Some 2) (Some 9) (Some 3)) 10).
  lia.
Defined.

(** C1 as stated fails: with [stop = start] the code does not return
    [(0, 0, 1)].  [slice(3, 3)] on length 10 gives [(3, 0, 1)]. *)
Lemma translate_slice_equal_bounds_counterexample :
  ~ (forall exp L start stop step,
        slice_indices exp L = Ok (start, stop, step) ->
        1 <= step -> stop <= start ->
        _translate_slice exp L = Ok (0, 0, 1)).
Proof.
  intros H.
  specialize (H (mkslice (Some 3) (Some 3) None) 10 3 3 1 eq_refl).
  assert (Hc : _translate_slice (mkslice (Some 3) (Some 3) None) 10 = Ok (3, 0, 1))
    by reflexivity.
  rewrite Hc in H. discriminate H; lia.
Qed.

(** The count of a slice is the number of indices that the half-open range
    [start, start + step, ... < stop] visits. *)
Lemma translate_slice_count_is_range_length (start stop step : Z) :
  1 <= step -> start <= stop ->
  let count := 1 + (stop - start - 1) / step in
  0 <= count
  /\ (forall i, 0 <= i < count -> start + i * step < stop)
  /\ stop <= start + count * step.
Proof.
  intros Hs Hle count.
  assert (Hdm := Z.div_mod (stop - start - 1) step ltac:(lia)).
  assert (Hr := Z.mod_pos_bound (stop - start - 1) step ltac:(lia)).
  assert (Hq : -1 <= (stop - start - 1) / step).
  { apply Z.div_le_lower_bound; lia. }
  unfold count. repeat split; try lia.
  intros i Hi. nia.
Qed.

Example handle_simple_ellipsis_int :
  _handle_simple [10; 5; 4; 2] [Ellipsis; Int 0]
  = Ok (mksimple [0;0;0;0] [10;5;4;1] [1;1;1;1] [1;1;1;1] [false;false;false;true]).
Proof. reflexivity. Qed.

(** ** Strided blocks *)

(** What the constructor guarantees about a value it returns. *)
Lemma MultiBlockSlice_init_ok (start stride : Z) (count : option Z) (block : Z)
    (m : MultiBlockSlice) :
  MultiBlockSlice_init start stride count block = Ok m ->
  m = mkMBS start stride count block
  /\ 0 <= start /\ 1 <= stride /\ 1 <= block /\ block <= stride
  /\ match count with Some c => 1 <= c | None => True end.
Proof.
  unfold MultiBlockSlice_init. intros H.
  destruct (start <? 0) eqn:E1; [discriminate|].
  destruct (stride <? 1) eqn:E2; [discriminate|].
  destruct (block <? 1) eqn:E4.
  { rewrite orb_true_r in H. discriminate. }
  destruct count as [c|]; cbn in H.
  - destruct (c <? 1) eqn:E3; [discriminate|].
    destruct (block >? stride) eqn:E5; [discriminate|].
    inversion H. repeat split; lia.
  - destruct (block >? stride) eqn:E5; [discriminate|].
    inversion H. repeat split; lia.
Qed.

Example strided_block_fits :
  (m <- MultiBlockSlice_init 2 3 (Some 2) 2 ;; MultiBlockSlice_indices m 10)
  = Ok (2, 2, 3, 2).
Proof. reflexivity. Qed.

Example strided_block_too_long :
  (m <- MultiBlockSlice_init 2 3 (Some 2) 2 ;; MultiBlockSlice_indices m 6)
  = Raise (ValueError (ExtendsBeyond (mkrepr 2 3 (Some 2) 2) 2 6 5)).
Proof. reflexivity. Qed.

(** C4.  For a strided block built by the constructor and an axis of
    length [L], write [fits k] for [start+block+(k-1)*stride-1 < L].  With a
    given count [c] the translation returns [(start, c, stride, block)] when
    [fits c] and raises the range error, whose message carries the block's
    parameters, exactly when it does not.  Without a count it returns
    [c = (L-start-block)//stride + 1] when [c >= 1], and this is the largest
    number of blocks that fit; it raises exactly when [c < 1]. *)
Theorem multiblock_indices_validates (start stride : Z) (count : option Z)
    (block : Z) (m : MultiBlockSlice) (L : Z) :
  MultiBlockSlice_init start stride count block = Ok m ->
  let fits k := start + block + (k - 1) * stride - 1 < L in
  match count with
  | Some c =>
      (fits c -> MultiBlockSlice_indices m L = Ok (start, c, stride, block))
      /\ (~ fits c ->
          MultiBlockSlice_indices m L
          = Raise (ValueError
                     (ExtendsBeyond (mkrepr start stride (Some c) block) start
                        (start + block + (c - 1) * stride - 1) (L - 1))))
  | None =>
      let c := (L - start - block) / stride + 1 in
      (1 <= c ->
       MultiBlockSlice_indices m L = Ok (start, c, stride, block)
       /\ fits c /\ forall k, fits k -> k <= c)
      /\ (c < 1 ->
          MultiBlockSlice_indices m L
          = Raise (ValueError (NoFullBlocks (mkrepr start stride None block) L)))
  end.
Proof.
  intros Hinit fits.
  destruct (MultiBlockSlice_init_ok _ _ _ _ _ Hinit) as (-> & Hs & Hd & Hb & Hbd & Hc).
  unfold MultiBlockSlice_indices, _repr. cbn [mbs_start mbs_stride mbs_count mbs_block].
  destruct count as [c|].
  - cbn [bind]. unfold fits. split; intros Hf.
    + destruct (_ >=? L) eqn:E; [lia|reflexivity].
    + destruct (_ >=? L) eqn:E; [reflexivity|lia].
  - cbv zeta. unfold floordiv.
    set (c := (L - start - block) / stride + 1).
    destruct (stride =? 0) eqn:E0; [lia|]. cbn [bind]. fold c.
    assert (Hdm := Z.div_mod (L - start - block) stride ltac:(lia)).
    assert (Hr := Z.mod_pos_bound (L - start - block) stride ltac:(lia)).
    assert (Hfit : fits c) by (unfold fits, c; nia).
    split; intros Hc1.
    + destruct (c <? 1) eqn:E1; [lia|]. cbn [bind].
      destruct (_ >=? L) eqn:E2; [unfold fits in Hfit; lia|].
      split; [reflexivity|]. split; [exact Hfit|].
      intros k Hk. unfold fits in Hk. unfold c.
      assert (k - 1 <= (L - start - block) / stride); [|lia].
      apply Z.div_le_lower_bound; lia.
    + destruct (c <? 1) eqn:E1; [reflexivity|lia].
Qed.

Lemma multiblock_indices_validates_witness :
  MultiBlockSlice_init 2 3 (Some 2) 2 = Ok (mkMBS 2 3 (Some 2) 2)
  /\ (2 + 2 + (2 - 1) * 3 - 1 < 10 ->
      MultiBlockSlice_indices (mkMBS 2 3 (Some 2) 2) 10 = Ok (2, 2, 3, 2)).
Proof.
  split; [reflexivity|].
  exact (proj1 (multiblock_indices_validates 2 3 (Some 2) 2 _ 10 eq_refl)).
Defined.

(** ** Ellipsis expansion *)

Section EllipsisExpansion.

Variable rank : Z.

Lemma filter_no_ellipsis (l : list index) :
  ~ In Ellipsis l -> filter is_Ellipsis l = [].
Proof.
  induction l as [|a l IH]; intros Hn; [reflexivity|].
  cbn. destruct a; cbn; try (apply IH; intros Hi; apply Hn; right; exact Hi).
  exfalso. apply Hn. left. reflexivity.
Qed.

Lemma filter_ellipsis_nil (l : list index) :
  filter is_Ellipsis l = [] -> ~ In Ellipsis l.
Proof.
  induction l as [|a l IH]; intros Hf Hi; [exact Hi|].
  destruct Hi as [Ha|Hi]; [subst a; discriminate Hf|].
  cbn in Hf. destruct (is_Ellipsis a); [discriminate|]. exact (IH Hf Hi).
Qed.

Lemma flat_map_no_ellipsis (n_args : Z) (l : list index) :
  ~ In Ellipsis l -> flat_map (expand_arg rank n_args) l = l.
Proof.
  induction l as [|a l IH]; intros Hn; [reflexivity|].
  cbn. rewrite IH by (intros Hi; apply Hn; right; exact Hi).
  unfold expand_arg. destruct a; try reflexivity.
  exfalso. apply Hn. left. reflexivity.
Qed.

(** An argument tuple with exactly one Ellipsis splits around it. *)
Lemma one_ellipsis_split (l : list index) :
  length (filter is_Ellipsis l) = 1%nat ->
  exists pre post,
    l = pre ++ Ellipsis :: post /\ ~ In Ellipsis pre /\ ~ In Ellipsis post.
Proof.
  induction l as [|a l IH]; intros Hf; [discriminate|].
  cbn in Hf. destruct (is_Ellipsis a) eqn:Ea.
  - destruct a; try discriminate.
    exists [], l. split; [reflexivity|]. split; [intros []|].
    apply filter_ellipsis_nil.
    destruct (filter is_Ellipsis l); [reflexivity|discriminate].
  - destruct (IH Hf) as (pre & post & -> & Hpre & Hpost).
    exists (a :: pre), post. split; [reflexivity|]. split; [|exact Hpost].
    intros [Ha|Hi]; [subst a; discriminate Ea|exact (Hpre Hi)].
Qed.

Lemma len_app {A} (l1 l2 : list A) : len (l1 ++ l2) = len l1 + len l2.
Proof. unfold len. rewrite length_app. lia. Qed.

Lemma len_tuple_repeat {A} (x : A) (n : Z) : len (tuple_repeat x n) = Z.max 0 n.
Proof. unfold len, tuple_repeat. rewrite repeat_length. lia. Qed.

Lemma len_nonneg {A} (l : list A) : 0 <= len l.
Proof. unfold len. lia. Qed.

(** One Ellipsis among [k] other arguments: it becomes [rank - k]
    full-range slices, unless [k > rank]. *)
Lemma expand_ellipsis_one (pre post : list index) :
  ~ In Ellipsis pre -> ~ In Ellipsis post ->
  _expand_ellipsis (pre ++ Ellipsis :: post) rank
  = if len pre + len post >? rank then Raise (TypeError SequenceTooLong)
    else Ok (pre ++ tuple_repeat full_slice (rank - (len pre + len post)) ++ post).
Proof.
  intros Hpre Hpost. unfold _expand_ellipsis.
  rewrite filter_app. cbn [filter is_Ellipsis].
  rewrite (filter_no_ellipsis pre Hpre), (filter_no_ellipsis post Hpost).
  cbn [app len length Z.of_nat Z.gtb Z.compare Pos.compare Pos.compare_cont
       Pos.of_succ_nat Z.eqb andb].
  rewrite flat_map_app. cbn [flat_map].
  rewrite !flat_map_no_ellipsis by assumption.
  unfold expand_arg. cbn [is_Ellipsis].
  replace (rank - len (pre ++ Ellipsis :: post) + 1)
    with (rank - (len pre + len post)).
  2:{ rewrite len_app. unfold len. cbn [length]. lia. }
  rewrite !len_app, len_tuple_repeat.
  assert (Hp := len_nonneg pre). assert (Hq := len_nonneg post).
  destruct (len pre + len post >? rank) eqn:E;
    destruct (len pre + (Z.max 0 (rank - (len pre + len post)) + len post) >? rank)
      eqn:E'; try reflexivity; lia.
Qed.

(** No Ellipsis: the tuple is complete, or an Ellipsis is appended. *)
Lemma expand_ellipsis_none (args : list index) :
  ~ In Ellipsis args ->
  _expand_ellipsis args rank
  = if len args =? rank then Ok args
    else _expand_ellipsis (args ++ [Ellipsis]) rank.
Proof.
  intros Hn. destruct (len args =? rank) eqn:E.
  - unfold _expand_ellipsis. rewrite (filter_no_ellipsis args Hn).
    cbn [len length Z.of_nat Z.gtb Z.compare Z.eqb andb]. rewrite E. cbn [negb].
    rewrite flat_map_no_ellipsis by assumption.
    destruct (len args >? rank) eqn:E'; [lia|reflexivity].
  - unfold _expand_ellipsis at 1 2. rewrite filter_app.
    rewrite (filter_no_ellipsis args Hn).
    cbn [filter is_Ellipsis app len length Z.of_nat Z.gtb Z.compare Pos.compare
         Pos.compare_cont Pos.of_succ_nat Z.eqb andb].
    rewrite E. reflexivity.
Qed.

(** A returned argument list has exactly [rank] entries. *)
Lemma expand_ellipsis_length (args final_args : list index) :
  _expand_ellipsis args rank = Ok final_args -> len final_args = rank.
Proof.
  intros Hr.
  assert (Hone : forall pre post r,
             ~ In Ellipsis pre -> ~ In Ellipsis post ->
             _expand_ellipsis (pre ++ Ellipsis :: post) rank = Ok r -> len r = rank).
  { intros pre post r Hpre Hpost Hr'.
    rewrite expand_ellipsis_one in Hr' by assumption.
    destruct (len pre + len post >? rank) eqn:E; [discriminate|].
    injection Hr' as <-. rewrite !len_app, len_tuple_repeat. lia. }
  destruct (filter is_Ellipsis args) as [|e1 [|e2 rest]] eqn:Ef.
  - apply filter_ellipsis_nil in Ef.
    rewrite expand_ellipsis_none in Hr by exact Ef.
    destruct (len args =? rank) eqn:E.
    + injection Hr as <-. lia.
    + apply (Hone args [] final_args Ef); [intros []|exact Hr].
  - destruct (one_ellipsis_split args) as (pre & post & -> & Hpre & Hpost).
    { rewrite Ef. reflexivity. }
    exact (Hone pre post final_args Hpre Hpost Hr).
  - unfold _expand_ellipsis in Hr. rewrite Ef in Hr.
    assert (Hgt : 1 < len (e1 :: e2 :: rest)).
    { unfold len. rewrite !length_cons. lia. }
    destruct (len (e1 :: e2 :: rest) >? 1) eqn:E; [discriminate|lia].
Qed.

End EllipsisExpansion.

(** C7.  With [n_el] the number of Ellipsis arguments: more than one is
    refused ([ValueError], only one ellipsis may be used); with none and an
    argument count other than the rank, the outcome is that of the tuple
    with an Ellipsis appended; a single Ellipsis among [k <= rank] other
    arguments is replaced by [rank - k] full-range slices; every result that
    is returned has exactly [rank] entries; and with at most one Ellipsis,
    more than [rank] other arguments are refused ([TypeError], argument
    sequence too long). *)
Theorem expand_ellipsis_rule (args : list index) (rank : Z) :
  let n_el := len (filter is_Ellipsis args) in
  (1 < n_el -> _expand_ellipsis args rank = Raise (ValueError OneEllipsis))
  /\ (n_el = 0 -> len args <> rank ->
      _expand_ellipsis args rank = _expand_ellipsis (args ++ [Ellipsis]) rank)
  /\ (n_el = 0 -> len args = rank -> _expand_ellipsis args rank = Ok args)
  /\ (forall pre post,
         n_el = 1 -> args = pre ++ Ellipsis :: post ->
         len pre + len post <= rank ->
         _expand_ellipsis args rank
         = Ok (pre ++ tuple_repeat full_slice (rank - (len pre + len post)) ++ post))
  /\ (forall final_args,
         _expand_ellipsis args rank = Ok final_args -> len final_args = rank)
  /\ (n_el <= 1 -> rank < len args - n_el ->
      _expand_ellipsis args rank = Raise (TypeError SequenceTooLong)).
Proof.
  intros n_el.
  assert (Hn : n_el = len (filter is_Ellipsis args)) by reflexivity.
  clearbody n_el.
  assert (Hzero : n_el = 0 -> ~ In Ellipsis args).
  { intros H0. apply filter_ellipsis_nil. rewrite Hn in H0.
    destruct (filter is_Ellipsis args); [reflexivity|].
    unfold len in H0. cbn in H0. lia. }
  assert (Hsplit : forall pre post, n_el = 1 -> args = pre ++ Ellipsis :: post ->
                                    ~ In Ellipsis pre /\ ~ In Ellipsis post).
  { intros pre post H1 ->. rewrite Hn in H1. unfold len in H1.
    rewrite filter_app, length_app in H1. cbn in H1.
    split; apply filter_ellipsis_nil.
    - destruct (filter is_Ellipsis pre); [reflexivity|cbn in H1; lia].
    - destruct (filter is_Ellipsis post); [reflexivity|].
      cbn in H1. lia. }
  assert (Hone : n_el = 1 -> exists pre post,
               args = pre ++ Ellipsis :: post /\ ~ In Ellipsis pre /\ ~ In Ellipsis post).
  { intros H1. apply one_ellipsis_split. rewrite Hn in H1. unfold len in H1. lia. }
  repeat split.
  - intros Hgt. unfold _expand_ellipsis. rewrite <- Hn.
    destruct (n_el >? 1) eqn:E; [reflexivity|lia].
  - intros H0 Hne. rewrite expand_ellipsis_none by auto.
    destruct (len args =? rank) eqn:E; [lia|reflexivity].
  - intros H0 He. rewrite expand_ellipsis_none by auto.
    destruct (len args =? rank) eqn:E; [reflexivity|lia].
  - intros pre post H1 Hargs Hk.
    destruct (Hsplit pre post H1 Hargs) as [Hpre Hpost]. subst args.
    rewrite expand_ellipsis_one by assumption.
    destruct (len pre + len post >? rank) eqn:E; [lia|reflexivity].
  - intros r Hr. exact (expand_ellipsis_length _ _ _ Hr).
  - intros Hle Hgt.
    assert (0 <= n_el) by (rewrite Hn; apply len_nonneg).
    destruct (Z.eq_dec n_el 0) as [H0|Hn0].
    + rewrite expand_ellipsis_none by auto.
      destruct (len args =? rank) eqn:E; [lia|].
      replace (args ++ [Ellipsis]) with (args ++ Ellipsis :: []) by reflexivity.
      rewrite expand_ellipsis_one by (auto; intros []).
      unfold len at 2. cbn [length Z.of_nat].
      destruct (len args + 0 >? rank) eqn:E'; [reflexivity|lia].
    + destruct (Hone ltac:(lia)) as (pre & post & Hargs & Hpre & Hpost).
      rewrite Hargs. rewrite expand_ellipsis_one by assumption.
      destruct (len pre + len post >? rank) eqn:E'; [reflexivity|].
      exfalso. rewrite Hargs, len_app in Hgt. unfold len in *.
      cbn [length] in Hgt. lia.
Qed.

Lemma expand_ellipsis_rule_witness :
  len (filter is_Ellipsis [Int 1; Ellipsis; Int 2]) = 1
  /\ [Int 1; Ellipsis; Int 2] = [Int 1] ++ Ellipsis :: [Int 2]
  /\ len [Int 1] + len [Int 2] <= 4
  /\ _expand_ellipsis [Int 1; Ellipsis; Int 2] 4
     = Ok ([Int 1] ++ tuple_repeat full_slice (4 - (len [Int 1] + len [Int 2]))
                   ++ [Int 2]).
Proof.
  split; [reflexivity|]. split; [reflexivity|]. split; [cbv; discriminate|].
  apply (proj1 (proj2 (proj2 (proj2
           (expand_ellipsis_rule [Int 1; Ellipsis; Int 2] 4)))) [Int 1] [Int 2]).
  - reflexivity.
  - reflexivity.
  - cbv; discriminate.
Defined.

(** ** expand_shape *)

Lemma neg_index_rev {A} (l : list A) (k : nat) (x : A) :
  nth_error (rev l) k = Some x -> neg_index l (S k) = Ok x.
Proof.
  rewrite nth_error_rev. intros H. unfold neg_index.
  destruct (k <? length l)%nat eqn:E; [|discriminate].
  apply Nat.ltb_lt in E.
  destruct (S k <=? length l)%nat eqn:E2; [|apply Nat.leb_gt in E2; lia].
  rewrite H. reflexivity.
Qed.

Lemma nth_error_combine_inv {A B} (l1 : list A) (l2 : list B) (i : nat) (a : A) (b : B) :
  nth_error (combine l1 l2) i = Some (a, b) ->
  nth_error l1 i = Some a /\ nth_error l2 i = Some b.
Proof.
  revert l2 i. induction l1 as [|x l1 IH]; intros [|y l2] [|i] H;
    cbn in *; try discriminate.
  - inversion H. split; reflexivity.
  - apply IH. exact H.
Qed.

Lemma existsb_rev {A} (f : A -> bool) (l : list A) :
  existsb f (rev l) = existsb f l.
Proof.
  induction l as [|x l IH]; [reflexivity|].
  cbn. rewrite existsb_app, IH. cbn. rewrite orb_false_r. apply orb_comm.
Qed.

Lemma expand_walk_length (axes : list (bool * Z * Z)) :
  forall src e unused,
    expand_walk axes src = Some (e, unused) -> length e = length axes.
Proof.
  induction axes as [|a axes IH]; intros src e unused H; cbn in H.
  - inversion H. reflexivity.
  - destruct (expand_axis_rule a src) as [[d src']|]; [|discriminate].
    destruct (expand_walk axes src') as [[e' u']|] eqn:E; [|discriminate].
    inversion H. subst. cbn. f_equal. exact (IH _ _ _ E).
Qed.

Ltac walk_cases :=
  match goal with
  | |- context [expand_walk ?r ?s] =>
      destruct (expand_walk r s) as [[? ?]|]; reflexivity
  end.

Section ExpandShape.

Variable self : SimpleSelection.t.
Variable source_shape : list Z.

(** The loop of [expand_shape], started at index [k0 + 1] on the axes
    [r] (last axis first), is the walk of the specification. *)
Lemma expand_loop_walk (r : list (bool * Z * Z)) :
  forall (k0 : nat) (rem esh : list Z),
    (forall j sc m b,
        nth_error r j = Some (sc, m, b) ->
        neg_index (sel_scalar self) (S (k0 + j)) = Ok sc
        /\ neg_index (SimpleSelection.mshape self) (S (k0 + j)) = Ok m
        /\ neg_index (SimpleSelection._block_shape self) (S (k0 + j)) = Ok b) ->
    foldM (SimpleSelection.expand_step self source_shape)
          (seq (S k0) (length r)) (rem, esh)
    = match expand_walk r (rev rem) with
      | Some (e, unused) => Ok (rev unused, esh ++ e)
      | None => Raise (TypeError (CantBroadcast source_shape
                                    (SimpleSelection.array_shape self)))
      end.
Proof.
  induction r as [|[[sc m] b] r IH]; intros k0 rem esh Hlook.
  - cbn. rewrite rev_involutive, app_nil_r. reflexivity.
  - destruct (Hlook 0%nat sc m b eq_refl) as (Hsc & Hm & Hb).
    rewrite Nat.add_0_r in Hsc, Hm, Hb.
    assert (Hnext : forall rem' d,
               foldM (SimpleSelection.expand_step self source_shape)
                     (seq (S (S k0)) (length r)) (rem', esh ++ [d])
               = match expand_walk r (rev rem') with
                 | Some (e, unused) => Ok (rev unused, esh ++ d :: e)
                 | None => Raise (TypeError (CantBroadcast source_shape
                                               (SimpleSelection.array_shape self)))
                 end).
    { intros rem' d. rewrite IH.
      - destruct (expand_walk r (rev rem')) as [[e u]|]; [|reflexivity].
        rewrite <- app_assoc. reflexivity.
      - intros j sc' m' b' Hj. rewrite <- Nat.add_succ_r.
        apply Hlook. exact Hj. }
    cbn [length seq foldM expand_walk].
    unfold SimpleSelection.expand_step at 1.
    unfold sel_scalar in Hsc.
    destruct (SimpleSelection._sel self) as [[[st ct] sd] scal].
    destruct (rev rem) as [|t rr] eqn:Erev.
    + assert (rem = []) as ->.
      { destruct rem; [reflexivity|]. cbn in Erev.
        destruct (rev rem); discriminate. }
      cbn [len length Z.of_nat Z.eqb bind].
      rewrite Hnext. cbn [rev].
      unfold expand_axis_rule. destruct sc; walk_cases.
    + assert (Hlen : (len rem =? 0) = false).
      { destruct rem; [discriminate|]. reflexivity. }
      rewrite Hlen, Hsc. cbn [bind]. unfold expand_axis_rule.
      destruct sc; cbn [bind].
      * rewrite Hnext, Erev. walk_cases.
      * unfold pop. rewrite Erev, Hm, Hb. cbn [bind].
        destruct (t =? 1) eqn:E1; cbn [bind orb].
        { rewrite Hnext, rev_involutive. walk_cases. }
        destruct (m =? t) eqn:E2; cbn [bind orb].
        { rewrite Hnext, rev_involutive. walk_cases. }
        destruct (b =? t) eqn:E3; cbn [bind orb].
        { rewrite Hnext, rev_involutive. walk_cases. }
        reflexivity.
Qed.

Hypothesis Hwf : consistent self.

Lemma mshape_length :
  length (SimpleSelection.mshape self) = length (sel_count self).
Proof.
  unfold SimpleSelection.mshape, sel_count, consistent in *.
  destruct (SimpleSelection._sel self) as [[[st ct] sd] scal].
  rewrite length_map, length_combine. lia.
Qed.

Lemma axes_length :
  length (combine (combine (sel_scalar self) (SimpleSelection.mshape self))
                  (SimpleSelection._block_shape self))
  = length (SimpleSelection.mshape self).
Proof.
  rewrite !length_combine, mshape_length.
  unfold sel_scalar, sel_count, consistent in *.
  destruct (SimpleSelection._sel self) as [[[st ct] sd] scal]. lia.
Qed.

Lemma axes_lookup (j : nat) (sc : bool) (m b : Z) :
  nth_error (rev (combine (combine (sel_scalar self) (SimpleSelection.mshape self))
                          (SimpleSelection._block_shape self))) j
  = Some (sc, m, b) ->
  neg_index (sel_scalar self) (S j) = Ok sc
  /\ neg_index (SimpleSelection.mshape self) (S j) = Ok m
  /\ neg_index (SimpleSelection._block_shape self) (S j) = Ok b.
Proof.
  intros H. rewrite nth_error_rev, axes_length in H.
  destruct (j <? length (SimpleSelection.mshape self))%nat eqn:E; [|discriminate].
  apply Nat.ltb_lt in E.
  apply nth_error_combine_inv in H. destruct H as [H Hb].
  apply nth_error_combine_inv in H. destruct H as [Hsc Hm].
  assert (Hls : length (sel_scalar self) = length (SimpleSelection.mshape self)).
  { rewrite mshape_length. unfold sel_scalar, sel_count, consistent in *.
    destruct (SimpleSelection._sel self) as [[[st ct] sd] scal]. lia. }
  assert (Hlb : length (SimpleSelection._block_shape self)
                = length (SimpleSelection.mshape self)).
  { rewrite mshape_length. unfold sel_count, consistent in *.
    destruct (SimpleSelection._sel self) as [[[st ct] sd] scal]. lia. }
  unfold neg_index. rewrite Hls, Hlb.
  destruct (S j <=? length (SimpleSelection.mshape self))%nat eqn:E2;
    [|apply Nat.leb_gt in E2; lia].
  rewrite Hsc, Hm, Hb. repeat split; reflexivity.
Qed.

Lemma expand_shape_is_spec :
  SimpleSelection.expand_shape self source_shape
  = match expand_shape_spec (sel_scalar self) (SimpleSelection.mshape self)
            (SimpleSelection._block_shape self) source_shape with
    | Some e => Ok e
    | None => Raise (TypeError (CantBroadcast source_shape
                                  (SimpleSelection.array_shape self)))
    end.
Proof.
  unfold SimpleSelection.expand_shape, expand_shape_spec.
  rewrite <- axes_length, <- length_rev.
  rewrite expand_loop_walk.
  - destruct (expand_walk _ (rev source_shape)) as [[e u]|]; [|reflexivity].
    cbn [bind app]. rewrite existsb_rev.
    destruct (existsb _ u); reflexivity.
  - intros j sc m b Hj. cbn [Nat.add]. apply axes_lookup. exact Hj.
Qed.

End ExpandShape.

(** C3.  For a regular selection whose per-axis tuples have the rank of
    its extent, [expand_shape] is the walk of the specification: the axes are
    taken from last to first, a scalar axis gives 1 and consumes nothing,
    another axis takes the last remaining source dimension (1 when none is
    left), legal iff it is 1, the axis span or the block length; an illegal
    dimension or a leftover source dimension above 1 raises the broadcast
    error; a returned shape has the rank of the selection. *)
Theorem expand_shape_walks_axes (self : SimpleSelection.t) (source_shape : list Z) :
  consistent self ->
  SimpleSelection.expand_shape self source_shape
  = match expand_shape_spec (sel_scalar self) (SimpleSelection.mshape self)
            (SimpleSelection._block_shape self) source_shape with
    | Some e => Ok e
    | None => Raise (TypeError (CantBroadcast source_shape
                                  (SimpleSelection.array_shape self)))
    end
  /\ forall e, SimpleSelection.expand_shape self source_shape = Ok e ->
               length e = length (SimpleSelection.mshape self).
Proof.
  intros Hwf. split; [apply expand_shape_is_spec; exact Hwf|].
  rewrite expand_shape_is_spec by exact Hwf.
  unfold expand_shape_spec. intros e He.
  destruct (expand_walk _ (rev source_shape)) as [[e' u]|] eqn:Ew; [|discriminate].
  destruct (existsb _ u); [discriminate|].
  inversion He. subst e. rewrite length_rev.
  rewrite (expand_walk_length _ _ _ _ Ew), length_rev.
  apply axes_length. exact Hwf.
Qed.

(** The example of C3: shape (10, 5, 4, 2) indexed [..., 0] has mshape
    (10, 5, 4, 1) with a scalar axis at position 3, and the source shape
    (5, 4) expands to (1, 5, 4, 1). *)
Lemma expand_shape_walks_axes_witness :
  exists sel h,
    index_last_axis [] = Ok (sel, h)
    /\ SimpleSelection.mshape sel = [10; 5; 4; 1]
    /\ sel_scalar sel = [false; false; false; true]
    /\ consistent sel
    /\ SimpleSelection.expand_shape sel [5; 4] = Ok [1; 5; 4; 1].
Proof.
  eexists. eexists. split; [vm_compute; reflexivity|].
  split; [reflexivity|]. split; [reflexivity|].
  match goal with
  | |- consistent ?s /\ _ => assert (Hc : consistent s) by (repeat split)
  end.
  split; [exact Hc|].
  rewrite (proj1 (expand_shape_walks_axes _ [5; 4] Hc)). reflexivity.
Defined.

(** ** What a translated axis looks like *)

Lemma translate_slice_count_nonneg (s : pyslice) (length start count step : Z) :
  _translate_slice s length = Ok (start, count, step) -> 0 <= count.
Proof.
  unfold _translate_slice, slice_indices.
  destruct (slice_step s =? 0) eqn:E0; [discriminate|].
  destruct (length <? 0) eqn:EL; [discriminate|].
  cbn [bind].
  destruct (slice_step s <? 1) eqn:E1; [discriminate|].
  set (stop := clamp_bound _ _ _ _ (sl_stop s)).
  set (st := clamp_bound _ _ _ _ (sl_start s)).
  clearbody stop st.
  destruct (stop <? st) eqn:E2.
  - intros [= _ <- _]. lia.
  - intros [= <- <- _].
    assert (Hx : forall x, -1 <= x -> 0 <= 1 + x) by (intros; lia).
    apply (Hx ((stop - st - 1) / slice_step s)).
    apply Z.div_le_lower_bound; lia.
Qed.

Lemma translate_int_ok (i length start count step : Z) :
  _translate_int i length = Ok (start, count, step) ->
  count = 1 /\ step = 1 /\ 0 <= start < length.
Proof.
  unfold _translate_int.
  destruct (negb _) eqn:E; [discriminate|].
  intros H. inversion H. subst.
  apply negb_false_iff, andb_true_iff in E. lia.
Qed.

Lemma multiblock_indices_ok (m : MultiBlockSlice) (L start count stride block : Z) :
  MultiBlockSlice_indices m L = Ok (start, count, stride, block) ->
  start = mbs_start m /\ stride = mbs_stride m /\ block = mbs_block m
  /\ match mbs_count m with Some c => count = c | None => 1 <= count end.
Proof.
  unfold MultiBlockSlice_indices, floordiv.
  destruct (mbs_count m) as [c|]; cbn [bind].
  - destruct (_ >=? L); [discriminate|].
    intros H. inversion H. repeat split.
  - destruct (mbs_stride m =? 0); [discriminate|]. cbn [bind].
    destruct (_ <? 1) eqn:E1; [discriminate|]. cbn [bind].
    destruct (_ >=? L); [discriminate|].
    intros H. inversion H. repeat split. lia.
Qed.

(** An integer-like argument gives a scalar axis of one element; a slice
    or a strided block gives a non-scalar axis. *)
Lemma translate_axis_kind (arg : index) (length : Z) (a : axis) :
  translate_axis arg length = Ok a ->
  match arg with
  | Slice _ => a_scalar a = false /\ a_block a = 1
  | MBS _ => a_scalar a = false
  | _ => a_scalar a = true /\ a_count a = 1 /\ a_block a = 1
  end.
Proof.
  intros H.
  assert (Hint : forall r : result Z,
             match ('(_start, _count, _stride) <-
                      (i <- r ;; _translate_int i length) ;;
                    Ok (mkaxis _start _count _stride 1 true)) with
             | Raise (TypeError _) => Raise (TypeError (IllegalIndex arg))
             | r => r
             end = Ok a ->
             a_scalar a = true /\ a_count a = 1 /\ a_block a = 1).
  { intros [i|e]; cbn [bind].
    - destruct (_translate_int i length) as [[[st c] sd]|e] eqn:E; cbn [bind].
      + intros H'. inversion H'. cbn.
        destruct (translate_int_ok _ _ _ _ _ E) as (-> & _ & _). repeat split.
      + destruct e; discriminate.
    - destruct e; discriminate. }
  destruct arg as [i|s|m| |l|l|sh data]; try exact (Hint (py_int _) H);
    try (cbn in H; discriminate H).
  - cbn in H. destruct (_translate_slice s length) as [[[st c] sd]|e]; [|discriminate].
    inversion H. split; reflexivity.
  - cbn in H.
    destruct (_translate_multi_block_slice m length) as [[[[st c] sd] b]|e];
      [|discriminate].
    inversion H. reflexivity.
Qed.

Lemma translate_axis_shape (arg : index) (length : Z) (a : axis) :
  valid_index arg ->
  translate_axis arg length = Ok a ->
  0 <= a_count a /\ 1 <= a_block a.
Proof.
  intros Hv H. assert (Hk := translate_axis_kind _ _ _ H).
  destruct arg as [i|s|m| |l|l|sh data]; try (destruct Hk as (_ & -> & ->); lia).
  - cbn in H. destruct (_translate_slice s length) as [[[st c] sd]|e] eqn:E;
      [|discriminate].
    inversion H. cbn. split; [|lia].
    exact (translate_slice_count_nonneg _ _ _ _ _ E).
  - destruct Hv as (start & stride & count & block & Hinit).
    destruct (MultiBlockSlice_init_ok _ _ _ _ _ Hinit) as (-> & Hs & Hd & Hb & Hbd & Hc).
    cbn in H. unfold _translate_multi_block_slice in H.
    destruct (MultiBlockSlice_indices _ length) as [[[[st c] sd] b]|e] eqn:E;
      [|discriminate].
    destruct (multiblock_indices_ok _ _ _ _ _ _ E) as (_ & _ & -> & Hcount).
    inversion H. cbn in *. destruct count; lia.
Qed.

Lemma translate_axes_length (args : list index) :
  forall shape axes,
    translate_axes args shape = Ok axes ->
    length axes = Nat.min (length args) (length shape).
Proof.
  induction args as [|arg args IH]; intros [|l shape] axes H; cbn in H;
    try (inversion H; reflexivity).
  destruct (translate_axis arg l) as [a|e]; [|discriminate]. cbn in H.
  destruct (translate_axes args shape) as [rest|e] eqn:E; [|discriminate].
  inversion H. cbn. rewrite (IH _ _ E). reflexivity.
Qed.

Lemma translate_axes_shape (args : list index) :
  forall shape axes,
    Forall valid_index args ->
    translate_axes args shape = Ok axes ->
    Forall (fun a => 0 <= a_count a /\ 1 <= a_block a) axes.
Proof.
  induction args as [|arg args IH]; intros [|l shape] axes Hv H; cbn in H;
    try (inversion H; constructor).
  destruct (translate_axis arg l) as [a|e] eqn:Ea; [|discriminate]. cbn in H.
  destruct (translate_axes args shape) as [rest|e] eqn:E; [|discriminate].
  inversion H. apply Forall_cons_iff in Hv. destruct Hv as [Hva Hvr]. constructor.
  - exact (translate_axis_shape _ _ _ Hva Ea).
  - exact (IH _ _ Hvr E).
Qed.

Lemma expand_ellipsis_valid (args fargs : list index) (rank : Z) :
  Forall valid_index args ->
  _expand_ellipsis args rank = Ok fargs ->
  Forall valid_index fargs.
Proof.
  intros Hv. unfold _expand_ellipsis.
  destruct (_ >? 1); [discriminate|].
  match goal with
  | |- context [flat_map ?f ?l] =>
      assert (Hf : Forall valid_index (flat_map f l)); [|destruct (_ >? rank)]
  end.
  - apply Forall_flat_map.
    assert (Hl : Forall valid_index
                   (if (len (filter is_Ellipsis args) =? 0) && negb (len args =? rank)
                    then args ++ [Ellipsis] else args)).
    { destruct (_ && _); [|exact Hv].
      apply Forall_app. split; [exact Hv|]. constructor; [exact I|constructor]. }
    eapply Forall_impl; [|exact Hl].
    intros a Ha. unfold expand_arg. destruct (is_Ellipsis a).
    + apply Forall_forall. intros x Hx. apply repeat_spec in Hx. subst x. exact I.
    + constructor; [exact Ha|constructor].
  - discriminate.
  - intros H. inversion H. subst. exact Hf.
Qed.

(** ** Invariants of a regular selection *)

Lemma init_consistent (shape : list Z) (h : heap) :
  consistent (fst (SimpleSelection.init shape None h)).
Proof.
  unfold SimpleSelection.init, consistent. cbn.
  unfold tuple_repeat, len. rewrite !repeat_length, Nat2Z.id. repeat split.
Qed.

Lemma init_positive_blocks (shape : list Z) (h : heap) :
  Forall (fun d => 0 <= d) shape ->
  positive_blocks (fst (SimpleSelection.init shape None h)).
Proof.
  intros Hs. unfold SimpleSelection.init, positive_blocks, sel_count. cbn.
  split; [exact Hs|].
  apply Forall_forall. intros x Hx. apply repeat_spec in Hx. lia.
Qed.

Lemma getitem_consistent (self sel' : SimpleSelection.t) (args : pyarg) (h h' : heap) :
  consistent self ->
  SimpleSelection.getitem self args h = Ok (sel', h') ->
  consistent sel'.
Proof.
  intros Hc. unfold SimpleSelection.getitem.
  destruct (SimpleSelection.shape self).
  - destruct (as_tuple args) as [|a0 rest].
    + intros H. inversion H. subst. exact Hc.
    + destruct (negb _); [discriminate|]. intros H. inversion H. subst. exact Hc.
  - unfold _handle_simple.
    destruct (_expand_ellipsis _ _) as [fargs|e]; [|discriminate]. cbn [bind].
    destruct (translate_axes fargs _) as [axes|e]; [|discriminate]. cbn [bind].
    intros H. inversion H. unfold consistent. cbn.
    rewrite !length_map. repeat split.
Qed.

Lemma getitem_positive_blocks (self sel' : SimpleSelection.t) (args : pyarg)
    (h h' : heap) :
  positive_blocks self ->
  Forall valid_index (as_tuple args) ->
  SimpleSelection.getitem self args h = Ok (sel', h') ->
  positive_blocks sel'.
Proof.
  intros Hp Hv. unfold SimpleSelection.getitem.
  destruct (SimpleSelection.shape self).
  - destruct (as_tuple args) as [|a0 rest].
    + intros H. inversion H. subst. exact Hp.
    + destruct (negb _); [discriminate|]. intros H. inversion H. subst. exact Hp.
  - unfold _handle_simple.
    destruct (_expand_ellipsis _ _) as [fargs|e] eqn:Ee; [|discriminate]. cbn [bind].
    destruct (translate_axes fargs _) as [axes|e] eqn:Et; [|discriminate]. cbn [bind].
    intros H. inversion H. unfold positive_blocks, sel_count. cbn.
    assert (Hf : Forall valid_index fargs).
    { apply (expand_ellipsis_valid _ _ _ Hv Ee). }
    assert (Ha := translate_axes_shape _ _ _ Hf Et).
    split; apply Forall_map; eapply Forall_impl; try exact Ha; cbn; tauto.
Qed.

(** ** Pass-through selections *)

(** C10.  For a base selection, [broadcast(source_shape)] raises when
    [product(source_shape)] differs from the number of selected points, and
    otherwise yields the committed region, and nothing else, once: the run
    ends after that one yield and leaves every descriptor as it was. *)
Theorem passthrough_broadcast (self : Selection.t) (source_shape : list Z) (h : heap) :
  (product source_shape <> Selection.nselect self h ->
   Selection.broadcast self source_shape h = Throw (TypeError PointwiseBroadcast))
  /\ (product source_shape = Selection.nselect self h ->
      Selection.broadcast self source_shape h
      = Yield (Selection._id self) (deref h (Selection._id self)) (Stop h)
      /\ yields (Selection.broadcast self source_shape h)
         = [(Selection._id self, deref h (Selection._id self))]
      /\ outcome (Selection.broadcast self source_shape h) = Ok h).
Proof.
  unfold Selection.broadcast. split; intros Hp.
  - destruct (product source_shape =? Selection.nselect self h) eqn:E; [lia|].
    reflexivity.
  - destruct (product source_shape =? Selection.nselect self h) eqn:E; [|lia].
    repeat split.
Qed.

(** A selection adopted from a region of 3 points accepts the source shape
    (3, 1), whose product is 3, and refuses (2, 2). *)
Lemma passthrough_broadcast_witness :
  Selection.nselect adopted three_points = 3
  /\ product [3; 1] = Selection.nselect adopted three_points
  /\ yields (Selection.broadcast adopted [3; 1] three_points)
     = [(0%nat, deref three_points 0%nat)]
  /\ product [2; 2] <> Selection.nselect adopted three_points
  /\ Selection.broadcast adopted [2; 2] three_points
     = Throw (TypeError PointwiseBroadcast).
Proof.
  assert (Heq : product [3; 1] = Selection.nselect adopted three_points)
    by reflexivity.
  assert (Hne : product [2; 2] <> Selection.nselect adopted three_points)
    by (vm_compute; discriminate).
  split; [reflexivity|]. split; [exact Heq|].
  split; [exact (proj1 (proj2 (proj2 (passthrough_broadcast adopted [3; 1]
                                        three_points) Heq)))|].
  split; [exact Hne|].
  exact (proj1 (passthrough_broadcast adopted [2; 2] three_points) Hne).
Defined.

(** ** Scalar extents *)

(** What [__getitem__] does on a rank-0 extent: only the first entry of the
    argument tuple is inspected. *)
Lemma scalar_getitem_first_entry (self : SimpleSelection.t) (args : pyarg) (h : heap) :
  SimpleSelection.shape self = [] ->
  SimpleSelection.getitem self args h
  = match as_tuple args with
    | [] => Ok (self, modify select_all (SimpleSelection._id self) h)
    | a0 :: _ =>
        if SimpleSelection.in_ellipsis_or_unit a0
        then Ok (self, modify select_all (SimpleSelection._id self) h)
        else Raise (TypeError ScalarIndex)
    end.
Proof.
  intros Hs. unfold SimpleSelection.getitem. rewrite Hs.
  destruct (as_tuple args) as [|a0 rest]; [reflexivity|].
  destruct (SimpleSelection.in_ellipsis_or_unit a0); reflexivity.
Qed.

(** The empty tuple and a lone Ellipsis select the single point of a
    scalar extent. *)
Lemma scalar_getitem_full_index :
  let '(sel, h) := scalar_selection [] in
  forall args, args = Tuple [] \/ args = Single Ellipsis ->
    exists h',
      SimpleSelection.getitem sel args h = Ok (sel, h')
      /\ selected (deref h' (SimpleSelection._id sel)) = [[]]
      /\ get_select_npoints (deref h' (SimpleSelection._id sel)) = 1.
Proof.
  cbn. intros args [-> | ->]; eexists; repeat split.
Qed.

(** C8 at the failing input.  On a scalar extent the index [(Ellipsis, 5)]
    is neither the empty tuple nor a lone Ellipsis, yet it is accepted and
    selects the whole extent: the test looks at [args[0]] only.  The index
    [5] alone is refused. *)
Theorem scalar_getitem_accepts_trailing_entries :
  let '(sel, h) := scalar_selection [] in
  SimpleSelection.shape sel = []
  /\ SimpleSelection.getitem sel (Tuple [Ellipsis; Int 5]) h
     = Ok (sel, modify select_all (SimpleSelection._id sel) h)
  /\ SimpleSelection.getitem sel (Tuple [Int 5]) h = Raise (TypeError ScalarIndex).
Proof.
  cbn. repeat split.
Qed.

(** ** guess_shape *)

(** When the per-axis counts do not multiply to the number of selected
    points, the flat shape is returned. *)
Lemma guess_shape_falls_back (sid : SpaceID) (shape : list Z) :
  sp_class sid = SIMPLE ->
  sp_type sid = SEL_HYPERSLABS ->
  get_select_npoints sid <> 0 ->
  axis_counts sid = Ok shape ->
  product shape <> get_select_npoints sid ->
  guess_shape sid = Ok (Some [get_select_npoints sid]).
Proof.
  intros Hc Ht HN Ha Hp. unfold guess_shape. rewrite Hc, Ht, Ha.
  destruct (get_select_npoints sid =? 0) eqn:E0; [lia|].
  cbn [bind].
  destruct (product shape =? get_select_npoints sid) eqn:E; [lia|].
  reflexivity.
Qed.

(** And when they do multiply to it, the per-axis shape is returned,
    whatever the region looks like. *)
Lemma guess_shape_trusts_product (sid : SpaceID) (shape : list Z) :
  sp_class sid = SIMPLE ->
  sp_type sid = SEL_HYPERSLABS ->
  get_select_npoints sid <> 0 ->
  axis_counts sid = Ok shape ->
  product shape = get_select_npoints sid ->
  guess_shape sid = Ok (Some shape).
Proof.
  intros Hc Ht HN Ha Hp. unfold guess_shape. rewrite Hc, Ht, Ha.
  destruct (get_select_npoints sid =? 0) eqn:E0; [lia|].
  cbn [bind].
  destruct (product shape =? get_select_npoints sid) eqn:E; [|lia].
  reflexivity.
Qed.

(** The union of the far-apart rectangles [0:2, 0:2] and [5:7, 5:7] has 8
    points and per-axis counts (4, 4): the flat shape (8,) is returned. *)
Example guess_shape_far_union :
  get_select_npoints far_union = 8
  /\ axis_counts far_union = Ok [4; 4]
  /\ guess_shape far_union = Ok (Some [8]).
Proof. vm_compute. repeat split. Qed.

(** C9 at the failing input.  The union of the disjoint rectangles
    [0:1, 0:2] and [1:2, 1:2] is an L-shaped region of 3 points.  The masking
    procedure counts 1 along axis 0 and 3 along axis 1; the product is 3, so
    the rectangular shape (1, 3) is returned and not the flat shape (3,). *)
Theorem guess_shape_corner_union :
  hyperslab_points [0; 0] [1; 2] [1; 1] [1; 1] = [[0; 0]; [0; 1]]
  /\ hyperslab_points [1; 1] [1; 1] [1; 1] [1; 1] = [[1; 1]]
  /\ sp_type corner_union = SEL_HYPERSLABS
  /\ selected corner_union = [[0; 0]; [0; 1]; [1; 1]]
  /\ get_select_npoints corner_union = 3
  /\ axis_counts corner_union = Ok [1; 3]
  /\ guess_shape corner_union = Ok (Some [1; 3])
  /\ guess_shape corner_union <> Ok (Some [3]).
Proof.
  vm_compute. repeat split. discriminate.
Qed.

(** ** Products, ranges and row-major positions *)

Lemma fold_left_mul (l : list Z) (a : Z) : fold_left Z.mul l a = a * product l.
Proof.
  unfold product. revert a. induction l as [|x l IH]; intros a; cbn [fold_left].
  - lia.
  - rewrite (IH (a * x)), (IH (1 * x)). lia.
Qed.

Lemma product_cons (x : Z) (l : list Z) : product (x :: l) = x * product l.
Proof. unfold product at 1. cbn [fold_left]. rewrite fold_left_mul. lia. Qed.

Lemma product_app (l1 l2 : list Z) : product (l1 ++ l2) = product l1 * product l2.
Proof.
  induction l1 as [|x l1 IH]; cbn [app].
  - change (product []) with 1. lia.
  - rewrite !product_cons, IH. lia.
Qed.

Lemma product_rev (l : list Z) : product (rev l) = product l.
Proof.
  induction l as [|x l IH]; [reflexivity|].
  cbn [rev]. rewrite product_app, IH, !product_cons.
  change (product []) with 1. lia.
Qed.

Lemma product_nonneg (l : list Z) : Forall (fun d => 0 <= d) l -> 0 <= product l.
Proof.
  induction 1 as [|x l Hx Hl IH]; [cbv; discriminate|].
  rewrite product_cons. lia.
Qed.

Lemma product_pos (l : list Z) : Forall (fun d => 0 < d) l -> 0 < product l.
Proof.
  induction 1 as [|x l Hx Hl IH]; [reflexivity|].
  rewrite product_cons. lia.
Qed.

Lemma range_length (n : Z) : length (range n) = Z.to_nat n.
Proof. unfold range. rewrite length_map, length_seq. reflexivity. Qed.

Lemma range_nth (n : Z) (i : nat) :
  (i < Z.to_nat n)%nat -> nth_error (range n) i = Some (Z.of_nat i).
Proof.
  intros Hi. unfold range. rewrite nth_error_map.
  rewrite nth_error_nth' with (d := 0%nat) by (rewrite length_seq; exact Hi).
  rewrite seq_nth by exact Hi. reflexivity.
Qed.

Lemma range_bounds (n idx : Z) : In idx (range n) -> 0 <= idx < n.
Proof.
  unfold range. intros Hin. apply in_map_iff in Hin.
  destruct Hin as (i & <- & Hi). apply in_seq in Hi. lia.
Qed.

(** The row-major position, written over the axes taken last first. *)
Lemma ravel_snoc (multi dims : list Z) (c d : Z) :
  length multi = length dims ->
  ravel (multi ++ [c]) (dims ++ [d]) = ravel multi dims * d + c.
Proof.
  revert dims. induction multi as [|x multi IH]; intros [|y dims] Hl;
    try discriminate.
  - cbn. change (product []) with 1. lia.
  - cbn [app ravel]. rewrite IH by (cbn in Hl; lia).
    rewrite product_app, product_cons. change (product []) with 1. lia.
Qed.

Lemma unravel_rev_length (rdims : list Z) (idx : Z) :
  length (unravel_rev idx rdims) = length rdims.
Proof.
  revert idx. induction rdims as [|d rdims IH]; intros idx; [reflexivity|].
  cbn. rewrite IH. reflexivity.
Qed.

Lemma unravel_rev_row_major (rdims : list Z) :
  forall idx,
    Forall (fun d => 0 < d) rdims ->
    0 <= idx < product rdims ->
    Forall2 (fun c d => 0 <= c < d) (unravel_rev idx rdims) rdims
    /\ ravel (rev (unravel_rev idx rdims)) (rev rdims) = idx.
Proof.
  induction rdims as [|d rdims IH]; intros idx Hpos Hidx.
  - change (product []) with 1 in Hidx. split; [constructor|]. cbn. lia.
  - apply Forall_cons_iff in Hpos. destruct Hpos as [Hd Hpos].
    rewrite product_cons in Hidx.
    assert (Hq : 0 <= idx / d < product rdims).
    { split; [apply Z.div_pos; lia|].
      apply Z.div_lt_upper_bound; lia. }
    destruct (IH (idx / d) Hpos Hq) as [Hb Hr].
    cbn [unravel_rev rev]. split.
    + constructor; [apply Z.mod_pos_bound; lia|exact Hb].
    + rewrite ravel_snoc by (rewrite !length_rev; apply unravel_rev_length).
      rewrite Hr. rewrite (Z.div_mod idx d) at 3 by lia. lia.
Qed.

Lemma Forall2_reverse {A B} (R : A -> B -> Prop) (l1 : list A) (l2 : list B) :
  Forall2 R l1 l2 -> Forall2 R (rev l1) (rev l2).
Proof.
  induction 1 as [|x y l1 l2 Hxy Hl IH]; [constructor|].
  cbn [rev]. apply Forall2_app; [exact IH|]. constructor; [exact Hxy|constructor].
Qed.

(** [unravel_index] within bounds: every entry of the multi-index lies in
    its axis, and its row-major position (last axis fastest) is [idx]. *)
Lemma unravel_index_row_major (idx : Z) (dims : list Z) :
  Forall (fun d => 0 < d) dims ->
  0 <= idx < product dims ->
  exists multi,
    unravel_index idx dims = Ok multi
    /\ Forall2 (fun c d => 0 <= c < d) multi dims
    /\ ravel multi dims = idx.
Proof.
  intros Hpos Hidx. unfold unravel_index.
  destruct (idx <? 0) eqn:E1; [lia|].
  destruct (product dims <=? idx) eqn:E2; [lia|]. cbn [orb].
  eexists. split; [reflexivity|].
  assert (Hpos' : Forall (fun d => 0 < d) (rev dims)).
  { apply Forall_forall. intros x Hx. apply in_rev in Hx.
    rewrite Forall_forall in Hpos. exact (Hpos x Hx). }
  assert (Hidx' : 0 <= idx < product (rev dims)) by (rewrite product_rev; exact Hidx).
  destruct (unravel_rev_row_major (rev dims) idx Hpos' Hidx') as [Hb Hr].
  rewrite rev_involutive in Hr. split; [|exact Hr].
  apply Forall2_reverse in Hb. rewrite rev_involutive in Hb. exact Hb.
Qed.

Lemma chunk_offset_nth (start step chunk : list Z) (a : nat) (s d c : Z) :
  nth_error start a = Some s ->
  nth_error step a = Some d ->
  nth_error chunk a = Some c ->
  nth_error (SimpleSelection.chunk_offset start step chunk) a = Some (s + c * d).
Proof.
  revert start step chunk.
  induction a as [|a IH]; intros [|s0 start] [|d0 step] [|c0 chunk] Hs Hd Hc;
    try discriminate; cbn in *.
  - congruence.
  - exact (IH _ _ _ Hs Hd Hc).
Qed.

(** ** Descriptor objects *)

Lemma deref_last (h : heap) (v : SpaceID) : deref (h ++ [v]) (length h) = v.
Proof. unfold deref. rewrite app_nth2, Nat.sub_diag by lia. reflexivity. Qed.

Lemma store_last (h : heap) (v w : SpaceID) :
  store (h ++ [v]) (length h) w = h ++ [w].
Proof. induction h as [|x h IH]; cbn; [reflexivity|]. rewrite IH. reflexivity. Qed.

Lemma modify_last (f : SpaceID -> SpaceID) (h : heap) (v : SpaceID) :
  modify f (length h) (h ++ [v]) = h ++ [f v].
Proof. unfold modify. rewrite deref_last, store_last. reflexivity. Qed.

Lemma offset_simple_twice (s : SpaceID) (o1 o2 : list Z) :
  offset_simple (offset_simple s o1) o2 = offset_simple s o2.
Proof. reflexivity. Qed.

(** ** broadcast *)

Lemma unravel_index_in_range (idx : Z) (dims : list Z) :
  0 <= idx < product dims ->
  unravel_index idx dims = Ok (rev (unravel_rev idx (rev dims))).
Proof.
  intros Hidx. unfold unravel_index.
  destruct (idx <? 0) eqn:E1; [lia|].
  destruct (product dims <=? idx) eqn:E2; [lia|]. reflexivity.
Qed.

Lemma floordiv_zip_ok (xs : list Z) :
  forall ys,
    Forall (fun d => d <> 0) ys ->
    SimpleSelection.floordiv_zip xs ys = Ok (chunk_counts xs ys).
Proof.
  induction xs as [|x xs IH]; intros [|y ys] Hnz; try reflexivity.
  apply Forall_cons_iff in Hnz. destruct Hnz as [Hy Hnz].
  cbn [SimpleSelection.floordiv_zip]. unfold floordiv.
  destruct (y =? 0) eqn:E; [lia|]. cbn [bind].
  rewrite (IH ys Hnz). reflexivity.
Qed.

(** The loop of [broadcast] over in-range indices, run on the copy [base]
    held at the last handle: every round yields that same handle, with the
    object moved to the offset of the round. *)
Lemma broadcast_loop_yields (h : heap) (start step chunks : list Z) (idxs : list Z) :
  forall base,
    (forall idx, In idx idxs -> 0 <= idx < product chunks) ->
    yields (SimpleSelection.broadcast_loop (length h) start step chunks idxs
              (h ++ [base]))
    = map (fun idx =>
             (length h,
              offset_simple base
                (SimpleSelection.chunk_offset start step
                   (rev (unravel_rev idx (rev chunks))))))
          idxs
    /\ exists h', outcome (SimpleSelection.broadcast_loop (length h) start step
                            chunks idxs (h ++ [base])) = Ok h'.
Proof.
  induction idxs as [|idx idxs IH]; intros base Hin.
  - cbn. split; [reflexivity|]. eexists. reflexivity.
  - cbn [SimpleSelection.broadcast_loop].
    rewrite unravel_index_in_range by (apply Hin; left; reflexivity).
    rewrite modify_last, deref_last. cbn [yields outcome map].
    destruct (IH (offset_simple base
                    (SimpleSelection.chunk_offset start step
                       (rev (unravel_rev idx (rev chunks))))))
      as [Hy Ho].
    { intros i Hi. apply Hin. right. exact Hi. }
    split; [|exact Ho].
    rewrite Hy. reflexivity.
Qed.

Lemma map_fst_combine_same {A B} (l1 : list A) (l2 : list B) :
  length l1 = length l2 -> map fst (combine l1 l2) = l1.
Proof.
  revert l2. induction l1 as [|x l1 IH]; intros [|y l2] Hl; try discriminate;
    [reflexivity|].
  cbn. rewrite IH by (cbn in Hl; lia). reflexivity.
Qed.

Lemma map_snd_combine_same {A B} (l1 : list A) (l2 : list B) :
  length l1 = length l2 -> map snd (combine l1 l2) = l2.
Proof.
  revert l2. induction l1 as [|x l1 IH]; intros [|y l2] Hl; try discriminate;
    [reflexivity|].
  cbn. rewrite IH by (cbn in Hl; lia). reflexivity.
Qed.

(** Every dimension that the walk produces is 1, the axis span or the
    block length of its axis. *)
Lemma expand_axis_rule_entry (sc : bool) (m b d : Z) (src src' : list Z) :
  expand_axis_rule (sc, m, b) src = Some (d, src') ->
  d = 1 \/ d = m \/ d = b.
Proof.
  unfold expand_axis_rule. destruct sc; [intros [= <- _]; auto|].
  destruct src as [|t rest]; [intros [= <- _]; auto|].
  destruct (t =? 1) eqn:E1; [intros [= <- _]; lia|].
  destruct (m =? t) eqn:E2; [intros [= <- _]; lia|].
  destruct (b =? t) eqn:E3; [intros [= <- _]; lia|discriminate].
Qed.

Lemma expand_walk_entries (axes : list (bool * Z * Z)) :
  forall src e unused,
    expand_walk axes src = Some (e, unused) ->
    Forall2 (fun a d => d = 1 \/ d = snd (fst a) \/ d = snd a) axes e.
Proof.
  induction axes as [|[[sc m] b] axes IH]; intros src e unused H;
    cbn [expand_walk] in H.
  - inversion H. constructor.
  - destruct (expand_axis_rule (sc, m, b) src) as [[d src']|] eqn:Ed;
      [|discriminate].
    destruct (expand_walk axes src') as [[e' u']|] eqn:E; [|discriminate].
    inversion H. subst. constructor.
    + cbn. exact (expand_axis_rule_entry _ _ _ _ _ _ Ed).
    + exact (IH _ _ _ E).
Qed.

Lemma chunk_counts_nonneg (axes : list (bool * Z * Z)) :
  forall cs,
    Forall2 (fun a d => d = 1 \/ d = snd (fst a) \/ d = snd a) axes cs ->
    Forall (fun a => 0 <= snd (fst a) /\ 1 <= snd a) axes ->
    Forall (fun d => d <> 0) cs ->
    Forall (fun q => 0 <= q) (chunk_counts (map (fun a => snd (fst a)) axes) cs).
Proof.
  induction axes as [|[[sc m] b] axes IH]; intros cs H2 Hax Hnz.
  - constructor.
  - inversion H2 as [|a d axes' cs' Hd Hrest]; subst.
    apply Forall_cons_iff in Hax. destruct Hax as [[Hm Hb] Hax].
    apply Forall_cons_iff in Hnz. destruct Hnz as [Hd0 Hnz].
    cbn in Hd, Hm, Hb. unfold chunk_counts. cbn [map combine fst snd].
    constructor.
    + apply Z.div_pos; lia.
    + exact (IH _ Hrest Hax Hnz).
Qed.

Lemma product_zero (l : list Z) : In 0 l -> product l = 0.
Proof.
  induction l as [|x l IH]; intros Hin; [destruct Hin|].
  rewrite product_cons. destruct Hin as [->|Hin]; [lia|].
  rewrite (IH Hin). lia.
Qed.

Lemma positive_of_nonzero_product (l : list Z) :
  Forall (fun q => 0 <= q) l -> product l <> 0 -> Forall (fun q => 0 < q) l.
Proof.
  intros Hnn Hp. apply Forall_forall. intros x Hx.
  rewrite Forall_forall in Hnn. specialize (Hnn x Hx).
  destruct (Z.eq_dec x 0) as [->|Hne]; [|lia].
  exfalso. apply Hp. apply product_zero. exact Hx.
Qed.

Section Broadcast.

Variable self : SimpleSelection.t.
Variables source_shape chunk_shape : list Z.
Hypothesis Hwf : consistent self.
Hypothesis Hpos : positive_blocks self.
Hypothesis Hexpand : SimpleSelection.expand_shape self source_shape = Ok chunk_shape.
Hypothesis Hnz : Forall (fun d => d <> 0) chunk_shape.

Lemma mshape_nonneg : Forall (fun m => 0 <= m) (SimpleSelection.mshape self).
Proof.
  destruct Hpos as [Hc Hb]. unfold SimpleSelection.mshape, sel_count in *.
  destruct (SimpleSelection._sel self) as [[[st ct] sd] scal].
  apply Forall_forall. intros x Hx. apply in_map_iff in Hx.
  destruct Hx as ([c b] & <- & Hin).
  rewrite Forall_forall in Hc, Hb.
  assert (H1 := Hc c (in_combine_l _ _ _ _ Hin)).
  assert (H2 := Hb b (in_combine_r _ _ _ _ Hin)). cbn in H1, H2. nia.
Qed.

(** The chunk counts of a selection that the class built are not negative. *)
Lemma broadcast_chunks_nonneg :
  Forall (fun q => 0 <= q) (chunk_counts (SimpleSelection.mshape self) chunk_shape).
Proof.
  assert (Hspec := expand_shape_is_spec self source_shape Hwf).
  rewrite Hexpand in Hspec. unfold expand_shape_spec in Hspec.
  set (axes := combine (combine (sel_scalar self) (SimpleSelection.mshape self))
                       (SimpleSelection._block_shape self)) in *.
  destruct (expand_walk (rev axes) (rev source_shape)) as [[e u]|] eqn:Ew;
    [|discriminate].
  destruct (existsb _ u); [discriminate|].
  injection Hspec as Hcs.
  apply expand_walk_entries in Ew. apply Forall2_reverse in Ew.
  rewrite rev_involutive, <- Hcs in Ew.
  assert (Hls : length (sel_scalar self) = length (SimpleSelection.mshape self)).
  { rewrite (mshape_length self Hwf). unfold sel_scalar, sel_count, consistent in *.
    destruct (SimpleSelection._sel self) as [[[st ct] sd] scal]. lia. }
  assert (Hlb : length (SimpleSelection._block_shape self)
                = length (SimpleSelection.mshape self)).
  { rewrite (mshape_length self Hwf). unfold sel_count, consistent in *.
    destruct (SimpleSelection._sel self) as [[[st ct] sd] scal]. lia. }
  assert (Hm : map (fun a : bool * Z * Z => snd (fst a)) axes
               = SimpleSelection.mshape self).
  { unfold axes. rewrite <- (map_map fst snd).
    rewrite map_fst_combine_same by (rewrite length_combine; lia).
    apply map_snd_combine_same. exact Hls. }
  rewrite <- Hm. apply chunk_counts_nonneg; [exact Ew| |exact Hnz].
  apply Forall_forall. intros [[sc m] b] Hin. cbn.
  assert (Hin1 := in_combine_l _ _ _ _ Hin).
  assert (Hin2 := in_combine_r _ _ _ _ Hin).
  apply in_combine_r in Hin1.
  assert (Hmn := mshape_nonneg). rewrite Forall_forall in Hmn.
  destruct Hpos as [_ Hb]. rewrite Forall_forall in Hb.
  split; [exact (Hmn m Hin1)|exact (Hb b Hin2)].
Qed.

End Broadcast.

(** C2 (as amended).  For a regular selection built by the class over an
    extent of rank at least 1, and a source shape that [expand_shape] accepts
    with no zero entry: with [chunks[a] = mshape[a] / chunk_shape[a]] and
    [nchunks] their product, [broadcast] yields exactly [nchunks] descriptors
    and then ends.  When [nchunks = 1] the one descriptor is the committed
    region itself, untouched.  Otherwise every yield hands out the same fresh
    copy, re-described as one chunk-shaped block, and at the [i]-th yield it
    sits at [offset[a] = start[a] + chunk_index[a] * stride[a]], where
    [chunk_index] is the multi-index of [i] over [chunks], the last axis
    varying fastest. *)
Theorem broadcast_chunks (self : SimpleSelection.t)
    (source_shape chunk_shape : list Z) (h : heap) :
  consistent self ->
  positive_blocks self ->
  SimpleSelection.shape self <> [] ->
  SimpleSelection.expand_shape self source_shape = Ok chunk_shape ->
  Forall (fun d => d <> 0) chunk_shape ->
  let chunks := chunk_counts (SimpleSelection.mshape self) chunk_shape in
  let nchunks := product chunks in
  let rank := len (SimpleSelection.mshape self) in
  let t := SimpleSelection.broadcast self source_shape h in
  let chunk :=
    select_hyperslab (deref h (SimpleSelection._id self))
      (tuple_repeat 0 rank) (tuple_repeat 1 rank)
      (Some (sel_stride self)) (Some chunk_shape) SELECT_SET in
  0 <= nchunks
  /\ length (yields t) = Z.to_nat nchunks
  /\ (exists h', outcome t = Ok h')
  /\ (nchunks = 1 ->
      t = Yield (SimpleSelection._id self) (deref h (SimpleSelection._id self))
                (Stop h))
  /\ (nchunks <> 1 ->
      forall i, (i < Z.to_nat nchunks)%nat ->
        exists chunk_index,
          unravel_index (Z.of_nat i) chunks = Ok chunk_index
          /\ Forall2 (fun c d => 0 <= c < d) chunk_index chunks
          /\ ravel chunk_index chunks = Z.of_nat i
          /\ nth_error (yields t) i
             = Some (fst (copy (SimpleSelection._id self) h),
                     offset_simple chunk
                       (SimpleSelection.chunk_offset (sel_start self)
                          (sel_stride self) chunk_index))).
Proof.
  intros Hwf Hpos Hrank Hexpand Hnz chunks nchunks rank t chunk.
  assert (Hnn : Forall (fun q => 0 <= q) chunks)
    by exact (broadcast_chunks_nonneg self source_shape chunk_shape
                Hwf Hpos Hexpand Hnz).
  assert (Hn0 : 0 <= nchunks) by (apply product_nonneg; exact Hnn).
  assert (Ht : t = if nchunks =? 1
                   then Yield (SimpleSelection._id self)
                              (deref h (SimpleSelection._id self)) (Stop h)
                   else SimpleSelection.broadcast_loop (length h)
                          (sel_start self) (sel_stride self) chunks
                          (range nchunks) (h ++ [chunk])).
  { unfold t, SimpleSelection.broadcast.
    destruct (SimpleSelection.shape self) as [|d0 ds]; [contradiction Hrank; reflexivity|].
    unfold sel_start, sel_stride, chunk, rank, sel_stride.
    destruct (SimpleSelection._sel self) as [[[st ct] sd] scal] eqn:Esel.
    rewrite Hexpand, (floordiv_zip_ok _ _ Hnz).
    fold chunks. fold nchunks.
    destruct (nchunks =? 1); [reflexivity|].
    unfold copy, alloc. rewrite modify_last. reflexivity. }
  split; [exact Hn0|].
  destruct (broadcast_loop_yields h (sel_start self) (sel_stride self) chunks
              (range nchunks) chunk (range_bounds nchunks)) as [Hy Ho].
  destruct (nchunks =? 1) eqn:E1.
  - apply Z.eqb_eq in E1. rewrite Ht, E1.
    split; [reflexivity|]. split; [eexists; reflexivity|].
    split; [reflexivity|]. intros Hne. contradiction Hne; reflexivity.
  - apply Z.eqb_neq in E1. rewrite Ht.
    split; [rewrite Hy, length_map; apply range_length|].
    split; [exact Ho|].
    split; [intros He; contradiction|].
    intros _ i Hi.
    assert (Hidx : 0 <= Z.of_nat i < product chunks) by (fold nchunks; lia).
    assert (Hposc : Forall (fun q => 0 < q) chunks).
    { apply positive_of_nonzero_product; [exact Hnn|]. fold nchunks. lia. }
    destruct (unravel_index_row_major (Z.of_nat i) chunks Hposc Hidx)
      as (multi & Hu & Hb & Hr).
    exists multi. split; [exact Hu|]. split; [exact Hb|]. split; [exact Hr|].
    rewrite Hy, nth_error_map, (range_nth _ _ Hi). cbn [option_map].
    rewrite (unravel_index_in_range _ _ Hidx) in Hu. injection Hu as <-.
    reflexivity.
Qed.

(** The example of C2: shape (10, 5) indexed [:, :] has mshape (10, 5);
    against the source shape (5,) the chunk shape is (1, 5) and [broadcast]
    yields 10 descriptors, each a region of 5 points whose bounding box
    spans one row and five columns. *)
Lemma broadcast_chunks_witness :
  exists sel h,
    index_whole_matrix [] = Ok (sel, h)
    /\ SimpleSelection.mshape sel = [10; 5]
    /\ consistent sel /\ positive_blocks sel
    /\ SimpleSelection.shape sel <> []
    /\ SimpleSelection.expand_shape sel [5] = Ok [1; 5]
    /\ Forall (fun d => d <> 0) [1; 5]
    /\ length (yields (SimpleSelection.broadcast sel [5] h)) = 10%nat
    /\ Forall (fun y => get_select_npoints (snd y) = 5
                        /\ map (fun '(t, b) => t - b + 1)
                               (combine (snd (get_select_bounds (snd y)))
                                        (fst (get_select_bounds (snd y))))
                           = [1; 5])
              (yields (SimpleSelection.broadcast sel [5] h)).
Proof.
  eexists. eexists. split; [vm_compute; reflexivity|].
  split; [reflexivity|].
  match goal with
  | |- consistent ?s /\ _ =>
      assert (Hc : consistent s) by (repeat split);
      assert (Hp : positive_blocks s)
        by (split; repeat constructor; cbv; discriminate);
      assert (Hr : SimpleSelection.shape s <> []) by discriminate;
      assert (He : SimpleSelection.expand_shape s [5] = Ok [1; 5]) by reflexivity
  end.
  assert (Hz : Forall (fun d => d <> 0) [1; 5])
    by (repeat constructor; discriminate).
  split; [exact Hc|]. split; [exact Hp|]. split; [exact Hr|].
  split; [exact He|]. split; [exact Hz|].
  split.
  - exact (proj1 (proj2 (broadcast_chunks _ [5] [1; 5] _ Hc Hp Hr He Hz))).
  - vm_compute. repeat constructor.
Defined.

(** C2 as stated fails on a rank-0 extent: the source shape (0,) passes
    [expand_shape], the product of the (empty) chunk counts is 1, and
    [broadcast] raises instead of yielding the committed region. *)
Lemma broadcast_scalar_counterexample :
  ~ (forall self source_shape chunk_shape h,
        consistent self -> positive_blocks self ->
        SimpleSelection.expand_shape self source_shape = Ok chunk_shape ->
        length (yields (SimpleSelection.broadcast self source_shape h))
        = Z.to_nat (product (chunk_counts (SimpleSelection.mshape self) chunk_shape))).
Proof.
  intros H.
  specialize (H (fst (scalar_selection [])) [0] [] (snd (scalar_selection []))).
  assert (Hb : SimpleSelection.broadcast (fst (scalar_selection [])) [0]
                 (snd (scalar_selection []))
               = Throw (TypeError (CantBroadcastScalar [0]))) by reflexivity.
  rewrite Hb in H. cbn in H.
  assert (Hlen : 0%nat = 1%nat); [|discriminate Hlen].
  apply H.
  - repeat split.
  - split; constructor.
  - reflexivity.
Qed.

(** A zero entry in the chunk shape, reached by an empty selection and a
    matching empty source, makes the division by the chunk shape raise. *)
Example broadcast_empty_chunk :
  exists sel h,
    (let '(sel0, h0) := SimpleSelection.init [10] None [] in
     SimpleSelection.getitem sel0
       (Single (Slice (mkslice (Some 0) (Some 0) None))) h0) = Ok (sel, h)
    /\ SimpleSelection.mshape sel = [0]
    /\ SimpleSelection.expand_shape sel [0] = Ok [0]
    /\ SimpleSelection.broadcast sel [0] h = Throw ZeroDivisionError.
Proof.
  eexists. eexists. split; [vm_compute; reflexivity|]. repeat split.
Qed.

(** On a rank-0 extent [broadcast] asks for exactly one source element and
    then yields the committed region, reset to the whole extent, once. *)
Lemma broadcast_scalar_extent (self : SimpleSelection.t) (source_shape : list Z)
    (h : heap) :
  SimpleSelection.shape self = [] ->
  (product source_shape <> 1 ->
   SimpleSelection.broadcast self source_shape h
   = Throw (TypeError (CantBroadcastScalar source_shape)))
  /\ (product source_shape = 1 ->
      SimpleSelection.broadcast self source_shape h
      = Yield (SimpleSelection._id self)
              (deref (modify select_all (SimpleSelection._id self) h)
                     (SimpleSelection._id self))
              (Stop (modify select_all (SimpleSelection._id self) h))).
Proof.
  intros Hs. unfold SimpleSelection.broadcast. rewrite Hs. split; intros Hp.
  - destruct (product source_shape =? 1) eqn:E; [lia|]. reflexivity.
  - destruct (product source_shape =? 1) eqn:E; [|lia]. reflexivity.
Qed.

(** ** Union selections: sequences *)

Lemma not_increasing_cons (x y : Z) (l : list Z) :
  not_increasing (x :: y :: l) = (x >=? y) || not_increasing (y :: l).
Proof. reflexivity. Qed.

(** The test of the code is the descent of the specification. *)
Lemma not_increasing_iff (l : list Z) :
  not_increasing l = true <-> has_descent l.
Proof.
  induction l as [|x [|y l] IH].
  - split; [cbn; discriminate|]. intros (i & a & b & Ha & _). destruct i; cbn in Ha; discriminate.
  - split; [cbn; discriminate|]. intros (i & a & b & _ & Hb & _).
    destruct i; cbn in Hb; discriminate.
  - rewrite not_increasing_cons, orb_true_iff, IH. split.
    + intros [Hxy | (i & a & b & Ha & Hb & Hab)].
      * exists 0%nat, x, y. repeat split. lia.
      * exists (S i), a, b. repeat split; assumption.
    + intros (i & a & b & Ha & Hb & Hab). destruct i as [|i].
      * left. cbn in Ha, Hb. injection Ha as <-. injection Hb as <-. lia.
      * right. exists i, a, b. repeat split; assumption.
Qed.

Lemma nonzero_from_increasing (data : list bool) :
  forall i,
    Forall (fun v => i <= v) (nonzero_from i data)
    /\ not_increasing (nonzero_from i data) = false.
Proof.
  induction data as [|b data IH]; intros i.
  - split; [constructor|reflexivity].
  - destruct (IH (i + 1)) as [Hge Hinc]. cbn [nonzero_from].
    assert (Hge' : Forall (fun v => i <= v) (nonzero_from (i + 1) data)).
    { eapply Forall_impl; [|exact Hge]. cbn. intros. lia. }
    destruct b; cbn [app]; [|split; assumption].
    split; [constructor; [lia|exact Hge']|].
    destruct (nonzero_from (i + 1) data) as [|y r] eqn:E; [reflexivity|].
    rewrite not_increasing_cons, Hinc.
    apply Forall_cons_iff in Hge. destruct Hge as [Hy _].
    destruct (i >=? y) eqn:E'; [lia|reflexivity].
Qed.

Lemma nonzero_increasing (data : list bool) : not_increasing (nonzero data) = false.
Proof. exact (proj2 (nonzero_from_increasing data 0)). Qed.

(** What the first loop does with one argument. *)
Lemma collect_step_plain (d : dict) (idx : nat) (a : index) :
  plain a -> FancySelection.collect_step d (idx, a) = Ok d.
Proof. destruct a; intros []; reflexivity. Qed.

Lemma collect_step_sequence (d : dict) (idx : nat) (a : index) (l : list Z) :
  sequence_values a = Some l ->
  FancySelection.collect_step d (idx, a)
  = if not_increasing l then Raise (TypeError NotIncreasing)
    else Ok (dict_set d idx l).
Proof.
  destruct a as [i|s|m| |l'|l'|sh data]; try discriminate.
  - intros [= <-]. reflexivity.
  - intros [= <-]. reflexivity.
  - destruct sh as [|n [|n' sh]]; try discriminate.
    intros [= <-]. reflexivity.
Qed.

(** Any argument either makes the loop raise the increasing-order error,
    or is passed without one and then holds no descending sequence. *)
Lemma collect_step_cases (d : dict) (idx : nat) (a : index) :
  one_dimensional a ->
  FancySelection.collect_step d (idx, a) = Raise (TypeError NotIncreasing)
  \/ (exists d', FancySelection.collect_step d (idx, a) = Ok d')
     /\ ~ (exists l, sequence_values a = Some l /\ has_descent l).
Proof.
  intros H1d.
  destruct (sequence_values a) as [l|] eqn:Es.
  - rewrite (collect_step_sequence d idx a l Es).
    destruct (not_increasing l) eqn:En; [left; reflexivity|].
    right. split; [eexists; reflexivity|].
    intros (l' & [= <-] & Hd). apply not_increasing_iff in Hd. congruence.
  - right. split; [|intros (l & Hl & _); discriminate].
    destruct a as [i|s|m| |l'|l'|sh data]; try discriminate;
      try (eexists; reflexivity).
    cbn in H1d. cbn [FancySelection.collect_step].
    destruct (len sh =? 1) eqn:E; [|lia]. cbn [negb bind].
    eexists. cbn. rewrite nonzero_increasing. reflexivity.
Qed.

Lemma collect_raises_on_descent (l : list index) :
  forall (k : nat) (d : dict),
    Forall one_dimensional l ->
    Exists (fun a => exists v, sequence_values a = Some v /\ has_descent v) l ->
    foldM FancySelection.collect_step (combine (seq k (length l)) l) d
    = Raise (TypeError NotIncreasing).
Proof.
  induction l as [|a l IH]; intros k d H1d Hex.
  - inversion Hex.
  - apply Forall_cons_iff in H1d. destruct H1d as [Ha Hl].
    cbn [length seq combine foldM].
    destruct (collect_step_cases d k a Ha) as [Hr | [(d' & Hok) Hnot]].
    + rewrite Hr. reflexivity.
    + rewrite Hok. cbn [bind]. apply IH; [exact Hl|].
      apply Exists_cons in Hex. destruct Hex as [Hbad|Hex]; [contradiction|exact Hex].
Qed.

(** C6.  When the index is well formed for the rank (ellipsis expansion
    succeeds) and its boolean arrays are 1-D, a sequence argument with some
    adjacent pair [first >= second] (a decrease or a duplicate) makes
    [__getitem__] raise the increasing-order [TypeError]. *)
Theorem fancy_rejects_descent (self : FancySelection.t) (args : pyarg) (h : heap)
    (final_args : list index) :
  _expand_ellipsis (as_tuple args) (len (FancySelection.shape self)) = Ok final_args ->
  Forall one_dimensional final_args ->
  Exists (fun a => exists v, sequence_values a = Some v /\ has_descent v) final_args ->
  FancySelection.getitem self args h = Raise (TypeError NotIncreasing).
Proof.
  intros He H1d Hex. unfold FancySelection.getitem. rewrite He. cbn [bind].
  unfold FancySelection.enumerate.
  rewrite (collect_raises_on_descent final_args 0 [] H1d Hex). reflexivity.
Qed.

(** The example of C6: the index ([3, 1], :) on shape (10, 10). *)
Lemma fancy_rejects_descent_witness :
  _expand_ellipsis (as_tuple (Tuple [IntList [3; 1]; full_slice]))
    (len (FancySelection.shape (fst (FancySelection.init [10; 10] None []))))
  = Ok [IntList [3; 1]; full_slice]
  /\ Forall one_dimensional [IntList [3; 1]; full_slice]
  /\ Exists (fun a => exists v, sequence_values a = Some v /\ has_descent v)
            [IntList [3; 1]; full_slice]
  /\ index_rows (IntList [3; 1]) [] = Raise (TypeError NotIncreasing).
Proof.
  assert (He : _expand_ellipsis (as_tuple (Tuple [IntList [3; 1]; full_slice]))
                 (len (FancySelection.shape (fst (FancySelection.init [10; 10] None []))))
               = Ok [IntList [3; 1]; full_slice]) by reflexivity.
  assert (H1 : Forall one_dimensional [IntList [3; 1]; full_slice])
    by (repeat constructor).
  assert (Hex : Exists (fun a => exists v, sequence_values a = Some v /\ has_descent v)
                       [IntList [3; 1]; full_slice]).
  { left. exists [3; 1]. split; [reflexivity|].
    exists 0%nat, 3, 1. repeat split. lia. }
  split; [exact He|]. split; [exact H1|]. split; [exact Hex|].
  exact (fancy_rejects_descent (fst (FancySelection.init [10; 10] None []))
           (Tuple [IntList [3; 1]; full_slice])
           (snd (FancySelection.init [10; 10] None [])) _ He H1 Hex).
Defined.

(** Duplicates count as well: the index ([2, 2], :) is refused. *)
Example fancy_rejects_duplicates :
  index_rows (IntList [2; 2]) [] = Raise (TypeError NotIncreasing).
Proof. reflexivity. Qed.

(** ** Union selections: the shape *)

Lemma plain_no_ellipsis (l : list index) : Forall plain l -> ~ In Ellipsis l.
Proof.
  intros Hp Hin. rewrite Forall_forall in Hp. exact (Hp Ellipsis Hin).
Qed.

Lemma collect_plain (l : list index) :
  forall (k : nat) (d : dict),
    Forall plain l ->
    foldM FancySelection.collect_step (combine (seq k (length l)) l) d = Ok d.
Proof.
  induction l as [|b l IH]; intros k d Hp; [reflexivity|].
  apply Forall_cons_iff in Hp. destruct Hp as [Hb Hl].
  cbn [length seq combine foldM]. rewrite (collect_step_plain d k b Hb).
  cbn [bind]. exact (IH (S k) d Hl).
Qed.

(** With one increasing sequence among plain arguments, the first loop
    records exactly that sequence at its position. *)
Lemma collect_sequence_axis (a : index) (l : list Z) (post : list index)
    (pre : list index) :
  forall (k : nat) (d : dict),
    Forall plain pre -> Forall plain post ->
    sequence_values a = Some l -> not_increasing l = false ->
    foldM FancySelection.collect_step
          (combine (seq k (length (pre ++ a :: post))) (pre ++ a :: post)) d
    = Ok (dict_set d (k + length pre) l).
Proof.
  induction pre as [|b pre IH]; intros k d Hpre Hpost Hs Hinc.
  - cbn [app length seq combine foldM].
    rewrite (collect_step_sequence d k a l Hs), Hinc. cbn [bind].
    rewrite (collect_plain post (S k) _ Hpost). rewrite Nat.add_0_r. reflexivity.
  - apply Forall_cons_iff in Hpre. destruct Hpre as [Hb Hpre].
    cbn [app length seq combine foldM]. rewrite (collect_step_plain d k b Hb).
    cbn [bind]. rewrite (IH (S k) d Hpre Hpost Hs Hinc).
    rewrite Nat.add_succ_r. reflexivity.
Qed.

Lemma list_set_middle {A} (pre post : list A) (a v : A) :
  list_set (pre ++ a :: post) (length pre) v = pre ++ v :: post.
Proof.
  induction pre as [|b pre IH]; [reflexivity|]. cbn. rewrite IH. reflexivity.
Qed.

Lemma translate_axes_app (v : index) (n : Z) (post : list index) (sq : list Z)
    (pre : list index) :
  forall sp,
    length sp = length pre ->
    translate_axes (pre ++ v :: post) (sp ++ n :: sq)
    = (pa <- translate_axes pre sp ;;
       va <- translate_axis v n ;;
       qa <- translate_axes post sq ;;
       Ok (pa ++ va :: qa)).
Proof.
  induction pre as [|b pre IH]; intros [|m sp] Hl; try discriminate.
  - cbn [app translate_axes bind]. reflexivity.
  - cbn [app translate_axes]. rewrite IH by (cbn in Hl; lia).
    destruct (translate_axis b m); [|reflexivity]. cbn [bind].
    destruct (translate_axes pre sp); [|reflexivity]. cbn [bind].
    destruct (translate_axis v n); [|reflexivity]. cbn [bind].
    destruct (translate_axes post sq); reflexivity.
Qed.

Lemma handle_simple_plain (shape : list Z) (vector : list index) :
  Forall plain vector ->
  length vector = length shape ->
  _handle_simple shape vector
  = (l <- translate_axes vector shape ;; Ok (simple_of_axes l)).
Proof.
  intros Hp Hl. unfold _handle_simple.
  rewrite (expand_ellipsis_none (len shape) vector (plain_no_ellipsis _ Hp)).
  unfold len. rewrite Hl, Z.eqb_refl. reflexivity.
Qed.

Lemma translate_empty_slice (n : Z) :
  0 <= n -> translate_axis empty_slice n = Ok (mkaxis 0 0 1 1 false).
Proof.
  intros Hn. unfold empty_slice, translate_axis, _translate_slice, slice_indices.
  cbn [slice_step sl_step sl_start sl_stop Z.eqb Z.ltb Z.compare].
  destruct (n <? 0) eqn:E; [lia|]. unfold clamp_bound.
  cbn [Z.ltb Z.compare].
  destruct (0 >? n) eqn:E2; [lia|]. reflexivity.
Qed.

(** The loop that ORs the argument vectors leaves the translation of one
    of them bound. *)
Lemma or_fold_last (self : FancySelection.t) (vs : list (list index)) :
  forall st last h',
    vs <> [] ->
    foldM (FancySelection.or_step self) vs st = Ok (last, h') ->
    exists v s,
      In v vs /\ _handle_simple (FancySelection.shape self) v = Ok s
      /\ last = Some s.
Proof.
  induction vs as [|v vs IH]; intros st last h' Hne H; [contradiction Hne; reflexivity|].
  cbn [foldM] in H. unfold FancySelection.or_step at 1 in H.
  destruct st as [prev h0].
  destruct (_handle_simple (FancySelection.shape self) v) as [s|e] eqn:Es;
    [|discriminate]. cbn [bind] in H.
  destruct vs as [|v' vs'].
  - cbn [foldM] in H. injection H as <- _.
    exists v, s. split; [left; reflexivity|]. split; [exact Es|reflexivity].
  - destruct (IH _ _ _ ltac:(discriminate) H) as (w & s' & Hin & Hw & Hlast).
    exists w, s'. split; [right; exact Hin|]. split; assumption.
Qed.

(** The marking of the axes, read off the translated axes. *)
Lemma mark_axes_lookup (F : nat -> Z -> bool -> Z) (axes : list axis) :
  forall pref : list axis,
    map (fun '(idx, c) =>
           F idx c (nth idx (map a_scalar (pref ++ axes)) false))
        (combine (seq (length pref) (length (map a_count axes))) (map a_count axes))
    = map (fun '(idx, a) => F idx (a_count a) (a_scalar a))
          (combine (seq (length pref) (length axes)) axes).
Proof.
  induction axes as [|a axes IH]; intros pref; [reflexivity|].
  cbn [map length seq combine]. f_equal.
  - rewrite map_app, app_nth2 by (rewrite length_map; lia).
    rewrite length_map, Nat.sub_diag. reflexivity.
  - specialize (IH (pref ++ [a])).
    rewrite <- app_assoc, length_app, Nat.add_1_r in IH. exact IH.
Qed.

Lemma mark_axes_after (p : nat) (v : Z) (axes : list axis) :
  forall k, (p < k)%nat ->
    map (fun '(idx, a) =>
           if (p =? idx)%nat then v
           else if a_scalar a then -1 else a_count a)
        (combine (seq k (length axes)) axes)
    = map (fun a => if a_scalar a then -1 else a_count a) axes.
Proof.
  induction axes as [|a axes IH]; intros k Hk; [reflexivity|].
  cbn [map length seq combine].
  destruct (p =? k)%nat eqn:E; [apply Nat.eqb_eq in E; lia|].
  rewrite IH by lia. reflexivity.
Qed.

Lemma mark_axes_split (v : Z) (va : axis) (qa : list axis) (pa : list axis) :
  forall k,
    map (fun '(idx, a) =>
           if (k + length pa =? idx)%nat then v
           else if a_scalar a then -1 else a_count a)
        (combine (seq k (length (pa ++ va :: qa))) (pa ++ va :: qa))
    = map (fun a => if a_scalar a then -1 else a_count a) pa
      ++ v :: map (fun a => if a_scalar a then -1 else a_count a) qa.
Proof.
  induction pa as [|a pa IH]; intros k.
  - cbn [app length seq combine map]. rewrite Nat.add_0_r, Nat.eqb_refl.
    rewrite mark_axes_after by lia. reflexivity.
  - cbn [app length seq combine map].
    destruct (k + S (length pa) =? k)%nat eqn:E; [apply Nat.eqb_eq in E; lia|].
    specialize (IH (S k)). rewrite Nat.add_succ_comm in IH.
    rewrite IH. reflexivity.
Qed.

Lemma mark_axes_single (p : nat) (l : list Z) (axes : list axis) :
  FancySelection.mark_axes [(p, l)] (map a_count axes) (map a_scalar axes)
  = map (fun '(idx, a) =>
           if (p =? idx)%nat then len l
           else if a_scalar a then -1 else a_count a)
        (combine (seq 0 (length axes)) axes).
Proof.
  unfold FancySelection.mark_axes, FancySelection.enumerate.
  pose proof (mark_axes_lookup
                (fun idx c sc => if (p =? idx)%nat then len l
                                 else if sc then -1 else c) axes []) as Hm.
  cbn [length app] in Hm. rewrite <- Hm.
  apply map_ext. intros [idx c]. cbn [dict_get].
  destruct (p =? idx)%nat; reflexivity.
Qed.

Lemma filter_marked (axes : list axis) :
  Forall (fun a => 0 <= a_count a /\ 1 <= a_block a) axes ->
  filter (fun x => x >=? 0) (map (fun a => if a_scalar a then -1 else a_count a) axes)
  = kept_counts axes.
Proof.
  unfold kept_counts. induction 1 as [|a axes [Ha _] Hax IH]; [reflexivity|].
  cbn [map filter]. destruct (a_scalar a); cbn [negb].
  - exact IH.
  - destruct (a_count a >=? 0) eqn:E; [|lia]. cbn [map]. rewrite IH. reflexivity.
Qed.

Lemma fancy_shape_of_axes (p : nat) (l : list Z) (pa qa : list axis) (va : axis) :
  length pa = p ->
  Forall (fun a => 0 <= a_count a /\ 1 <= a_block a) pa ->
  Forall (fun a => 0 <= a_count a /\ 1 <= a_block a) qa ->
  filter (fun x => x >=? 0)
         (FancySelection.mark_axes [(p, l)]
            (s_count (simple_of_axes (pa ++ va :: qa)))
            (s_scalar (simple_of_axes (pa ++ va :: qa))))
  = kept_counts pa ++ len l :: kept_counts qa.
Proof.
  intros Hp Hpa Hqa. cbn [simple_of_axes s_count s_scalar].
  rewrite mark_axes_single. subst p.
  pose proof (mark_axes_split (len l) va qa pa 0) as Hm.
  cbn [Nat.add] in Hm. rewrite Hm.
  rewrite filter_app. cbn [filter].
  assert (Hl : (len l >=? 0) = true) by (apply Z.geb_le; unfold len; lia).
  rewrite Hl, !filter_marked by assumption. reflexivity.
Qed.

Section FancyShape.

Variable self : FancySelection.t.
Variable args : pyarg.
Variable h : heap.
Variables pre post : list index.
Variable a : index.
Variable l : list Z.
Variables sp sq : list Z.
Variable n : Z.

Hypothesis Hexp :
  _expand_ellipsis (as_tuple args) (len (FancySelection.shape self))
  = Ok (pre ++ a :: post).
Hypothesis Hpre : Forall plain pre.
Hypothesis Hpost : Forall plain post.
Hypothesis Hseq : sequence_values a = Some l.
Hypothesis Hinc : ~ has_descent l.
Hypothesis Hshape : FancySelection.shape self = sp ++ n :: sq.
Hypothesis Hsp : length sp = length pre.

Lemma fancy_vectors :
  FancySelection.argvector (pre ++ a :: post) [(length pre, l)] (len l)
  = if len l >? 0
    then map (fun idx => pre ++ Int (nth idx l 0) :: post) (seq 0 (Z.to_nat (len l)))
    else [pre ++ empty_slice :: post].
Proof.
  unfold FancySelection.argvector. cbn [fold_left].
  rewrite list_set_middle. destruct (len l >? 0); [|reflexivity].
  apply map_ext. intros idx. apply list_set_middle.
Qed.

(** With one increasing sequence among plain arguments, [__getitem__] ORs
    one hyperslab per sequence value, or the one with the empty slice. *)
Lemma fancy_getitem_unfold :
  FancySelection.getitem self args h
  = ('(last, h') <-
       foldM (FancySelection.or_step self)
             (if len l >? 0
              then map (fun idx => pre ++ Int (nth idx l 0) :: post)
                       (seq 0 (Z.to_nat (len l)))
              else [pre ++ empty_slice :: post])
             (None, modify select_none (FancySelection._id self) h) ;;
     match last with
     | None => Raise UnboundLocalError
     | Some s =>
         Ok (FancySelection.mk (FancySelection._id self) (FancySelection._shape self)
               (map Z.abs (FancySelection.mark_axes [(length pre, l)]
                             (s_count s) (s_scalar s)))
               (filter (fun x => x >=? 0)
                       (FancySelection.mark_axes [(length pre, l)]
                          (s_count s) (s_scalar s))),
             h')
     end).
Proof.
  unfold FancySelection.getitem. rewrite Hexp. cbn [bind].
  unfold FancySelection.enumerate.
  assert (Hn : not_increasing l = false).
  { destruct (not_increasing l) eqn:E; [|reflexivity].
    exfalso. apply Hinc. apply not_increasing_iff. exact E. }
  rewrite (collect_sequence_axis a l post pre 0 [] Hpre Hpost Hseq Hn).
  cbn [bind dict_set Nat.add].
  change (len [(length pre, l)] >? 1) with false. cbn [forallb].
  rewrite Z.eqb_refl. cbn [andb negb].
  rewrite fancy_vectors. reflexivity.
Qed.

Lemma fancy_lengths : length sq = length post.
Proof.
  assert (Hlen := expand_ellipsis_length _ _ _ Hexp).
  rewrite Hshape in Hlen. unfold len in Hlen.
  rewrite !length_app in Hlen. cbn [length] in Hlen. lia.
Qed.

(** Translating one argument vector. *)
Lemma fancy_vector_axes (w : index) :
  plain w ->
  _handle_simple (FancySelection.shape self) (pre ++ w :: post)
  = (pa <- translate_axes pre sp ;;
     va <- translate_axis w n ;;
     qa <- translate_axes post sq ;;
     Ok (simple_of_axes (pa ++ va :: qa))).
Proof.
  intros Hw. rewrite handle_simple_plain.
  - rewrite Hshape, translate_axes_app by exact Hsp.
    destruct (translate_axes pre sp); [|reflexivity]. cbn [bind].
    destruct (translate_axis w n); [|reflexivity]. cbn [bind].
    destruct (translate_axes post sq); reflexivity.
  - apply Forall_app. split; [exact Hpre|]. constructor; assumption.
  - rewrite Hshape, !length_app. cbn [length]. rewrite fancy_lengths, Hsp.
    reflexivity.
Qed.

Lemma fancy_vector_plain (v : list index) :
  In v (if len l >? 0
        then map (fun idx => pre ++ Int (nth idx l 0) :: post)
                 (seq 0 (Z.to_nat (len l)))
        else [pre ++ empty_slice :: post]) ->
  exists w, plain w /\ v = pre ++ w :: post.
Proof.
  destruct (len l >? 0).
  - intros Hin. apply in_map_iff in Hin. destruct Hin as (idx & <- & _).
    eexists. split; [|reflexivity]. exact I.
  - intros [<-|[]]. exists empty_slice. split; [exact I|reflexivity].
Qed.

Lemma fancy_vectors_nonempty :
  (if len l >? 0
   then map (fun idx => pre ++ Int (nth idx l 0) :: post)
            (seq 0 (Z.to_nat (len l)))
   else [pre ++ empty_slice :: post]) <> [].
Proof.
  destruct (len l >? 0) eqn:E; [|discriminate].
  destruct l as [|x l']; [vm_compute in E; discriminate E|].
  unfold len. rewrite Nat2Z.id. cbn [length seq map]. discriminate.
Qed.

End FancyShape.

(** C5.  For a union selection whose (ellipsis-expanded) index is one
    increasing sequence [l] among slices, integers and strided blocks:
    whenever [__getitem__] returns, [array_shape] is the counts of the
    non-scalar axes before the sequence axis, then the length of the
    sequence, then the counts of the non-scalar axes after it: the sequence
    axis is always retained and the scalar axes are dropped.  When the
    sequence is empty, the index is that with [slice(0, 0)] in its place: if
    the other axes translate, [__getitem__] returns without error, ORs the
    one hyperslab of that index into the cleared region, and [array_shape]
    has 0 on the sequence axis. *)
Theorem fancy_array_shape (self : FancySelection.t) (args : pyarg) (h : heap)
    (pre post : list index) (a : index) (l sp sq : list Z) (n : Z) :
  _expand_ellipsis (as_tuple args) (len (FancySelection.shape self))
  = Ok (pre ++ a :: post) ->
  Forall plain pre -> Forall plain post ->
  Forall valid_index pre -> Forall valid_index post ->
  sequence_values a = Some l ->
  ~ has_descent l ->
  FancySelection.shape self = sp ++ n :: sq ->
  length sp = length pre ->
  (forall sel' h',
      FancySelection.getitem self args h = Ok (sel', h') ->
      exists pa qa,
        translate_axes pre sp = Ok pa /\ translate_axes post sq = Ok qa
        /\ FancySelection.array_shape sel'
           = kept_counts pa ++ len l :: kept_counts qa)
  /\ (l = [] -> 0 <= n ->
      forall pa qa,
        translate_axes pre sp = Ok pa -> translate_axes post sq = Ok qa ->
        exists sel' s,
          _handle_simple (FancySelection.shape self) (pre ++ empty_slice :: post)
          = Ok s
          /\ FancySelection.getitem self args h
             = Ok (sel',
                   modify (fun sid => select_hyperslab sid (s_start s) (s_count s)
                                        (Some (s_stride s)) (Some (s_block s))
                                        SELECT_OR)
                          (FancySelection._id self)
                          (modify select_none (FancySelection._id self) h))
          /\ FancySelection.array_shape sel'
             = kept_counts pa ++ 0 :: kept_counts qa).
Proof.
  intros Hexp Hpre Hpost Hvpre Hvpost Hseq Hinc Hshape Hsp.
  pose proof (fancy_getitem_unfold self args h pre post a l
                Hexp Hpre Hpost Hseq Hinc) as Hunfold.
  pose proof (fancy_vector_axes self args pre post a sp sq n
                Hexp Hpre Hpost Hshape Hsp) as Haxes.
  split.
  - intros sel' h' Hget. rewrite Hunfold in Hget.
    match type of Hget with
    | bind (foldM _ ?vs ?st) _ = _ =>
        destruct (foldM (FancySelection.or_step self) vs st)
          as [[last h'']|e] eqn:Ef; [|discriminate]
    end.
    cbn [bind] in Hget.
    destruct (or_fold_last self _ _ _ _
                (fancy_vectors_nonempty pre post a l Hseq Hinc) Ef)
      as (v & s & Hin & Hv & ->).
    destruct (fancy_vector_plain pre post l v Hin) as (w & Hw & ->).
    rewrite (Haxes w Hw) in Hv.
    destruct (translate_axes pre sp) as [pa|e] eqn:Epa; [|discriminate].
    cbn [bind] in Hv.
    destruct (translate_axis w n) as [va|e] eqn:Eva; [|discriminate].
    cbn [bind] in Hv.
    destruct (translate_axes post sq) as [qa|e] eqn:Eqa; [|discriminate].
    cbn [bind] in Hv. injection Hv as <-. injection Hget as <- _.
    exists pa, qa. split; [reflexivity|]. split; [reflexivity|].
    cbn [FancySelection.array_shape FancySelection._array_shape].
    apply fancy_shape_of_axes.
    + rewrite (translate_axes_length _ _ _ Epa), Hsp. apply Nat.min_id.
    + exact (translate_axes_shape _ _ _ Hvpre Epa).
    + exact (translate_axes_shape _ _ _ Hvpost Eqa).
  - intros Hl Hn pa qa Epa Eqa.
    assert (Hs : _handle_simple (FancySelection.shape self) (pre ++ empty_slice :: post)
                 = Ok (simple_of_axes (pa ++ mkaxis 0 0 1 1 false :: qa))).
    { rewrite (Haxes empty_slice I), Epa, (translate_empty_slice n Hn), Eqa.
      reflexivity. }
    eexists. eexists. split; [exact Hs|].
    rewrite Hunfold. subst l.
    change (len (@nil Z) >? 0) with false.
    cbn [foldM]. unfold FancySelection.or_step at 1. rewrite Hs. cbn [bind].
    split; [reflexivity|].
    cbn [FancySelection.array_shape FancySelection._array_shape].
    apply (fancy_shape_of_axes (length pre) [] pa qa).
    + rewrite (translate_axes_length _ _ _ Epa), Hsp. apply Nat.min_id.
    + exact (translate_axes_shape _ _ _ Hvpre Epa).
    + exact (translate_axes_shape _ _ _ Hvpost Eqa).
Qed.

(** The examples of C5 on shape (10, 10): the index ([], :) returns without
    error with [array_shape] (0, 10) and no point selected, and the index
    ([1, 3, 5], :) gives [array_shape] (3, 10). *)
Lemma fancy_array_shape_witness :
  _expand_ellipsis (as_tuple (Tuple [IntList []; full_slice]))
    (len (FancySelection.shape (fst fresh_rows)))
  = Ok ([] ++ IntList [] :: [full_slice])
  /\ Forall plain [full_slice]
  /\ sequence_values (IntList []) = Some []
  /\ ~ has_descent []
  /\ FancySelection.shape (fst fresh_rows) = [] ++ 10 :: [10]
  /\ (exists sel h,
         index_rows (IntList []) [] = Ok (sel, h)
         /\ FancySelection.array_shape sel = [0; 10]
         /\ get_select_npoints (deref h (FancySelection._id sel)) = 0)
  /\ (exists sel h,
         index_rows (IntList [1; 3; 5]) [] = Ok (sel, h)
         /\ FancySelection.array_shape sel = [3; 10]).
Proof.
  assert (Hplain : Forall plain [full_slice]) by (repeat constructor).
  assert (Hvalid : Forall valid_index [full_slice]) by (repeat constructor).
  assert (Hnil : forall A (P : A -> Prop), Forall P []) by (intros; constructor).
  assert (Hinc0 : ~ has_descent []).
  { intros (i & x & y & Hx & _). destruct i; discriminate Hx. }
  assert (Hinc3 : ~ has_descent [1; 3; 5]).
  { intros Hd. apply not_increasing_iff in Hd. discriminate Hd. }
  split; [reflexivity|]. split; [exact Hplain|]. split; [reflexivity|].
  split; [exact Hinc0|]. split; [reflexivity|]. split.
  - destruct (proj2 (fancy_array_shape (fst fresh_rows)
                       (Tuple [IntList []; full_slice]) (snd fresh_rows)
                       [] [full_slice] (IntList []) [] [] [10] 10
                       eq_refl (Hnil _ _) Hplain (Hnil _ _) Hvalid
                       eq_refl Hinc0 eq_refl eq_refl)
                    eq_refl ltac:(lia) [] [mkaxis 0 10 1 1 false] eq_refl eq_refl)
      as (sel' & s & Hs & Hget & Hsh).
    vm_compute in Hs. injection Hs as <-.
    pose proof Hget as Hc. vm_compute in Hc. injection Hc as Hsel.
    eexists. eexists. split; [exact Hget|]. split; [exact Hsh|].
    rewrite <- Hsel. reflexivity.
  - destruct (index_rows (IntList [1; 3; 5]) []) as [[sel hh]|e] eqn:E;
      [|vm_compute in E; discriminate E].
    destruct (proj1 (fancy_array_shape (fst fresh_rows)
                       (Tuple [IntList [1; 3; 5]; full_slice]) (snd fresh_rows)
                       [] [full_slice] (IntList [1; 3; 5]) [1; 3; 5] [] [10] 10
                       eq_refl (Hnil _ _) Hplain (Hnil _ _) Hvalid
                       eq_refl Hinc3 eq_refl eq_refl) sel hh E)
      as (pa & qa & Hpa & Hqa & Hsh).
    injection Hpa as <-. vm_compute in Hqa. injection Hqa as <-.
    exists sel, hh. split; [reflexivity|exact Hsh].
Defined.

(** * Further properties of the translation layer *)

(** ** Integers *)

(** X1.  [_translate_int] accepts exactly the indices [-length <= exp <
    length]; an accepted index selects the single element at position
    [exp mod length] (a negative index counts from the end), any other
    raises the out-of-range [ValueError], which reports the index after
    the shift of a negative one. *)
Theorem translate_int_normalises (exp length : Z) :
  _translate_int exp length
  = if (- length <=? exp) && (exp <? length)
    then Ok (exp mod length, 1, 1)
    else Raise (ValueError
                  (IndexOutOfRange (if exp <? 0 then length + exp else exp)
                                   (length - 1))).
Proof.
  unfold _translate_int. destruct (exp <? 0) eqn:En.
  - destruct ((0 <=? length + exp) && (length + exp <? length)) eqn:E; cbn [negb].
    + apply andb_true_iff in E. destruct E as [E1 E2].
      assert (H : (- length <=? exp) && (exp <? length) = true)
        by (apply andb_true_iff; lia).
      rewrite H.
      assert (Hm : exp mod length = length + exp)
        by (symmetry; apply Z.mod_unique with (q := -1); lia).
      rewrite Hm. reflexivity.
    + apply andb_false_iff in E.
      assert (H : (- length <=? exp) && (exp <? length) = false).
      { apply andb_false_iff. left. destruct E as [E|E]; lia. }
      rewrite H. reflexivity.
  - destruct ((0 <=? exp) && (exp <? length)) eqn:E; cbn [negb].
    + apply andb_true_iff in E. destruct E as [E1 E2].
      assert (H : (- length <=? exp) && (exp <? length) = true)
        by (apply andb_true_iff; lia).
      rewrite H, Z.mod_small by lia. reflexivity.
    + apply andb_false_iff in E.
      assert (H : (- length <=? exp) && (exp <? length) = false).
      { apply andb_false_iff. right. destruct E as [E|E]; lia. }
      rewrite H. reflexivity.
Qed.

(** ** Slices *)

Lemma translate_slice_cases (exp : pyslice) (L start count step : Z) :
  _translate_slice exp L = Ok (start, count, step) ->
  0 <= L /\ 1 <= slice_step exp
  /\ exists s e,
       slice_indices exp L = Ok (s, e, slice_step exp)
       /\ 0 <= s <= L /\ 0 <= e <= L
       /\ ((e < s /\ start = 0 /\ count = 0 /\ step = 1)
           \/ (s <= e /\ start = s /\ step = slice_step exp
               /\ count = 1 + (e - s - 1) / slice_step exp)).
Proof.
  intros H.
  assert (HL : 0 <= L).
  { unfold _translate_slice, slice_indices in H.
    destruct (slice_step exp =? 0); [discriminate|].
    destruct (L <? 0) eqn:E; [discriminate|lia]. }
  assert (Hs : 1 <= slice_step exp).
  { destruct (Z_lt_le_dec (slice_step exp) 1) as [Hlt|Hge]; [|exact Hge].
    rewrite (translate_slice_small_step exp L HL Hlt) in H. discriminate H. }
  split; [exact HL|]. split; [exact Hs|].
  destruct (slice_indices_positive_step exp L HL Hs) as (s & e & Hi & Hsr & Her).
  exists s, e. split; [exact Hi|]. split; [exact Hsr|]. split; [exact Her|].
  unfold _translate_slice in H. rewrite Hi in H. cbn [bind] in H.
  destruct (slice_step exp <? 1) eqn:E1; [lia|].
  destruct (e <? s) eqn:E2.
  - left. inversion H. lia.
  - right. inversion H. repeat split. lia.
Qed.

(** X2.  A translated slice selects exactly the elements that the
    built-in slice visits: with [(s, e, k) = exp.indices(L)], position [p]
    is in [range(s, e, k)] iff it is [start + i * step] for some
    [0 <= i < count] of the returned triple. *)
Theorem translate_slice_selects_range (exp : pyslice)
    (L s e k start count step : Z) :
  slice_indices exp L = Ok (s, e, k) ->
  _translate_slice exp L = Ok (start, count, step) ->
  forall p,
    range_contains s e k p = true
    <-> exists i, 0 <= i < count /\ p = start + i * step.
Proof.
  intros Hi Ht p.
  destruct (translate_slice_cases _ _ _ _ _ Ht)
    as (HL & Hk & s' & e' & Hi' & Hs & He & Hcase).
  rewrite Hi in Hi'. injection Hi' as Hs1 He1 Hk1. subst s' e' k.
  set (k := slice_step exp) in *.
  unfold range_contains. rewrite !andb_true_iff, Z.leb_le, Z.ltb_lt, Z.eqb_eq.
  destruct Hcase as [(Hlt & -> & -> & ->)|(Hle & -> & -> & ->)].
  - split; [intros [[H1 H2] _]; lia|intros (i & Hr & _); lia].
  - assert (Hq : k * ((e - s - 1) / k) <= e - s - 1)
      by (apply Z.mul_div_le; lia).
    split.
    + intros [[H1 H2] H3].
      exists ((p - s) / k).
      assert (Hp : p - s = k * ((p - s) / k))
        by (apply Z.div_exact; [lia|exact H3]).
      assert (H0 : 0 <= (p - s) / k) by (apply Z.div_pos; lia).
      assert (Hle' : (p - s) / k <= (e - s - 1) / k)
        by (apply Z.div_le_mono; lia).
      split; [lia|]. lia.
    + intros (i & [Hi0 Hi1] & ->).
      assert (Hile : i <= (e - s - 1) / k) by lia.
      assert (Hik : k * i <= k * ((e - s - 1) / k))
        by (apply Z.mul_le_mono_nonneg_l; lia).
      replace (s + i * k - s) with (i * k) by lia.
      rewrite Z.mod_mul by lia.
      split; [|reflexivity]. split; nia.
Qed.

Lemma translate_slice_selects_range_witness :
  (slice_indices (mkslice (Some 2) (Some 9) (Some 3)) 10 = Ok (2, 9, 3)
   /\ _translate_slice (mkslice (Some 2) (Some 9) (Some 3)) 10 = Ok (2, 3, 3))
  /\ forall p,
       range_contains 2 9 3 p = true <-> exists i, 0 <= i < 3 /\ p = 2 + i * 3.
Proof.
  split; [split; reflexivity|].
  apply (translate_slice_selects_range (mkslice (Some 2) (Some 9) (Some 3))
           10 2 9 3 2 3 3); reflexivity.
Defined.

(** ** Every translated axis lies inside the extent *)

Lemma translate_slice_within (s : pyslice) (L start count step : Z) :
  _translate_slice s L = Ok (start, count, step) ->
  within_extent L (mkaxis start count step 1 false).
Proof.
  intros H.
  destruct (translate_slice_cases _ _ _ _ _ H)
    as (HL & Hk & s0 & e0 & _ & Hs & He & Hcase).
  unfold within_extent. cbn [a_start a_count a_stride a_block].
  destruct Hcase as [(Hlt & -> & -> & ->)|(Hle & -> & -> & ->)].
  - repeat split; lia.
  - set (k := slice_step s) in *.
    assert (Hq : k * ((e0 - s0 - 1) / k) <= e0 - s0 - 1)
      by (apply Z.mul_div_le; lia).
    assert (Hc : -1 <= (e0 - s0 - 1) / k)
      by (apply Z.div_le_lower_bound; lia).
    split; [lia|]. split; [lia|]. split; [lia|]. split; [lia|].
    intros i j Hi Hj.
    assert (Hik : k * i <= k * ((e0 - s0 - 1) / k))
      by (apply Z.mul_le_mono_nonneg_l; lia).
    nia.
Qed.

Lemma multiblock_within (m : MultiBlockSlice) (L start count stride block : Z) :
  valid_index (MBS m) ->
  MultiBlockSlice_indices m L = Ok (start, count, stride, block) ->
  within_extent L (mkaxis start count stride block false).
Proof.
  intros (s0 & d0 & c0 & b0 & Hinit) H.
  destruct (MultiBlockSlice_init_ok _ _ _ _ _ Hinit) as (-> & Hs & Hd & Hb & Hbd & Hc).
  unfold MultiBlockSlice_indices, floordiv in H.
  cbn [mbs_start mbs_stride mbs_count mbs_block] in H.
  unfold within_extent. cbn [a_start a_count a_stride a_block].
  destruct c0 as [c|]; cbn [bind] in H.
  - destruct (s0 + b0 + (c - 1) * d0 - 1 >=? L) eqn:E; [discriminate|].
    injection H as <- <- <- <-.
    split; [lia|]. split; [lia|]. split; [lia|]. split; [lia|].
    intros i j Hi Hj. nia.
  - destruct (d0 =? 0); [discriminate|]. cbn [bind] in H.
    set (q := (L - s0 - b0) / d0) in *. clearbody q.
    destruct (q + 1 <? 1) eqn:E1; [discriminate|]. cbn [bind] in H.
    destruct (s0 + b0 + (q + 1 - 1) * d0 - 1 >=? L) eqn:E; [discriminate|].
    injection H as <- <- <- <-.
    split; [lia|]. split; [lia|]. split; [lia|]. split; [lia|].
    intros i j Hi Hj. nia.
Qed.

Lemma translate_axis_within (arg : index) (L : Z) (a : axis) :
  valid_index arg ->
  translate_axis arg L = Ok a ->
  within_extent L a.
Proof.
  intros Hv H.
  assert (Hint : forall r : result Z,
             match ('(_start, _count, _stride) <-
                      (i <- r ;; _translate_int i L) ;;
                    Ok (mkaxis _start _count _stride 1 true)) with
             | Raise (TypeError _) => Raise (TypeError (IllegalIndex arg))
             | r => r
             end = Ok a ->
             within_extent L a).
  { intros [i|e]; cbn [bind].
    - destruct (_translate_int i L) as [[[st c] sd]|e] eqn:E; cbn [bind].
      + intros H'. injection H' as <-.
        destruct (translate_int_ok _ _ _ _ _ E) as (-> & -> & Hst).
        unfold within_extent. cbn [a_start a_count a_stride a_block].
        repeat split; try lia.
      + destruct e; discriminate.
    - destruct e; discriminate. }
  destruct arg as [i|s|m| |l|l|sh data]; try exact (Hint (py_int _) H);
    try (cbn in H; discriminate H).
  - cbn in H. destruct (_translate_slice s L) as [[[st c] sd]|e] eqn:E; [|discriminate].
    cbn [bind] in H. injection H as <-. exact (translate_slice_within _ _ _ _ _ E).
  - cbn in H. unfold _translate_multi_block_slice in H.
    destruct (MultiBlockSlice_indices m L) as [[[[st c] sd] b]|e] eqn:E;
      [|discriminate].
    cbn [bind] in H. injection H as <-. exact (multiblock_within _ _ _ _ _ _ Hv E).
Qed.

Lemma translate_axes_within (args : list index) :
  forall shape axes,
    Forall valid_index args ->
    length args = length shape ->
    translate_axes args shape = Ok axes ->
    Forall2 within_extent shape axes.
Proof.
  induction args as [|arg args IH]; intros [|n shape] axes Hv Hl H;
    try discriminate Hl.
  - cbn in H. injection H as <-. constructor.
  - cbn [translate_axes] in H.
    destruct (translate_axis arg n) as [a|e] eqn:Ea; [|discriminate]. cbn [bind] in H.
    destruct (translate_axes args shape) as [rest|e] eqn:E; [|discriminate].
    cbn [bind] in H. injection H as <-.
    apply Forall_cons_iff in Hv. destruct Hv as [Hva Hvr]. constructor.
    + exact (translate_axis_within _ _ _ Hva Ea).
    + apply IH; [exact Hvr|cbn in Hl; lia|exact E].
Qed.

(** X3.  Whatever index [_handle_simple] accepts (strided blocks built by
    their constructor), the hyperslab it returns has one axis per axis of
    the extent and lies inside the extent: on every axis the start is not
    negative, the blocks do not overlap ([block <= stride]) and every
    selected position [start + i * stride + j] is a position of the
    axis. *)
Theorem handle_simple_within_extent (shape : list Z) (args : list index)
    (s : simple) :
  Forall valid_index args ->
  _handle_simple shape args = Ok s ->
  exists axes, s = simple_of_axes axes /\ Forall2 within_extent shape axes.
Proof.
  intros Hv H. unfold _handle_simple in H.
  destruct (_expand_ellipsis args (len shape)) as [fargs|e] eqn:Ee; [|discriminate].
  cbn [bind] in H.
  destruct (translate_axes fargs shape) as [axes|e] eqn:Et; [|discriminate].
  cbn [bind] in H. injection H as <-.
  exists axes. split; [reflexivity|].
  apply (translate_axes_within fargs).
  - exact (expand_ellipsis_valid _ _ _ Hv Ee).
  - pose proof (expand_ellipsis_length _ _ _ Ee) as Hl. unfold len in Hl. lia.
  - exact Et.
Qed.

Lemma handle_simple_within_extent_witness :
  (Forall valid_index [MBS (mkMBS 1 4 (Some 2) 2); Int (-1)]
   /\ _handle_simple [10; 5] [MBS (mkMBS 1 4 (Some 2) 2); Int (-1)]
      = Ok (mksimple [1; 4] [2; 1] [4; 1] [2; 1] [false; true]))
  /\ exists axes,
       mksimple [1; 4] [2; 1] [4; 1] [2; 1] [false; true] = simple_of_axes axes
       /\ Forall2 within_extent [10; 5] axes.
Proof.
  assert (Hv : Forall valid_index [MBS (mkMBS 1 4 (Some 2) 2); Int (-1)]).
  { constructor; [|constructor; [exact I|constructor]].
    exists 1, 4, (Some 2), 2. reflexivity. }
  split; [split; [exact Hv|reflexivity]|].
  apply (handle_simple_within_extent [10; 5]
           [MBS (mkMBS 1 4 (Some 2) 2); Int (-1)]); [exact Hv|reflexivity].
Defined.

(** ** Strided blocks with default parameters *)

(** X4.  [MultiBlockSlice()] with the default parameters (start 0, stride
    1, no count, block 1) is accepted by the constructor and selects the
    whole of an axis of at least one element, as [(0, L, 1, 1)]; on an
    axis without elements it raises the no-full-blocks [ValueError]. *)
Theorem multiblock_default_selects_axis (L : Z) :
  exists m,
    MultiBlockSlice_init 0 1 None 1 = Ok m
    /\ MultiBlockSlice_indices m L
       = if 1 <=? L then Ok (0, L, 1, 1)
         else Raise (ValueError (NoFullBlocks (mkrepr 0 1 None 1) L)).
Proof.
  eexists. split; [reflexivity|].
  unfold MultiBlockSlice_indices, floordiv, _repr.
  cbn [mbs_start mbs_stride mbs_count mbs_block Z.eqb bind].
  rewrite Z.div_1_r.
  replace (L - 0 - 1 + 1) with L by lia.
  destruct (1 <=? L) eqn:E.
  - destruct (L <? 1) eqn:E1; [lia|]. cbn [bind].
    destruct (0 + 1 + (L - 1) * 1 - 1 >=? L) eqn:E2; [lia|]. reflexivity.
  - destruct (L <? 1) eqn:E1; [|lia]. reflexivity.
Qed.

(** ** Ellipsis expansion composes *)

Lemma expand_arg_no_ellipsis (rank n_args : Z) (a : index) :
  ~ In Ellipsis (expand_arg rank n_args a).
Proof.
  unfold expand_arg. destruct (is_Ellipsis a) eqn:E.
  - intros Hin. apply repeat_spec in Hin. discriminate Hin.
  - intros [Hin|[]]. subst a. discriminate E.
Qed.

Lemma expand_ellipsis_plain (args final_args : list index) (rank : Z) :
  _expand_ellipsis args rank = Ok final_args -> ~ In Ellipsis final_args.
Proof.
  unfold _expand_ellipsis. destruct (_ >? 1); [discriminate|].
  destruct (_ >? rank); [discriminate|].
  intros H. injection H as <-. intros Hin.
  apply in_flat_map in Hin. destruct Hin as (a & _ & Hin).
  exact (expand_arg_no_ellipsis _ _ _ Hin).
Qed.

(** X5.  The list that [_expand_ellipsis] returns holds no Ellipsis, and
    expanding it again returns it unchanged: this is what lets a union
    selection expand its arguments once and hand every argument vector to
    [_handle_simple], which expands again. *)
Theorem expand_ellipsis_fixed_point (args final_args : list index) (rank : Z) :
  _expand_ellipsis args rank = Ok final_args ->
  ~ In Ellipsis final_args
  /\ _expand_ellipsis final_args rank = Ok final_args.
Proof.
  intros H. pose proof (expand_ellipsis_plain _ _ _ H) as Hn.
  split; [exact Hn|].
  rewrite (expand_ellipsis_none rank final_args Hn).
  rewrite (expand_ellipsis_length rank _ _ H), Z.eqb_refl. reflexivity.
Qed.

Lemma expand_ellipsis_fixed_point_witness :
  _expand_ellipsis [Ellipsis; Int 0] 3 = Ok [full_slice; full_slice; Int 0]
  /\ ~ In Ellipsis [full_slice; full_slice; Int 0]
  /\ _expand_ellipsis [full_slice; full_slice; Int 0] 3
     = Ok [full_slice; full_slice; Int 0].
Proof.
  split; [reflexivity|].
  apply (expand_ellipsis_fixed_point [Ellipsis; Int 0]). reflexivity.
Defined.

(** ** Axes that the index leaves out *)

Lemma translate_full_slice (n : Z) :
  0 <= n -> translate_axis full_slice n = Ok (whole_axis n).
Proof.
  intros Hn. unfold full_slice, translate_axis, _translate_slice, slice_indices.
  cbn [slice_step sl_step sl_start sl_stop Z.eqb Z.ltb Z.compare clamp_bound].
  destruct (n <? 0) eqn:E; [lia|]. cbn [bind].
  change (1 <? 1) with false. cbv iota. rewrite E. cbn [bind].
  rewrite Z.div_1_r. unfold whole_axis. do 2 f_equal; lia.
Qed.

Lemma translate_full_slices (sq : list Z) :
  Forall (fun n => 0 <= n) sq ->
  translate_axes (repeat full_slice (length sq)) sq = Ok (map whole_axis sq).
Proof.
  induction 1 as [|n sq Hn _ IH]; [reflexivity|].
  cbn [length repeat translate_axes map].
  rewrite (translate_full_slice n Hn). cbn [bind]. rewrite IH. reflexivity.
Qed.

Lemma translate_axes_append (post : list index) (sq : list Z) (pre : list index) :
  forall sp,
    length sp = length pre ->
    translate_axes (pre ++ post) (sp ++ sq)
    = (pa <- translate_axes pre sp ;;
       qa <- translate_axes post sq ;;
       Ok (pa ++ qa)).
Proof.
  induction pre as [|b pre IH]; intros [|m sp] Hl; try discriminate.
  - cbn [app translate_axes bind].
    destruct (translate_axes post sq); reflexivity.
  - cbn [app translate_axes]. rewrite IH by (cbn in Hl; lia).
    destruct (translate_axis b m); [|reflexivity]. cbn [bind].
    destruct (translate_axes pre sp); [|reflexivity]. cbn [bind].
    destruct (translate_axes post sq); reflexivity.
Qed.

(** X6.  An index without Ellipsis that is shorter than the rank selects
    the axes it leaves out in full: with one argument per axis of [sp] and
    the axes [sq] left over, [_handle_simple] translates the arguments
    against [sp] and gives every axis of [sq], of length [n], the
    hyperslab axis (start 0, count [n], stride 1, block 1, not scalar). *)
Theorem handle_simple_trailing_axes (args : list index) (sp sq : list Z) :
  ~ In Ellipsis args ->
  length args = length sp ->
  Forall (fun n => 0 <= n) sq ->
  _handle_simple (sp ++ sq) args
  = (axes <- translate_axes args sp ;;
     Ok (simple_of_axes (axes ++ map whole_axis sq))).
Proof.
  intros Hn Hl Hsq. unfold _handle_simple.
  assert (He : _expand_ellipsis args (len (sp ++ sq))
               = Ok (args ++ repeat full_slice (length sq))).
  { rewrite (expand_ellipsis_none _ args Hn).
    destruct (len args =? len (sp ++ sq)) eqn:E.
    - apply Z.eqb_eq in E. unfold len in E. rewrite length_app in E.
      assert (Hz : length sq = 0%nat) by lia. rewrite Hz. cbn [repeat].
      rewrite app_nil_r. reflexivity.
    - rewrite (expand_ellipsis_one _ args [] Hn (fun x => x)).
      assert (Hk : len (sp ++ sq) - (len args + len (@nil index)) = len sq).
      { rewrite len_app. unfold len. cbn [length]. lia. }
      rewrite Hk.
      destruct (len args + len (@nil index) >? len (sp ++ sq)) eqn:E'.
      + assert (Hx : len (sp ++ sq) = len sp + len sq) by apply len_app.
        rewrite Hx in E'. unfold len in E'. cbn [length] in E'.
        apply Z.gtb_lt in E'. exfalso. lia.
      + unfold tuple_repeat, len. rewrite Nat2Z.id, app_nil_r. reflexivity. }
  rewrite He. cbn [bind].
  rewrite (translate_axes_append _ _ args sp (eq_sym Hl)).
  rewrite (translate_full_slices sq Hsq).
  destruct (translate_axes args sp); reflexivity.
Qed.

Lemma handle_simple_trailing_axes_witness :
  (~ In Ellipsis [Int 1] /\ length [Int 1] = length [10]
   /\ Forall (fun n => 0 <= n) [5; 4])
  /\ _handle_simple ([10] ++ [5; 4]) [Int 1]
     = (axes <- translate_axes [Int 1] [10] ;;
        Ok (simple_of_axes (axes ++ map whole_axis [5; 4]))).
Proof.
  assert (Hn : ~ In Ellipsis [Int 1]) by (intros [H|[]]; discriminate H).
  assert (Hs : Forall (fun n => 0 <= n) [5; 4])
    by (repeat constructor; lia).
  split; [split; [exact Hn|split; [reflexivity|exact Hs]]|].
  apply (handle_simple_trailing_axes [Int 1] [10] [5; 4] Hn eq_refl Hs).
Defined.

(** ** The shapes of a regular selection *)

Lemma combine_map_same {A B C} (f : A -> B) (g : A -> C) (l : list A) :
  combine (map f l) (map g l) = map (fun x => (f x, g x)) l.
Proof. induction l as [|x l IH]; [reflexivity|]. cbn. rewrite IH. reflexivity. Qed.

Lemma drop_scalar_axes (f : axis -> Z) (axes : list axis) :
  drop_scalar (map f axes) (map a_scalar axes)
  = map f (filter (fun a => negb (a_scalar a)) axes).
Proof.
  unfold drop_scalar. induction axes as [|a axes IH]; [reflexivity|].
  cbn [map combine filter]. destruct (a_scalar a); cbn [negb].
  - exact IH.
  - cbn [map fst]. rewrite IH. reflexivity.
Qed.

(** What [__getitem__] stores, in terms of the translated axes. *)
Lemma simple_getitem_axes (self sel' : SimpleSelection.t) (args : pyarg)
    (h h' : heap) :
  SimpleSelection.shape self <> [] ->
  SimpleSelection.getitem self args h = Ok (sel', h') ->
  exists fargs axes,
    _expand_ellipsis (as_tuple args) (len (SimpleSelection.shape self)) = Ok fargs
    /\ translate_axes fargs (SimpleSelection.shape self) = Ok axes
    /\ length axes = length (SimpleSelection.shape self)
    /\ SimpleSelection._id sel' = SimpleSelection._id self
    /\ SimpleSelection._shape sel' = SimpleSelection._shape self
    /\ SimpleSelection._sel sel'
       = (map a_start axes, map a_count axes, map a_stride axes, map a_scalar axes)
    /\ SimpleSelection._block_shape sel' = map a_block axes
    /\ SimpleSelection.mshape sel' = map (fun a => a_count a * a_block a) axes
    /\ SimpleSelection.array_shape sel'
       = map (fun a => a_count a * a_block a)
             (filter (fun a => negb (a_scalar a)) axes)
    /\ h' = modify (fun sid => select_hyperslab sid (map a_start axes)
                                 (map a_count axes) (Some (map a_stride axes))
                                 (Some (map a_block axes)) SELECT_SET)
                   (SimpleSelection._id self) h.
Proof.
  intros Hs H. unfold SimpleSelection.getitem in H.
  destruct (SimpleSelection.shape self) as [|n shape] eqn:Esh; [contradiction|].
  unfold _handle_simple in *.
  destruct (_expand_ellipsis (as_tuple args) (len (n :: shape))) as [fargs|e] eqn:Ee;
    [|discriminate].
  cbn [bind] in *.
  destruct (translate_axes fargs (n :: shape)) as [axes|e] eqn:Et; [|discriminate].
  cbn [bind] in *. unfold simple_of_axes in H. injection H as <- <-.
  exists fargs, axes. split; [reflexivity|]. split; [exact Et|]. split.
  { rewrite (translate_axes_length _ _ _ Et).
    pose proof (expand_ellipsis_length _ _ _ Ee) as Hl. unfold len in Hl. lia. }
  split; [reflexivity|]. split; [reflexivity|]. split; [reflexivity|].
  split; [reflexivity|].
  assert (Hm : map (fun '(count, block) => count * block)
                   (combine (map a_count axes) (map a_block axes))
               = map (fun a => a_count a * a_block a) axes).
  { rewrite combine_map_same, map_map. reflexivity. }
  split.
  { unfold SimpleSelection.mshape.
    cbn [SimpleSelection._sel SimpleSelection._block_shape]. exact Hm. }
  split; [|reflexivity].
  unfold SimpleSelection.array_shape. cbn [SimpleSelection._array_shape].
  rewrite Hm. apply (drop_scalar_axes (fun a => a_count a * a_block a)).
Qed.

Lemma translate_axes_scalar (args : list index) :
  forall shape axes,
    translate_axes args shape = Ok axes ->
    Forall (fun a => a_scalar a = true -> a_count a * a_block a = 1) axes.
Proof.
  induction args as [|arg args IH]; intros [|n shape] axes H; cbn in H;
    try (injection H as <-; constructor).
  destruct (translate_axis arg n) as [a|e] eqn:Ea; [|discriminate]. cbn in H.
  destruct (translate_axes args shape) as [rest|e] eqn:E; [|discriminate].
  injection H as <-. constructor; [|exact (IH _ _ E)].
  intros Hsc. pose proof (translate_axis_kind _ _ _ Ea) as Hk.
  destruct arg; try (destruct Hk as (_ & -> & ->); reflexivity).
  - destruct Hk as [Hk _]. congruence.
  - congruence.
Qed.

Lemma product_drop_scalar (f : axis -> Z) (axes : list axis) :
  Forall (fun a => a_scalar a = true -> f a = 1) axes ->
  product (map f (filter (fun a => negb (a_scalar a)) axes)) = product (map f axes).
Proof.
  induction 1 as [|a axes Ha _ IH]; [reflexivity|].
  cbn [map filter]. destruct (a_scalar a) eqn:E; cbn [negb].
  - rewrite product_cons, (Ha eq_refl), IH. lia.
  - cbn [map]. rewrite !product_cons, IH. reflexivity.
Qed.

(** X7.  After [__getitem__] on an extent of rank at least 1: [mshape]
    has one entry per axis of the extent, [array_shape] is [mshape]
    without the axes that an integer index selected, and both shapes hold
    the same number of elements. *)
Theorem simple_getitem_shapes (self sel' : SimpleSelection.t) (args : pyarg)
    (h h' : heap) :
  SimpleSelection.shape self <> [] ->
  SimpleSelection.getitem self args h = Ok (sel', h') ->
  length (SimpleSelection.mshape sel') = length (SimpleSelection.shape self)
  /\ SimpleSelection.array_shape sel'
     = drop_scalar (SimpleSelection.mshape sel') (sel_scalar sel')
  /\ product (SimpleSelection.array_shape sel')
     = product (SimpleSelection.mshape sel').
Proof.
  intros Hs H.
  destruct (simple_getitem_axes _ _ _ _ _ Hs H)
    as (fargs & axes & _ & Ht & Hl & _ & _ & Hsel & _ & Hm & Ha & _).
  rewrite Hm, Ha. unfold sel_scalar. rewrite Hsel.
  split; [rewrite length_map; exact Hl|].
  split; [symmetry; apply drop_scalar_axes|].
  apply product_drop_scalar. exact (translate_axes_scalar _ _ _ Ht).
Qed.

Lemma simple_getitem_shapes_witness :
  exists sel' h',
    (SimpleSelection.shape (fst fresh_block) <> []
     /\ SimpleSelection.getitem (fst fresh_block) (Tuple [Ellipsis; Int 0])
          (snd fresh_block) = Ok (sel', h'))
    /\ length (SimpleSelection.mshape sel')
       = length (SimpleSelection.shape (fst fresh_block))
    /\ SimpleSelection.array_shape sel'
       = drop_scalar (SimpleSelection.mshape sel') (sel_scalar sel')
    /\ product (SimpleSelection.array_shape sel')
       = product (SimpleSelection.mshape sel').
Proof.
  eexists. eexists.
  assert (Hs : SimpleSelection.shape (fst fresh_block) <> []) by discriminate.
  split; [split; [exact Hs|vm_compute; reflexivity]|].
  eapply (simple_getitem_shapes (fst fresh_block) _ (Tuple [Ellipsis; Int 0])
            (snd fresh_block) _ Hs).
  vm_compute. reflexivity.
Defined.

(** ** The number of selected elements *)

Lemma length_flat_map_const {A B} (f : A -> list B) (k : nat) (l : list A) :
  (forall x, length (f x) = k) -> length (flat_map f l) = (length l * k)%nat.
Proof.
  intros Hf. induction l as [|x l IH]; [reflexivity|].
  cbn [flat_map length]. rewrite length_app, Hf, IH. reflexivity.
Qed.

Lemma axis_positions_length (s c d b : Z) :
  length (axis_positions s c d b) = (Z.to_nat c * Z.to_nat b)%nat.
Proof.
  unfold axis_positions. rewrite (length_flat_map_const _ (Z.to_nat b)).
  - rewrite range_length. reflexivity.
  - intros x. rewrite length_map, range_length. reflexivity.
Qed.

Lemma grid_length (axes : list (list Z)) :
  len (grid axes) = product (map len axes).
Proof.
  induction axes as [|ps rest IH]; [reflexivity|].
  cbn [grid map]. rewrite product_cons, <- IH. unfold len.
  rewrite (length_flat_map_const _ (length (grid rest))).
  - apply Nat2Z.inj_mul.
  - intros x. apply length_map.
Qed.

Lemma hyperslab_axes_map (axes : list axis) :
  hyperslab_axes (map a_start axes) (map a_count axes)
                 (map a_stride axes) (map a_block axes)
  = map (fun a => axis_positions (a_start a) (a_count a) (a_stride a) (a_block a))
        axes.
Proof.
  induction axes as [|a axes IH]; [reflexivity|].
  cbn [map hyperslab_axes]. rewrite IH. reflexivity.
Qed.

Lemma hyperslab_points_length (axes : list axis) :
  Forall (fun a => 0 <= a_count a /\ 1 <= a_block a) axes ->
  len (hyperslab_points (map a_start axes) (map a_count axes)
                        (map a_stride axes) (map a_block axes))
  = product (map (fun a => a_count a * a_block a) axes).
Proof.
  intros Hax. unfold hyperslab_points.
  rewrite hyperslab_axes_map, grid_length, map_map. f_equal.
  apply map_ext_Forall. eapply Forall_impl; [|exact Hax].
  intros a [Hc Hb]. unfold len. rewrite axis_positions_length.
  rewrite Nat2Z.inj_mul, !Z2Nat.id by lia. reflexivity.
Qed.

Lemma npoints_with_hyperslabs (sid : SpaceID) (pts : list coord) :
  get_select_npoints (with_hyperslabs sid pts) = len pts.
Proof. destruct pts; reflexivity. Qed.

Lemma simple_init_fresh (shape : list Z) (h : heap) :
  SimpleSelection.init shape None h
  = (SimpleSelection.mk (length h) shape
       (tuple_repeat 0 (len shape), shape, tuple_repeat 1 (len shape),
        tuple_repeat false (len shape))
       shape (tuple_repeat 1 (len shape)),
     h ++ [select_all (create_simple shape)]).
Proof.
  unfold SimpleSelection.init, Selection.init, alloc.
  rewrite modify_last. reflexivity.
Qed.

(** X8.  For a regular selection created over [shape] and indexed once
    (strided blocks being constructor-built), the number of elements that
    the region descriptor reports selected is the product of [mshape], on
    a scalar extent as well. *)
Theorem simple_nselect_is_product (shape : list Z) (args : pyarg)
    (h h0 h' : heap) (sel sel' : SimpleSelection.t) :
  Forall valid_index (as_tuple args) ->
  SimpleSelection.init shape None h = (sel, h0) ->
  SimpleSelection.getitem sel args h0 = Ok (sel', h') ->
  simple_nselect sel' h' = product (SimpleSelection.mshape sel').
Proof.
  intros Hv Hinit Hget. rewrite simple_init_fresh in Hinit.
  injection Hinit as <- <-.
  destruct shape as [|n shape].
  - unfold SimpleSelection.getitem in Hget.
    cbn [SimpleSelection.shape SimpleSelection._shape SimpleSelection._id] in Hget.
    rewrite modify_last in Hget.
    assert (Hr : (sel', h')
                 = (SimpleSelection.mk (length h) []
                      (tuple_repeat 0 (len (@nil Z)), [], tuple_repeat 1 (len (@nil Z)),
                       tuple_repeat false (len (@nil Z)))
                      [] (tuple_repeat 1 (len (@nil Z))),
                    h ++ [select_all (select_all (create_simple []))])).
    { destruct (as_tuple args) as [|a0 rest].
      - injection Hget as <- <-. reflexivity.
      - destruct (negb (SimpleSelection.in_ellipsis_or_unit a0)); [discriminate|].
        injection Hget as <- <-. reflexivity. }
    injection Hr as -> ->. unfold simple_nselect.
    cbn [SimpleSelection._id]. rewrite deref_last. reflexivity.
  - match type of Hget with
    | SimpleSelection.getitem ?s _ _ = _ =>
        assert (Hs : SimpleSelection.shape s <> []) by discriminate;
        destruct (simple_getitem_axes _ _ _ _ _ Hs Hget)
          as (fargs & axes & He & Ht & _ & Hid & _ & _ & _ & Hm & _ & Hh)
    end.
    cbn [SimpleSelection.shape SimpleSelection._shape SimpleSelection._id] in *.
    rewrite modify_last in Hh. unfold simple_nselect.
    rewrite Hid, Hh, deref_last, Hm.
    unfold select_hyperslab. rewrite npoints_with_hyperslabs.
    apply hyperslab_points_length.
    apply (translate_axes_shape fargs _ _ (expand_ellipsis_valid _ _ _ Hv He) Ht).
Qed.

Lemma simple_nselect_is_product_witness :
  exists sel' h',
    (Forall valid_index (as_tuple (Tuple [Ellipsis; Int 0]))
     /\ SimpleSelection.init [10; 5; 4; 2] None [] = fresh_block
     /\ SimpleSelection.getitem (fst fresh_block) (Tuple [Ellipsis; Int 0])
          (snd fresh_block) = Ok (sel', h'))
    /\ simple_nselect sel' h' = product (SimpleSelection.mshape sel').
Proof.
  eexists. eexists.
  assert (Hv : Forall valid_index (as_tuple (Tuple [Ellipsis; Int 0])))
    by (repeat constructor).
  split; [split; [exact Hv|split; [reflexivity|vm_compute; reflexivity]]|].
  eapply (simple_nselect_is_product [10; 5; 4; 2] (Tuple [Ellipsis; Int 0]) []
            (snd fresh_block) _ (fst fresh_block) _ Hv eq_refl).
  vm_compute. reflexivity.
Defined.

(** ** A source array of the selection's own shape *)

Lemma expand_walk_own (r : list axis) :
  Forall (fun a => a_scalar a = true -> a_count a * a_block a = 1) r ->
  expand_walk (map (fun a => (a_scalar a, a_count a * a_block a, a_block a)) r)
              (map (fun a => a_count a * a_block a)
                   (filter (fun a => negb (a_scalar a)) r))
  = Some (map (fun a => a_count a * a_block a) r, []).
Proof.
  induction 1 as [|a r Ha _ IH]; [reflexivity|].
  cbn [map filter expand_walk]. destruct (a_scalar a) eqn:E; cbn [negb].
  - cbn [expand_axis_rule]. rewrite IH, (Ha eq_refl). reflexivity.
  - cbn [map expand_axis_rule]. rewrite Z.eqb_refl, orb_true_r.
    cbn [orb]. rewrite IH. reflexivity.
Qed.

Lemma floordiv_zip_self (l : list Z) :
  SimpleSelection.floordiv_zip l l
  = if existsb (fun m => m =? 0) l then Raise ZeroDivisionError
    else Ok (map (fun _ => 1) l).
Proof.
  induction l as [|x l IH]; [reflexivity|].
  cbn [SimpleSelection.floordiv_zip existsb map]. unfold floordiv.
  destruct (x =? 0) eqn:E; cbn [bind orb]; [reflexivity|].
  rewrite IH. destruct (existsb _ l); cbn [bind]; [reflexivity|].
  rewrite Z.div_same by lia. reflexivity.
Qed.

Lemma product_ones {A} (l : list A) : product (map (fun _ => 1) l) = 1.
Proof.
  induction l as [|x l IH]; [reflexivity|].
  cbn [map]. rewrite product_cons, IH. reflexivity.
Qed.

(** X9.  After [__getitem__] on an extent of rank at least 1, a source
    array of exactly [array_shape] expands to [mshape], and [broadcast]
    with it hands out the committed region itself, once, without copying
    it; if the selection is empty along an axis (a zero in [mshape]) the
    chunk count [0 // 0] raises [ZeroDivisionError] instead. *)
Theorem simple_own_shape_broadcast (self sel' : SimpleSelection.t) (args : pyarg)
    (h h' : heap) :
  SimpleSelection.shape self <> [] ->
  SimpleSelection.getitem self args h = Ok (sel', h') ->
  SimpleSelection.expand_shape sel' (SimpleSelection.array_shape sel')
  = Ok (SimpleSelection.mshape sel')
  /\ SimpleSelection.broadcast sel' (SimpleSelection.array_shape sel') h'
     = if existsb (fun m => m =? 0) (SimpleSelection.mshape sel')
       then Throw ZeroDivisionError
       else Yield (SimpleSelection._id sel') (deref h' (SimpleSelection._id sel'))
                  (Stop h').
Proof.
  intros Hs H.
  destruct (simple_getitem_axes _ _ _ _ _ Hs H)
    as (fargs & axes & _ & Ht & _ & _ & Hshape & Hsel & Hblock & Hm & Ha & _).
  assert (Hwf : consistent sel').
  { unfold consistent. rewrite Hsel, Hblock, !length_map. repeat split. }
  assert (He : SimpleSelection.expand_shape sel' (SimpleSelection.array_shape sel')
               = Ok (SimpleSelection.mshape sel')).
  { rewrite (expand_shape_is_spec _ _ Hwf). unfold expand_shape_spec, sel_scalar.
    rewrite Hsel, Hblock, Hm, Ha.
    rewrite combine_map_same.
    rewrite (combine_map_same (fun a => (a_scalar a, a_count a * a_block a)) a_block).
    rewrite <- !map_rev, <- filter_rev.
    rewrite expand_walk_own.
    - cbn [existsb]. rewrite map_rev, rev_involutive. reflexivity.
    - apply Forall_rev. exact (translate_axes_scalar _ _ _ Ht). }
  split; [exact He|].
  unfold SimpleSelection.broadcast. unfold SimpleSelection.shape in *.
  rewrite Hshape. destruct (SimpleSelection._shape self) as [|n shape];
    [contradiction|].
  rewrite Hsel, He, floordiv_zip_self.
  destruct (existsb (fun m => m =? 0) (SimpleSelection.mshape sel'));
    [reflexivity|].
  rewrite product_ones. reflexivity.
Qed.

Lemma simple_own_shape_broadcast_witness :
  exists sel' h',
    (SimpleSelection.shape (fst fresh_block) <> []
     /\ SimpleSelection.getitem (fst fresh_block) (Tuple [Ellipsis; Int 0])
          (snd fresh_block) = Ok (sel', h'))
    /\ SimpleSelection.expand_shape sel' (SimpleSelection.array_shape sel')
       = Ok (SimpleSelection.mshape sel')
    /\ SimpleSelection.broadcast sel' (SimpleSelection.array_shape sel') h'
       = if existsb (fun m => m =? 0) (SimpleSelection.mshape sel')
         then Throw ZeroDivisionError
         else Yield (SimpleSelection._id sel')
                    (deref h' (SimpleSelection._id sel')) (Stop h').
Proof.
  eexists. eexists.
  assert (Hs : SimpleSelection.shape (fst fresh_block) <> []) by discriminate.
  split; [split; [exact Hs|vm_compute; reflexivity]|].
  eapply (simple_own_shape_broadcast (fst fresh_block) _ (Tuple [Ellipsis; Int 0])
            (snd fresh_block) _ Hs).
  vm_compute. reflexivity.
Defined.

(** ** A source array of one element *)

Lemma expand_walk_ones (l : list (bool * Z * Z)) :
  forall src,
    Forall (fun t => t = 1) src ->
    exists rest,
      expand_walk l src = Some (map (fun _ => 1) l, rest)
      /\ Forall (fun t => t = 1) rest.
Proof.
  induction l as [|[[sc m] b] l IH]; intros src Hsrc.
  - exists src. split; [reflexivity|exact Hsrc].
  - cbn [expand_walk map]. destruct sc; cbn [expand_axis_rule].
    + destruct (IH src Hsrc) as (rest & -> & Hr). exists rest. split; [reflexivity|exact Hr].
    + destruct src as [|t src'].
      * destruct (IH [] Hsrc) as (rest & -> & Hr). exists rest.
        split; [reflexivity|exact Hr].
      * apply Forall_cons_iff in Hsrc. destruct Hsrc as [-> Hsrc].
        cbn [Z.eqb orb Pos.eqb].
        destruct (IH src' Hsrc) as (rest & -> & Hr). exists rest.
        split; [reflexivity|exact Hr].
Qed.

(** X10.  A source shape whose entries are all 1 (the shape [()] of a
    scalar among them) is accepted by [expand_shape] of every regular
    selection whose per-axis tuples have the rank of the extent, and
    expands to one 1 per axis: a single element broadcasts to any
    selection. *)
Theorem simple_unit_source (self : SimpleSelection.t) (source_shape : list Z) :
  consistent self ->
  Forall (fun t => t = 1) source_shape ->
  SimpleSelection.expand_shape self source_shape
  = Ok (map (fun _ => 1) (SimpleSelection.mshape self)).
Proof.
  intros Hwf Hsrc. rewrite (expand_shape_is_spec _ _ Hwf). unfold expand_shape_spec.
  destruct (expand_walk_ones
              (rev (combine (combine (sel_scalar self) (SimpleSelection.mshape self))
                            (SimpleSelection._block_shape self)))
              (rev source_shape) (Forall_rev Hsrc)) as (rest & -> & Hr).
  assert (Hex : existsb (fun n => n >? 1) rest = false).
  { clear -Hr. induction Hr as [|t rest -> _ IH]; [reflexivity|].
    cbn [existsb]. rewrite IH. reflexivity. }
  rewrite Hex, !map_const, rev_repeat, length_rev, (axes_length _ Hwf).
  reflexivity.
Qed.

Lemma simple_unit_source_witness :
  (consistent (fst fresh_block) /\ Forall (fun t => t = 1) [1; 1])
  /\ SimpleSelection.expand_shape (fst fresh_block) [1; 1]
     = Ok (map (fun _ => 1) (SimpleSelection.mshape (fst fresh_block))).
Proof.
  assert (Hc : consistent (fst fresh_block)) by (repeat split).
  assert (Hs : Forall (fun t => t = 1) [1; 1]) by (repeat constructor).
  split; [split; [exact Hc|exact Hs]|].
  apply (simple_unit_source (fst fresh_block) [1; 1] Hc Hs).
Defined.

(** * Grids of coordinates *)

Lemma range_in (n idx : Z) : In idx (range n) <-> 0 <= idx < n.
Proof.
  split; [apply range_bounds|].
  intros Hi. unfold range. apply in_map_iff. exists (Z.to_nat idx).
  split; [lia|]. apply in_seq. lia.
Qed.

Lemma grid_in (L : list (list Z)) :
  forall p, In p (grid L) <-> Forall2 (fun x A => In x A) p L.
Proof.
  induction L as [|A L IH]; intros p; cbn [grid].
  - split.
    + intros [<-|[]]. constructor.
    + intros H. inversion H. left. reflexivity.
  - rewrite in_flat_map. split.
    + intros (x & Hx & Hp). apply in_map_iff in Hp.
      destruct Hp as (q & <- & Hq). constructor; [exact Hx|].
      apply IH. exact Hq.
    + intros H. inversion H as [|x A' q L' Hx Hq]; subst.
      exists x. split; [exact Hx|]. apply in_map. apply IH. exact Hq.
Qed.

Lemma axis_positions_in (s c d b x : Z) :
  In x (axis_positions s c d b)
  <-> exists i j, 0 <= i < c /\ 0 <= j < b /\ x = s + i * d + j.
Proof.
  unfold axis_positions. rewrite in_flat_map. split.
  - intros (i & Hi & Hx). apply in_map_iff in Hx. destruct Hx as (j & <- & Hj).
    exists i, j. apply range_in in Hi. apply range_in in Hj. repeat split; lia.
  - intros (i & j & Hi & Hj & ->). exists i. split; [apply range_in; exact Hi|].
    apply in_map_iff. exists j. split; [reflexivity|apply range_in; exact Hj].
Qed.

Lemma selected_with_hyperslabs (sid : SpaceID) (pts : list coord) :
  selected (with_hyperslabs sid pts) = pts.
Proof. destruct pts; reflexivity. Qed.


(** * Point selections *)

Lemma deref_store (h : heap) :
  forall (l : loc) (v : SpaceID), (l < length h)%nat -> deref (store h l v) l = v.
Proof.
  induction h as [|x h IH]; intros [|l] v Hl; cbn in Hl; try lia.
  - reflexivity.
  - cbn [store]. unfold deref in *. cbn [nth]. apply IH. lia.
Qed.

Lemma deref_modify (f : SpaceID -> SpaceID) (l : loc) (h : heap) :
  (l < length h)%nat -> deref (modify f l h) l = f (deref h l).
Proof. intros Hl. unfold modify. apply deref_store. exact Hl. Qed.

Lemma point_init_fresh (shape : list Z) (h : heap) :
  PointSelection.init shape None h
  = (PointSelection.mk (length h) shape, h ++ [select_all (create_simple shape)]).
Proof.
  unfold PointSelection.init, Selection.init, alloc.
  rewrite modify_last. reflexivity.
Qed.






(** X12.  [set], [append] and [prepend] called with a 2-D array that has
    no rows deselect everything: the descriptor is left with the empty
    selection, also when points were selected before. *)
Theorem point_empty_clears (self : PointSelection.t) (op : select_op) (h : heap) :
  (PointSelection._id self < length h)%nat ->
  let h' := PointSelection._perform_selection self (Rows []) op h in
  sp_type (deref h' (PointSelection._id self)) = SEL_NONE
  /\ PointSelection.nselect self h' = 0
  /\ PointSelection.append self (Rows []) h
     = PointSelection.set self (Rows []) h
  /\ PointSelection.prepend self (Rows []) h
     = PointSelection.set self (Rows []) h.
Proof.
  intros Hl h'. subst h'.
  unfold PointSelection.nselect, PointSelection.append, PointSelection.prepend,
    PointSelection.set, PointSelection._perform_selection.
  cbn [map len length Z.of_nat Z.eqb].
  rewrite deref_modify by exact Hl. repeat split.
Qed.

Lemma point_empty_clears_witness :
  (PointSelection._id (fst fresh_points) < length (snd fresh_points))%nat
  /\ let h' := PointSelection._perform_selection (fst fresh_points) (Rows [])
                 SELECT_APPEND (snd fresh_points) in
     sp_type (deref h' (PointSelection._id (fst fresh_points))) = SEL_NONE
     /\ PointSelection.nselect (fst fresh_points) h' = 0
     /\ PointSelection.append (fst fresh_points) (Rows []) (snd fresh_points)
        = PointSelection.set (fst fresh_points) (Rows []) (snd fresh_points)
     /\ PointSelection.prepend (fst fresh_points) (Rows []) (snd fresh_points)
        = PointSelection.set (fst fresh_points) (Rows []) (snd fresh_points).
Proof.
  assert (Hl : (PointSelection._id (fst fresh_points)
                < length (snd fresh_points))%nat) by (cbn; lia).
  split; [exact Hl|].
  apply (point_empty_clears (fst fresh_points) SELECT_APPEND (snd fresh_points) Hl).
Defined.

(** ** Boolean masks *)

Lemma coord_eqb_eq (p q : coord) : coord_eqb p q = true <-> p = q.
Proof.
  unfold coord_eqb. revert q. induction p as [|x p IH]; intros [|y q]; cbn;
    try (split; [discriminate|discriminate]); [split; reflexivity|].
  specialize (IH q). rewrite andb_true_iff in *. rewrite andb_true_iff.
  rewrite Nat.eqb_eq in *. rewrite Z.eqb_eq. split.
  - intros (Hl & Hx & Hf). f_equal; [exact Hx|]. apply IH. split; [lia|exact Hf].
  - intros H. injection H as -> ->. destruct IH as [_ IH].
    destruct (IH eq_refl) as [_ Hf]. repeat split; assumption.
Qed.

Lemma coord_eqb_refl (p : coord) : coord_eqb p p = true.
Proof. apply coord_eqb_eq. reflexivity. Qed.









(** * Union selections: how many sequences *)

Lemma dict_set_fresh (d : dict) (k : nat) (v : list Z) :
  Forall (fun '(k', _) => (k' < k)%nat) d -> dict_set d k v = d ++ [(k, v)].
Proof.
  induction 1 as [|[k' v'] d Hk _ IH]; [reflexivity|].
  cbn [dict_set app]. destruct (k' =? k)%nat eqn:E.
  - apply Nat.eqb_eq in E. lia.
  - rewrite IH. reflexivity.
Qed.

Lemma collect_step_other (d : dict) (idx : nat) (a : index) :
  one_dimensional a -> sequence_values a = None ->
  FancySelection.collect_step d (idx, a) = Ok d.
Proof.
  destruct a as [i|s|m| |l'|l'|sh data]; intros H1 Hs; try discriminate Hs;
    try reflexivity.
  cbn in H1. destruct sh as [|n [|n' sh]]; try discriminate Hs;
    unfold len in H1; cbn [length] in H1; lia.
Qed.

Lemma collect_count (l : list index) :
  forall (k : nat) (d : dict),
    Forall one_dimensional l ->
    Forall (fun a => forall v, sequence_values a = Some v -> ~ has_descent v) l ->
    Forall (fun '(k', _) => (k' < k)%nat) d ->
    exists d',
      foldM FancySelection.collect_step (combine (seq k (length l)) l) d = Ok d'
      /\ length d' = (length d + length (filter is_sequence l))%nat.
Proof.
  induction l as [|a l IH]; intros k d H1 Hinc Hd.
  - exists d. split; [reflexivity|]. cbn. lia.
  - apply Forall_cons_iff in H1. destruct H1 as [Ha1 Hl1].
    apply Forall_cons_iff in Hinc. destruct Hinc as [Hai Hli].
    cbn [length seq combine foldM filter]. unfold is_sequence at 1.
    destruct (sequence_values a) as [v|] eqn:Es.
    + rewrite (collect_step_sequence d k a v Es).
      destruct (not_increasing v) eqn:En.
      { exfalso. apply (Hai v eq_refl). apply not_increasing_iff. exact En. }
      cbn [bind]. rewrite (dict_set_fresh d k v Hd).
      destruct (IH (S k) (d ++ [(k, v)]) Hl1 Hli) as (d' & Hf & Hlen).
      { apply Forall_app. split.
        - eapply Forall_impl; [|exact Hd]. intros [k' v']. lia.
        - constructor; [lia|constructor]. }
      exists d'. split; [exact Hf|].
      rewrite Hlen, length_app. cbn [length]. lia.
    + rewrite (collect_step_other d k a Ha1 Es). cbn [bind].
      destruct (IH (S k) d Hl1 Hli) as (d' & Hf & Hlen).
      { eapply Forall_impl; [|exact Hd]. intros [k' v']. lia. }
      exists d'. split; [exact Hf|exact Hlen].
Qed.

(** X15.  A union selection takes exactly one sequence: when the index is
    well formed for the rank and its sequences (integer lists, 1-D
    boolean arrays) are increasing, [__getitem__] raises the
    advanced-selection-inappropriate [TypeError] if no argument is a
    sequence, and the only-one-indexing-vector [TypeError] if two or more
    are. *)
Theorem fancy_one_sequence_only (self : FancySelection.t) (args : pyarg)
    (h : heap) (final_args : list index) :
  _expand_ellipsis (as_tuple args) (len (FancySelection.shape self)) = Ok final_args ->
  Forall one_dimensional final_args ->
  Forall (fun a => forall v, sequence_values a = Some v -> ~ has_descent v)
         final_args ->
  length (filter is_sequence final_args) <> 1%nat ->
  FancySelection.getitem self args h
  = Raise (TypeError (if (length (filter is_sequence final_args) =? 0)%nat
                      then AdvancedInappropriate else OneVectorOnly)).
Proof.
  intros He H1 Hinc Hn. unfold FancySelection.getitem. rewrite He. cbn [bind].
  unfold FancySelection.enumerate.
  destruct (collect_count final_args 0 [] H1 Hinc (Forall_nil _)) as (d & -> & Hlen).
  cbn [bind length Nat.add] in *. rewrite <- Hlen in *.
  destruct d as [|e1 [|e2 d]]; cbn [length] in *.
  - reflexivity.
  - contradiction Hn. reflexivity.
  - assert (Hgt : (len (e1 :: e2 :: d) >? 1) = true).
    { apply Z.gtb_lt. unfold len. cbn [length]. lia. }
    rewrite Hgt. reflexivity.
Qed.

Lemma fancy_one_sequence_only_witness :
  (_expand_ellipsis (as_tuple two_lists)
     (len (FancySelection.shape (fst fresh_rows)))
   = Ok [IntList [1; 2]; IntList [3; 4]]
   /\ Forall one_dimensional [IntList [1; 2]; IntList [3; 4]]
   /\ Forall (fun a => forall v, sequence_values a = Some v -> ~ has_descent v)
             [IntList [1; 2]; IntList [3; 4]]
   /\ length (filter is_sequence [IntList [1; 2]; IntList [3; 4]]) <> 1%nat)
  /\ FancySelection.getitem (fst fresh_rows) two_lists (snd fresh_rows)
     = Raise (TypeError OneVectorOnly).
Proof.
  assert (He : _expand_ellipsis (as_tuple two_lists)
                 (len (FancySelection.shape (fst fresh_rows)))
               = Ok [IntList [1; 2]; IntList [3; 4]]) by reflexivity.
  assert (H1 : Forall one_dimensional [IntList [1; 2]; IntList [3; 4]])
    by (repeat constructor).
  assert (Hinc : Forall (fun a => forall v, sequence_values a = Some v ->
                                            ~ has_descent v)
                        [IntList [1; 2]; IntList [3; 4]]).
  { repeat constructor; intros v [= <-] Hd; apply not_increasing_iff in Hd;
      discriminate Hd. }
  assert (Hn : length (filter is_sequence [IntList [1; 2]; IntList [3; 4]])
               <> 1%nat) by discriminate.
  split; [repeat split; assumption|].
  exact (fancy_one_sequence_only (fst fresh_rows) two_lists (snd fresh_rows)
           _ He H1 Hinc Hn).
Defined.

(** ** Union selections do not broadcast *)

(** X16.  A union selection accepts one source shape only, its own
    [array_shape]: with it [expand_shape] returns the source shape and
    [broadcast] yields the committed region once and leaves every
    descriptor as it was; with any other shape, of the same size or not,
    both raise the complex-selection [TypeError]. *)
Theorem fancy_broadcast_exact (self : FancySelection.t) (source_shape : list Z)
    (h : heap) :
  (source_shape = FancySelection.array_shape self ->
   FancySelection.expand_shape self source_shape = Ok source_shape
   /\ yields (FancySelection.broadcast self source_shape h)
      = [(FancySelection._id self, deref h (FancySelection._id self))]
   /\ outcome (FancySelection.broadcast self source_shape h) = Ok h)
  /\ (source_shape <> FancySelection.array_shape self ->
      FancySelection.expand_shape self source_shape
      = Raise (TypeError ComplexBroadcast)
      /\ FancySelection.broadcast self source_shape h
         = Throw (TypeError ComplexBroadcast)).
Proof.
  unfold FancySelection.expand_shape, FancySelection.broadcast.
  destruct (coord_eqb source_shape (FancySelection.array_shape self)) eqn:E.
  - apply coord_eqb_eq in E. split; [|intros Hne; contradiction].
    intros _. repeat split.
  - split; [|intros _; split; reflexivity].
    intros Heq. apply coord_eqb_eq in Heq. congruence.
Qed.

Lemma fancy_broadcast_exact_witness :
  ([10; 10] = FancySelection.array_shape (fst fresh_rows)
   /\ [100] <> FancySelection.array_shape (fst fresh_rows))
  /\ FancySelection.expand_shape (fst fresh_rows) [10; 10] = Ok [10; 10]
  /\ FancySelection.broadcast (fst fresh_rows) [100] (snd fresh_rows)
     = Throw (TypeError ComplexBroadcast).
Proof.
  assert (Heq : [10; 10] = FancySelection.array_shape (fst fresh_rows))
    by reflexivity.
  assert (Hne : [100] <> FancySelection.array_shape (fst fresh_rows))
    by discriminate.
  split; [split; [exact Heq|exact Hne]|]. split.
  - exact (proj1 (proj1 (fancy_broadcast_exact (fst fresh_rows) [10; 10]
                           (snd fresh_rows)) Heq)).
  - exact (proj2 (proj2 (fancy_broadcast_exact (fst fresh_rows) [100]
                           (snd fresh_rows)) Hne)).
Defined.

(** * The entry point *)

Lemma simple_getitem_shape (self sel' : SimpleSelection.t) (args : pyarg)
    (h h' : heap) :
  SimpleSelection.getitem self args h = Ok (sel', h') ->
  SimpleSelection._shape sel' = SimpleSelection._shape self.
Proof.
  unfold SimpleSelection.getitem.
  destruct (SimpleSelection.shape self).
  - destruct (as_tuple args) as [|a0 rest].
    + intros H. injection H as <- _. reflexivity.
    + destruct (negb _); [discriminate|]. intros H. injection H as <- _. reflexivity.
  - destruct (_handle_simple _ _) as [[st ct sd bl sc]|e]; [|discriminate].
    cbn [bind]. intros H. injection H as <- _. reflexivity.
Qed.

Lemma fancy_getitem_shape (self sel' : FancySelection.t) (args : pyarg)
    (h h' : heap) :
  FancySelection.getitem self args h = Ok (sel', h') ->
  FancySelection._shape sel' = FancySelection._shape self.
Proof.
  unfold FancySelection.getitem.
  destruct (_expand_ellipsis _ _) as [fargs|e]; [|discriminate]. cbn [bind].
  destruct (foldM FancySelection.collect_step _ _) as [d|e]; [|discriminate].
  cbn [bind]. destruct (len d >? 1); [discriminate|].
  destruct d as [|[k first] d]; [discriminate|].
  destruct (negb _); [discriminate|].
  destruct (foldM (FancySelection.or_step self) _ _) as [[last h1]|e];
    [|discriminate].
  cbn [bind]. destruct last as [s|]; [|discriminate].
  intros H. injection H as <- _. reflexivity.
Qed.

(** X17.  Whatever [select] returns is a selection over the shape it was
    called with: an existing selection or a region reference of another
    shape is refused, and the selections that [select] creates keep the
    shape through indexing. *)
Theorem select_keeps_shape (shape : list Z) (args : select_args) (h h' : heap)
    (sel : selection) :
  select shape args h = Returns (sel, h') ->
  selection_shape sel = shape.
Proof.
  unfold select. destruct args as [args|arg|region].
  - destruct (as_tuple args) as [|a [|b rest]] eqn:Ea.
    + cbn [existsb].
      destruct (SimpleSelection.init shape None h) as [s h1] eqn:Ei.
      rewrite simple_init_fresh in Ei. injection Ei as <- <-.
      destruct (SimpleSelection.getitem _ _ _) as [[s' h2]|e] eqn:Eg; [|discriminate].
      intros H. injection H as <- _. cbn [selection_shape].
      unfold SimpleSelection.shape. rewrite (simple_getitem_shape _ _ _ _ _ Eg).
      reflexivity.
    + assert (Hgen :
          (if existsb needs_fancy [a]
           then
             let '(sel0, h0) := FancySelection.init shape None h in
             match FancySelection.getitem sel0 (Tuple [a]) h0 with
             | Ok (sel1, h1) => Returns (Union sel1, h1)
             | Raise e => Raises e
             end
           else
             let '(sel0, h0) := SimpleSelection.init shape None h in
             match SimpleSelection.getitem sel0 (Tuple [a]) h0 with
             | Ok (sel1, h1) => Returns (Regular sel1, h1)
             | Raise e => Raises e
             end) = Returns (sel, h') -> selection_shape sel = shape).
      { destruct (existsb needs_fancy [a]).
        - destruct (FancySelection.init shape None h) as [s h1] eqn:Ei.
          assert (Hsh : FancySelection._shape s = shape).
          { unfold FancySelection.init, Selection.init, alloc in Ei.
            injection Ei as <- _. reflexivity. }
          destruct (FancySelection.getitem _ _ _) as [[s' h2]|e] eqn:Eg;
            [|discriminate].
          intros H. injection H as <- _. cbn [selection_shape].
          unfold FancySelection.shape.
          rewrite (fancy_getitem_shape _ _ _ _ _ Eg). exact Hsh.
        - destruct (SimpleSelection.init shape None h) as [s h1] eqn:Ei.
          rewrite simple_init_fresh in Ei. injection Ei as <- <-.
          destruct (SimpleSelection.getitem _ _ _) as [[s' h2]|e] eqn:Eg;
            [|discriminate].
          intros H. injection H as <- _. cbn [selection_shape].
          unfold SimpleSelection.shape.
          rewrite (simple_getitem_shape _ _ _ _ _ Eg). reflexivity. }
      destruct a as [i|s|m| |l|l|sh data]; try exact Hgen.
      rewrite point_init_fresh. unfold PointSelection.getitem.
      destruct (negb _); [discriminate|].
      intros H. injection H as <- _. reflexivity.
    + destruct (existsb needs_fancy (a :: b :: rest)).
      * destruct (FancySelection.init shape None h) as [s h1] eqn:Ei.
        assert (Hsh : FancySelection._shape s = shape).
        { unfold FancySelection.init, Selection.init, alloc in Ei.
          injection Ei as <- _. reflexivity. }
        destruct (FancySelection.getitem _ _ _) as [[s' h2]|e] eqn:Eg.
        -- destruct a; intros H; injection H as <- _; cbn [selection_shape];
             unfold FancySelection.shape;
             rewrite (fancy_getitem_shape _ _ _ _ _ Eg); exact Hsh.
        -- destruct a; discriminate.
      * destruct (SimpleSelection.init shape None h) as [s h1] eqn:Ei.
        rewrite simple_init_fresh in Ei. injection Ei as <- <-.
        destruct (SimpleSelection.getitem _ _ _) as [[s' h2]|e] eqn:Eg.
        -- destruct a; intros H; injection H as <- _; cbn [selection_shape];
             unfold SimpleSelection.shape;
             rewrite (simple_getitem_shape _ _ _ _ _ Eg); reflexivity.
        -- destruct a; discriminate.
  - destruct (coord_eqb (selection_shape arg) shape) eqn:E; cbn [negb];
      [|discriminate].
    intros H. injection H as <- _. apply coord_eqb_eq. exact E.
  - unfold get_region, alloc, Selection.init.
    destruct (coord_eqb shape (sp_shape (deref (h ++ [region]) (length h)))) eqn:E;
      cbn [negb]; [|discriminate].
    intros H. injection H as <- _. cbn [selection_shape].
    unfold Selection.shape. cbn [Selection._shape].
    symmetry. apply coord_eqb_eq. exact E.
Qed.

Lemma select_keeps_shape_witness :
  exists sel h',
    select_row = Returns (sel, h') /\ selection_shape sel = [10; 10].
Proof.
  eexists. eexists. split; [vm_compute; reflexivity|].
  eapply (select_keeps_shape [10; 10] (Indexing (Tuple [Int 1; full_slice])) []).
  vm_compute. reflexivity.
Defined.

Lemma needs_fancy_false (a : index) : needs_fancy a = false <-> simple_kind a.
Proof.
  destruct a as [i|s|m| |l|l|sh data]; cbn;
    try (split; [intros _; exact I|reflexivity]);
    try (split; [discriminate|intros []]).
  destruct data as [|b [|b' data]]; cbn;
    try (split; [discriminate|intros []]).
  split.
  - intros E Heq. subst sh. rewrite coord_eqb_refl in E. discriminate E.
  - intros Hne. destruct (coord_eqb sh [1]) eqn:E; [|reflexivity].
    apply coord_eqb_eq in E. contradiction.
Qed.

Lemma existsb_needs_fancy (l : list index) :
  (existsb needs_fancy l = false -> Forall simple_kind l)
  /\ (existsb needs_fancy l = true -> Exists (fun a => ~ simple_kind a) l).
Proof.
  induction l as [|a l [IHf IHt]]; cbn [existsb].
  - split; [constructor|discriminate].
  - destruct (needs_fancy a) eqn:E; cbn [orb].
    + split; [discriminate|]. intros _. left. intros Hs.
      apply needs_fancy_false in Hs. congruence.
    + split.
      * intros H. constructor; [apply needs_fancy_false; exact E|exact (IHf H)].
      * intros H. right. exact (IHt H).
Qed.

Lemma select_index_path (shape : list Z) (l : list index) (h h' : heap)
    (sel : selection) :
  (if existsb needs_fancy l
   then
     let '(sel0, h0) := FancySelection.init shape None h in
     match FancySelection.getitem sel0 (Tuple l) h0 with
     | Ok (sel1, h1) => Returns (Union sel1, h1)
     | Raise e => Raises e
     end
   else
     let '(sel0, h0) := SimpleSelection.init shape None h in
     match SimpleSelection.getitem sel0 (Tuple l) h0 with
     | Ok (sel1, h1) => Returns (Regular sel1, h1)
     | Raise e => Raises e
     end) = Returns (sel, h') ->
  match sel with
  | Plain _ | Points _ => False
  | Regular _ => Forall simple_kind l
  | Union _ => Exists (fun a => ~ simple_kind a) l
  end.
Proof.
  destruct (existsb_needs_fancy l) as [Hf Ht].
  destruct (existsb needs_fancy l).
  - destruct (FancySelection.init shape None h) as [s h1].
    destruct (FancySelection.getitem _ _ _) as [[s' h2]|e]; [|discriminate].
    intros H. injection H as <- _. exact (Ht eq_refl).
  - destruct (SimpleSelection.init shape None h) as [s h1].
    destruct (SimpleSelection.getitem _ _ _) as [[s' h2]|e]; [|discriminate].
    intros H. injection H as <- _. exact (Hf eq_refl).
Qed.

(** X18.  The class of the selection that [select] returns for index
    values follows the kinds of the arguments: a point selection only for
    a single boolean array; a regular selection only when every argument
    is an integer, a slice, a strided block, an Ellipsis or a one-element
    boolean array whose shape is not (1,); a union selection only when
    some argument is none of these (a list, a longer boolean array, an
    array of shape (1,)); never a base selection. *)
Theorem select_class (shape : list Z) (args : pyarg) (h h' : heap)
    (sel : selection) :
  select shape (Indexing args) h = Returns (sel, h') ->
  match sel with
  | Plain _ => False
  | Points _ => exists a_shape data, as_tuple args = [BoolArray a_shape data]
  | Regular _ => Forall simple_kind (as_tuple args)
  | Union _ => Exists (fun a => ~ simple_kind a) (as_tuple args)
  end.
Proof.
  unfold select. intros H.
  assert (Hweak : match sel with
                  | Plain _ | Points _ => False
                  | Regular _ => Forall simple_kind (as_tuple args)
                  | Union _ => Exists (fun a => ~ simple_kind a) (as_tuple args)
                  end ->
                  match sel with
                  | Plain _ => False
                  | Points _ =>
                      exists a_shape data, as_tuple args = [BoolArray a_shape data]
                  | Regular _ => Forall simple_kind (as_tuple args)
                  | Union _ => Exists (fun a => ~ simple_kind a) (as_tuple args)
                  end).
  { destruct sel; intros Hm; try exact Hm; contradiction. }
  destruct (as_tuple args) as [|a [|b rest]] eqn:Ea.
  - apply Hweak. exact (select_index_path shape [] h h' sel H).
  - pose proof (select_index_path shape [a] h h' sel) as Hp.
    destruct a as [i|s|m| |l|l|sh data]; try (apply Hweak, Hp; exact H).
    rewrite point_init_fresh in H. unfold PointSelection.getitem in H.
    destruct (negb _); [discriminate|].
    injection H as <- _. exists sh, data. reflexivity.
  - pose proof (select_index_path shape (a :: b :: rest) h h' sel) as Hp.
    apply Hweak, Hp. destruct a; exact H.
Qed.

Lemma select_class_witness :
  exists sel h',
    select [10; 10] (Indexing (Tuple [Int 1; full_slice])) [] = Returns (sel, h')
    /\ match sel with
       | Plain _ => False
       | Points _ =>
           exists a_shape data,
             as_tuple (Tuple [Int 1; full_slice]) = [BoolArray a_shape data]
       | Regular _ => Forall simple_kind (as_tuple (Tuple [Int 1; full_slice]))
       | Union _ =>
           Exists (fun a => ~ simple_kind a) (as_tuple (Tuple [Int 1; full_slice]))
       end.
Proof.
  eexists. eexists. split; [vm_compute; reflexivity|].
  eapply (select_class [10; 10] (Tuple [Int 1; full_slice]) []).
  vm_compute. reflexivity.
Defined.

(** * The selected region *)

Lemma positions_inside (shape : list Z) (axes : list axis) :
  Forall2 within_extent shape axes ->
  forall p, Forall2 (fun x A => In x A) p (map positions axes) -> inside shape p.
Proof.
  unfold inside. induction 1 as [|n a shape axes Ha _ IH]; intros p Hp;
    cbn [map] in Hp; inversion Hp as [|x A q L Hx Hq]; subst; constructor.
  - unfold positions in Hx. apply axis_positions_in in Hx.
    destruct Hx as (i & j & Hi & Hj & ->).
    destruct Ha as (_ & _ & _ & _ & Hin). exact (Hin i j Hi Hj).
  - exact (IH q Hq).
Qed.

(** X19.  A regular selection never reaches outside its extent: after a
    selection has been created over [shape] and indexed (strided blocks
    being constructor-built), every coordinate that the region descriptor
    holds selected has one entry per axis, each at least 0 and below the
    length of its axis. *)
Theorem simple_selected_inside (shape : list Z) (args : pyarg) (h h0 h' : heap)
    (sel sel' : SimpleSelection.t) :
  Forall valid_index (as_tuple args) ->
  SimpleSelection.init shape None h = (sel, h0) ->
  SimpleSelection.getitem sel args h0 = Ok (sel', h') ->
  forall p,
    In p (selected (deref h' (SimpleSelection._id sel'))) -> inside shape p.
Proof.
  intros Hv Hinit Hget p. rewrite simple_init_fresh in Hinit.
  injection Hinit as <- <-.
  destruct shape as [|n shape].
  - unfold SimpleSelection.getitem in Hget.
    cbn [SimpleSelection.shape SimpleSelection._shape SimpleSelection._id] in Hget.
    rewrite modify_last in Hget.
    assert (Hr : SimpleSelection._id sel' = length h
                 /\ h' = h ++ [select_all (select_all (create_simple []))]).
    { destruct (as_tuple args) as [|a0 rest].
      - injection Hget as <- <-. split; reflexivity.
      - destruct (negb (SimpleSelection.in_ellipsis_or_unit a0)); [discriminate|].
        injection Hget as <- <-. split; reflexivity. }
    destruct Hr as [-> ->]. rewrite deref_last.
    intros [<-|[]]. constructor.
  - match type of Hget with
    | SimpleSelection.getitem ?s _ _ = _ =>
        assert (Hs : SimpleSelection.shape s <> []) by discriminate;
        destruct (simple_getitem_axes _ _ _ _ _ Hs Hget)
          as (fargs & axes & He & Ht & _ & Hid & _ & _ & _ & _ & _ & Hh)
    end.
    cbn [SimpleSelection.shape SimpleSelection._shape SimpleSelection._id] in *.
    rewrite modify_last in Hh. rewrite Hid, Hh, deref_last.
    unfold select_hyperslab. rewrite selected_with_hyperslabs.
    unfold hyperslab_points. rewrite hyperslab_axes_map. intros Hp.
    apply grid_in in Hp. apply (positions_inside (n :: shape) axes); [|exact Hp].
    apply (translate_axes_within fargs).
    + exact (expand_ellipsis_valid _ _ _ Hv He).
    + pose proof (expand_ellipsis_length _ _ _ He) as Hl. unfold len in Hl. lia.
    + exact Ht.
Qed.

Lemma simple_selected_inside_witness :
  exists sel' h',
    (Forall valid_index (as_tuple (Tuple [Ellipsis; Int 0]))
     /\ SimpleSelection.init [10; 5; 4; 2] None [] = fresh_block
     /\ SimpleSelection.getitem (fst fresh_block) (Tuple [Ellipsis; Int 0])
          (snd fresh_block) = Ok (sel', h'))
    /\ forall p,
         In p (selected (deref h' (SimpleSelection._id sel'))) ->
         inside [10; 5; 4; 2] p.
Proof.
  eexists. eexists.
  assert (Hv : Forall valid_index (as_tuple (Tuple [Ellipsis; Int 0])))
    by (repeat constructor).
  split; [split; [exact Hv|split; [reflexivity|vm_compute; reflexivity]]|].
  eapply (simple_selected_inside [10; 5; 4; 2] (Tuple [Ellipsis; Int 0]) []
            (snd fresh_block) _ (fst fresh_block) _ Hv eq_refl).
  vm_compute. reflexivity.
Defined.

(** * guess_shape on a regular selection *)

(** ** Grids *)

Lemma filter_flat_map {A B} (f : B -> bool) (g : A -> list B) (l : list A) :
  filter f (flat_map g l) = flat_map (fun x => filter f (g x)) l.
Proof.
  induction l as [|x l IH]; [reflexivity|].
  cbn [flat_map]. rewrite filter_app, IH. reflexivity.
Qed.

Lemma flat_map_filter {A B} (f : A -> bool) (g : A -> list B) (l : list A) :
  flat_map g (filter f l) = flat_map (fun x => if f x then g x else []) l.
Proof.
  induction l as [|x l IH]; [reflexivity|].
  cbn [filter flat_map]. destruct (f x); cbn [flat_map app]; rewrite IH; reflexivity.
Qed.

Lemma filter_map_cons (g : Z -> bool) (i : nat) (x : Z) (G : list coord) :
  filter (fun p => g (nth (S i) p 0)) (map (cons x) G)
  = map (cons x) (filter (fun q => g (nth i q 0)) G).
Proof.
  induction G as [|q G IH]; [reflexivity|].
  cbn [map filter nth]. destruct (g (nth i q 0)); cbn [map]; rewrite IH;
    reflexivity.
Qed.

(** Keeping the points of a grid whose coordinate [i] passes a test is
    testing the positions of axis [i]. *)
Lemma grid_filter_axis (g : Z -> bool) (L : list (list Z)) :
  forall i : nat,
    (i < length L)%nat ->
    filter (fun p => g (nth i p 0)) (grid L)
    = grid (list_set L i (filter g (nth i L []))).
Proof.
  induction L as [|A L IH]; intros i Hi; [cbn in Hi; lia|].
  destruct i as [|i]; cbn [grid list_set nth].
  - rewrite filter_flat_map, flat_map_filter. apply flat_map_ext. intros x.
    destruct (g x) eqn:E.
    + apply forallb_filter_id. apply forallb_forall. intros p Hp.
      apply in_map_iff in Hp. destruct Hp as (q & <- & _). exact E.
    + clear IH. generalize (grid L). intros G.
      induction G as [|q G IHG]; [reflexivity|].
      cbn [map filter nth]. rewrite E. exact IHG.
  - rewrite filter_flat_map. apply flat_map_ext. intros x.
    rewrite <- (IH i) by (cbn in Hi; lia).
    apply filter_map_cons.
Qed.

Lemma product_list_set (l : list Z) :
  forall (i : nat) (v : Z),
    (i < length l)%nat ->
    product (list_set l i v) * nth i l 0 = product l * v.
Proof.
  induction l as [|x l IH]; intros i v Hi; [cbn in Hi; lia|].
  destruct i as [|i]; cbn [list_set nth]; rewrite !product_cons.
  - ring.
  - rewrite <- Z.mul_assoc, (IH i v) by (cbn in Hi; lia). ring.
Qed.

Lemma list_set_map {A B} (f : A -> B) (l : list A) :
  forall (i : nat) (v : A), list_set (map f l) i (f v) = map f (list_set l i v).
Proof.
  induction l as [|x l IH]; intros [|i] v; cbn; try reflexivity.
  rewrite IH. reflexivity.
Qed.

Lemma length_list_set {A} (l : list A) :
  forall (i : nat) (v : A), length (list_set l i v) = length l.
Proof.
  induction l as [|x l IH]; intros [|i] v; cbn; try reflexivity.
  rewrite IH. reflexivity.
Qed.

Lemma mapM_seq {B} (f : nat -> result B) (g : nat -> B) (n : nat) :
  forall k,
    (forall i, (k <= i < k + n)%nat -> f i = Ok (g i)) ->
    mapM f (seq k n) = Ok (map g (seq k n)).
Proof.
  induction n as [|n IH]; intros k Hf; [reflexivity|].
  cbn [seq mapM map]. rewrite (Hf k) by lia. cbn [bind].
  rewrite (IH (S k)) by (intros i Hi; apply Hf; lia). reflexivity.
Qed.

Lemma map_nth_seq {A B} (f : A -> B) (d : A) (l : list A) :
  map (fun i => f (nth i l d)) (seq 0 (length l)) = map f l.
Proof.
  induction l as [|x l IH]; [reflexivity|].
  cbn [length seq map nth]. f_equal.
  rewrite <- seq_shift, map_map. exact IH.
Qed.

(** ** The bounding box *)

Section Extreme.

Variable f : Z -> Z -> Z.
Variable R : Z -> Z -> Prop.
Hypothesis f_left : forall a x, R a x -> f a x = a.
Hypothesis f_right : forall a x, R a x -> f x a = a.
Hypothesis f_keeps : forall a x y, R a x -> R a y -> R a (f x y).

Lemma pointwise_left (e q : coord) : Forall2 R e q -> pointwise f e q = e.
Proof.
  unfold pointwise. induction 1 as [|a x e q Hax _ IH]; [reflexivity|].
  cbn [combine map]. rewrite (f_left _ _ Hax), IH. reflexivity.
Qed.

Lemma pointwise_right (e q : coord) : Forall2 R e q -> pointwise f q e = e.
Proof.
  unfold pointwise. induction 1 as [|a x e q Hax _ IH]; [reflexivity|].
  cbn [combine map]. rewrite (f_right _ _ Hax), IH. reflexivity.
Qed.

Lemma pointwise_keeps (e : coord) :
  forall x y, Forall2 R e x -> Forall2 R e y -> Forall2 R e (pointwise f x y).
Proof.
  unfold pointwise. induction e as [|a e IH]; intros x y Hx Hy;
    inversion Hx as [|a1 x1 e1 x' Hax Hx']; subst;
    inversion Hy as [|a2 y1 e2 y' Hay Hy']; subst; cbn [combine map];
    constructor.
  - apply f_keeps; assumption.
  - apply IH; assumption.
Qed.

(** Folding a pointwise minimum (or maximum) over points that hold the
    corner [e] of their box gives [e]. *)
Lemma fold_extreme (e : coord) (ps : list coord) :
  forall acc,
    Forall2 R e acc ->
    Forall (Forall2 R e) ps ->
    acc = e \/ In e ps ->
    fold_left (pointwise f) ps acc = e.
Proof.
  induction ps as [|q ps IH]; intros acc Hacc Hps Hin; cbn [fold_left].
  - destruct Hin as [Hin|[]]. exact Hin.
  - apply Forall_cons_iff in Hps. destruct Hps as [Hq Hps].
    apply IH; [apply pointwise_keeps; assumption|exact Hps|].
    destruct Hin as [->|[->|Hin]].
    + left. apply pointwise_left. exact Hq.
    + left. apply pointwise_right. exact Hacc.
    + right. exact Hin.
Qed.

End Extreme.

Lemma positions_in (a : axis) (x : Z) :
  In x (positions a)
  <-> exists i j, 0 <= i < a_count a /\ 0 <= j < a_block a
                  /\ x = a_start a + i * a_stride a + j.
Proof. apply axis_positions_in. Qed.

Lemma positions_bounds (a : axis) (x : Z) :
  occupied a -> In x (positions a) -> a_start a <= x <= last_position a.
Proof.
  intros (Hc & Hb & Hd) Hx. apply positions_in in Hx.
  destruct Hx as (i & j & Hi & Hj & ->). unfold last_position. nia.
Qed.

Lemma positions_first (a : axis) : occupied a -> In (a_start a) (positions a).
Proof.
  intros (Hc & Hb & Hd). apply positions_in. exists 0, 0. repeat split; lia.
Qed.

Lemma positions_last (a : axis) : occupied a -> In (last_position a) (positions a).
Proof.
  intros (Hc & Hb & Hd). apply positions_in.
  exists (a_count a - 1), (a_block a - 1). unfold last_position.
  repeat split; lia.
Qed.

Lemma shift_zero (p : coord) :
  map (fun '(x, o) => x + o) (combine p (repeat 0 (length p))) = p.
Proof.
  induction p as [|x p IH]; [reflexivity|].
  cbn [length repeat combine map]. rewrite IH. f_equal. lia.
Qed.

Lemma grid_point_length (L : list (list Z)) (p : coord) :
  In p (grid L) -> length p = length L.
Proof. intros Hp. apply grid_in in Hp. exact (Forall2_length Hp). Qed.

(** The bounding box of a regular hyperslab: the first and the last
    position of every axis. *)
Lemma regular_bounds (base : SpaceID) (axes : list axis) (p0 : coord)
    (ps : list coord) :
  Forall occupied axes ->
  sp_offset base = repeat 0 (length axes) ->
  grid (map positions axes) = p0 :: ps ->
  get_select_bounds (with_hyperslabs base (p0 :: ps))
  = (map a_start axes, map last_position axes).
Proof.
  intros Hocc Hoff Hg. unfold get_select_bounds.
  cbv zeta. cbn [with_hyperslabs selected sp_type sp_points sp_offset].
  rewrite Hoff.
  assert (Hlen : forall q, In q (p0 :: ps) -> length q = length axes).
  { intros q Hq. rewrite <- Hg in Hq. apply grid_point_length in Hq.
    rewrite length_map in Hq. exact Hq. }
  match goal with
  | |- match ?m with [] => _ | _ :: _ => _ end = _ =>
      replace m with (p0 :: ps)
  end.
  2:{ rewrite <- (map_id (p0 :: ps)) at 1. apply map_ext_in. intros q Hq.
      rewrite <- (Hlen q Hq). symmetry. apply shift_zero. }
  assert (Hall : forall q, In q (p0 :: ps) ->
                           Forall2 (fun x a => In x (positions a)) q axes).
  { intros q Hq. rewrite <- Hg in Hq. apply grid_in in Hq.
    clear -Hq. revert q Hq. induction axes as [|a axes IH]; intros q Hq;
      cbn [map] in Hq; inversion Hq; subst; constructor; auto. }
  assert (Hlo : Forall (Forall2 (fun a x => a <= x) (map a_start axes)) (p0 :: ps)).
  { apply Forall_forall. intros q Hq. specialize (Hall q Hq).
    clear -Hall Hocc. revert q Hall.
    induction Hocc as [|a axes Ha _ IH]; intros q Hq; inversion Hq; subst;
      cbn [map]; constructor; [|apply IH; assumption].
    match goal with H : In _ (positions a) |- _ =>
      apply (positions_bounds a _ Ha) in H; lia end. }
  assert (Hhi : Forall (Forall2 (fun a x => x <= a) (map last_position axes))
                       (p0 :: ps)).
  { apply Forall_forall. intros q Hq. specialize (Hall q Hq).
    clear -Hall Hocc. revert q Hall.
    induction Hocc as [|a axes Ha _ IH]; intros q Hq; inversion Hq; subst;
      cbn [map]; constructor; [|apply IH; assumption].
    match goal with H : In _ (positions a) |- _ =>
      apply (positions_bounds a _ Ha) in H; lia end. }
  assert (Hinlo : In (map a_start axes) (p0 :: ps)).
  { rewrite <- Hg. apply grid_in. clear -Hocc.
    induction Hocc as [|a axes Ha _ IH]; cbn [map]; constructor;
      [apply positions_first; exact Ha|exact IH]. }
  assert (Hinhi : In (map last_position axes) (p0 :: ps)).
  { rewrite <- Hg. apply grid_in. clear -Hocc.
    induction Hocc as [|a axes Ha _ IH]; cbn [map]; constructor;
      [apply positions_last; exact Ha|exact IH]. }
  apply Forall_cons_iff in Hlo. destruct Hlo as [Hlo0 Hlo].
  apply Forall_cons_iff in Hhi. destruct Hhi as [Hhi0 Hhi].
  f_equal.
  - apply (fold_extreme Z.min (fun a x => a <= x)); try assumption.
    + intros a x H. apply Z.min_l. exact H.
    + intros a x H. apply Z.min_r. exact H.
    + intros a x y Hx Hy. apply Z.min_glb; assumption.
  - apply (fold_extreme Z.max (fun a x => x <= a)); try assumption.
    + intros a x H. apply Z.max_l. exact H.
    + intros a x H. apply Z.max_r. exact H.
    + intros a x y Hx Hy. apply Z.max_lub; assumption.
Qed.

(** ** Masking one axis *)

Lemma coord_in_iff (p : coord) (l : list coord) : coord_in p l = true <-> In p l.
Proof.
  unfold coord_in. rewrite existsb_exists. split.
  - intros (q & Hq & E). apply coord_eqb_eq in E. subst q. exact Hq.
  - intros Hp. exists p. split; [exact Hp|apply coord_eqb_refl].
Qed.

Lemma interval_in (s c x : Z) :
  In x (axis_positions s c 1 1) <-> s <= x < s + c.
Proof.
  rewrite axis_positions_in. split.
  - intros (i & j & Hi & Hj & ->). lia.
  - intros Hx. exists (x - s), 0. repeat split; lia.
Qed.

Lemma box_all (axes : list axis) :
  Forall occupied axes ->
  forall q,
    Forall2 (fun x a => In x (positions a)) q axes ->
    Forall2 (fun x A => In x A) q
      (hyperslab_axes (map a_start axes) (map box_length axes)
         (repeat 1 (length axes)) (repeat 1 (length axes))).
Proof.
  induction 1 as [|a axes Ha _ IH]; intros q Hq; inversion Hq as [|x a' q' l Hx Hq'];
    subst; cbn [map length repeat hyperslab_axes]; constructor.
  - apply interval_in. pose proof (positions_bounds a x Ha Hx) as Hb.
    unfold box_length. lia.
  - exact (IH q' Hq').
Qed.

(** A point of the region lies in the box that starts one past the bottom
    along axis [i] iff its coordinate [i] is not the first position. *)
Lemma box_member (axes : list axis) :
  Forall occupied axes ->
  forall (i : nat) (p : coord),
    (i < length axes)%nat ->
    Forall2 (fun x a => In x (positions a)) p axes ->
    Forall2 (fun x A => In x A) p
      (hyperslab_axes
         (list_set (map a_start axes) i (nth i (map a_start axes) 0 + 1))
         (list_set (map box_length axes) i (nth i (map box_length axes) 0 - 1))
         (repeat 1 (length axes)) (repeat 1 (length axes)))
    <-> nth i p 0 <> a_start (nth i axes no_axis).
Proof.
  induction 1 as [|a axes Ha Hax IH]; intros i p Hi Hp; [cbn in Hi; lia|].
  inversion Hp as [|x a' q l Hx Hq]; subst.
  pose proof (positions_bounds a x Ha Hx) as Hb.
  destruct i as [|i]; cbn [map length repeat list_set nth hyperslab_axes].
  - split.
    + intros H. inversion H as [|x' A' q' L' Hx' _]; subst.
      apply interval_in in Hx'. lia.
    + intros Hne. constructor; [|exact (box_all axes Hax q Hq)].
      apply interval_in. unfold box_length. lia.
  - rewrite <- (IH i q) by (cbn in Hi; lia || exact Hq). split.
    + intros H. inversion H; subst. assumption.
    + intros H. constructor; [|exact H].
      apply interval_in. unfold box_length. lia.
Qed.

Lemma positions_filter_first (a : axis) :
  occupied a ->
  filter (fun x => x =? a_start a) (positions a) = [a_start a].
Proof.
  intros (Hc & Hb & Hd). unfold positions, axis_positions, range.
  destruct (Z.to_nat (a_count a)) as [|c] eqn:Ec; [lia|].
  destruct (Z.to_nat (a_block a)) as [|b] eqn:Eb; [lia|].
  cbn [seq map flat_map filter app].
  replace (a_start a + Z.of_nat 0 * a_stride a + Z.of_nat 0 =? a_start a)
    with true by (symmetry; apply Z.eqb_eq; lia).
  assert (Hnil : forall l : list Z,
             Forall (fun x => a_start a < x) l ->
             filter (fun x => x =? a_start a) l = []).
  { induction 1 as [|x l Hx _ IHl]; [reflexivity|].
    cbn [filter]. destruct (x =? a_start a) eqn:E; [lia|exact IHl]. }
  f_equal; [lia|]. apply Hnil. apply Forall_forall. intros x Hx.
  apply in_app_or in Hx. destruct Hx as [Hx|Hx].
  - apply in_map_iff in Hx. destruct Hx as (j & <- & Hj).
    apply in_map_iff in Hj. destruct Hj as (m & <- & Hm).
    apply in_seq in Hm. lia.
  - apply in_flat_map in Hx. destruct Hx as (i & Hi & Hx).
    apply in_map_iff in Hi. destruct Hi as (n & <- & Hn). apply in_seq in Hn.
    destruct Hx as [<-|Hx]; [nia|].
    apply in_map_iff in Hx. destruct Hx as (j & <- & Hj).
    apply in_map_iff in Hj. destruct Hj as (m & <- & Hm).
    apply in_seq in Hm. nia.
Qed.

Lemma nth_map_default {A} (f : A -> Z) (d : A) (l : list A) (i : nat) :
  (i < length l)%nat -> nth i (map f l) 0 = f (nth i l d).
Proof.
  intros Hi. rewrite (nth_indep _ 0 (f d)) by (rewrite length_map; exact Hi).
  apply map_nth.
Qed.

Lemma positions_len (a : axis) :
  occupied a -> len (positions a) = a_count a * a_block a.
Proof.
  intros (Hc & Hb & Hd). unfold len, positions.
  rewrite axis_positions_length, Nat2Z.inj_mul, !Z2Nat.id by lia. reflexivity.
Qed.

(** The masking procedure recovers the number of positions of axis [i]. *)
Lemma regular_axis_count (base : SpaceID) (axes : list axis) (p0 : coord)
    (ps : list coord) (i : nat) :
  Forall occupied axes ->
  grid (map positions axes) = p0 :: ps ->
  (i < length axes)%nat ->
  get_n_axis (with_hyperslabs base (p0 :: ps)) (len (p0 :: ps))
    (map a_start axes) (map box_length axes) i
  = Ok (a_count (nth i axes no_axis) * a_block (nth i axes no_axis)).
Proof.
  intros Hocc Hg Hi. unfold get_n_axis.
  set (a := nth i axes no_axis).
  assert (Ha : occupied a).
  { rewrite Forall_forall in Hocc. apply Hocc. apply nth_In. exact Hi. }
  rewrite (nth_map_default box_length no_axis axes i Hi). fold a.
  destruct Ha as (Hc & Hb & Hd).
  destruct (box_length a =? 1) eqn:Ebox.
  { f_equal. apply Z.eqb_eq in Ebox. unfold box_length, last_position in Ebox. nia. }
  unfold select_hyperslab. rewrite npoints_with_hyperslabs.
  cbn [with_hyperslabs selected sp_type sp_points].
  rewrite map_const, length_list_set, length_map.
  assert (Htest : forall p, In p (p0 :: ps) ->
             negb (coord_in p
                     (hyperslab_points
                        (list_set (map a_start axes) i
                           (nth i (map a_start axes) 0 + 1))
                        (list_set (map box_length axes) i (box_length a - 1))
                        (repeat 1 (length axes)) (repeat 1 (length axes))))
             = (nth i p 0 =? a_start a)).
  { intros p Hp. rewrite <- Hg in Hp. apply grid_in in Hp.
    assert (Hp' : Forall2 (fun x a => In x (positions a)) p axes).
    { clear -Hp. revert p Hp. induction axes as [|b axes IH]; intros p Hp;
        cbn [map] in Hp; inversion Hp; subst; constructor; auto. }
    pose proof (box_member axes Hocc i p Hi Hp') as Hm.
    rewrite (nth_map_default box_length no_axis axes i Hi) in Hm. fold a in Hm.
    unfold hyperslab_points.
    destruct (coord_in p _) eqn:E; cbn [negb].
    - apply coord_in_iff, grid_in, Hm in E. symmetry. apply Z.eqb_neq. exact E.
    - symmetry. apply Z.eqb_eq.
      destruct (Z.eq_dec (nth i p 0) (a_start a)) as [Heq|Hne]; [exact Heq|].
      apply Hm, grid_in, coord_in_iff in Hne. congruence. }
  rewrite (filter_ext_in _ _ _ Htest). rewrite <- Hg.
  rewrite (grid_filter_axis (fun x => x =? a_start a)) by (rewrite length_map; exact Hi).
  assert (Hnth : nth i (map positions axes) [] = positions a).
  { rewrite (nth_indep _ [] (positions no_axis)) by (rewrite length_map; exact Hi).
    apply map_nth. }
  rewrite Hnth, (positions_filter_first a (conj Hc (conj Hb Hd))).
  rewrite !grid_length.
  change [a_start a] with ((fun _ : axis => [a_start a]) a).
  assert (Hset : map len (list_set (map positions axes) i [a_start a])
                 = list_set (map len (map positions axes)) i 1).
  { symmetry. apply (list_set_map len (map positions axes) i [a_start a]). }
  cbv beta. rewrite Hset.
  pose proof (product_list_set (map len (map positions axes)) i 1) as Hprod.
  rewrite !length_map in Hprod. specialize (Hprod Hi).
  assert (Hlen : nth i (map len (map positions axes)) 0 = a_count a * a_block a).
  { rewrite map_map.
    rewrite (nth_map_default (fun x => len (positions x)) no_axis axes i Hi).
    fold a. apply positions_len. repeat split; assumption. }
  rewrite Hlen in Hprod.
  set (M := product (list_set (map len (map positions axes)) i 1)) in *.
  set (N := product (map len (map positions axes))) in *.
  assert (HN : 0 < N).
  { subst N. rewrite <- grid_length, Hg. unfold len. cbn [length]. lia. }
  unfold floordiv. destruct (M =? 0) eqn:EM; [exfalso; apply Z.eqb_eq in EM; nia|].
  f_equal. replace N with (a_count a * a_block a * M) by lia.
  apply Z.div_mul. apply Z.eqb_neq in EM. exact EM.
Qed.

(** ** The shape of a regular hyperslab *)

Lemma grid_first (axes : list axis) :
  Forall occupied axes -> In (map a_start axes) (grid (map positions axes)).
Proof.
  intros Hocc. apply grid_in.
  induction Hocc as [|a axes Ha _ IH]; cbn [map]; constructor;
    [apply positions_first; exact Ha|exact IH].
Qed.

Lemma grid_size (axes : list axis) :
  Forall occupied axes ->
  len (grid (map positions axes)) = product (map (fun a => a_count a * a_block a) axes).
Proof.
  intros Hocc. rewrite grid_length, map_map. f_equal.
  apply map_ext_Forall. eapply Forall_impl; [|exact Hocc].
  intros a Ha. apply positions_len. exact Ha.
Qed.

Lemma grid_empty (L : list (list Z)) : In [] L -> grid L = [].
Proof.
  induction L as [|A L IH]; intros Hin; [contradiction|].
  cbn [grid]. destruct Hin as [->|Hin]; [reflexivity|].
  rewrite (IH Hin). clear. induction A as [|x A IHA]; [reflexivity|exact IHA].
Qed.

(** [guess_shape] on a single regular hyperslab that selects something
    returns the number of positions of every axis. *)
Lemma guess_shape_grid (base : SpaceID) (axes : list axis) :
  sp_class base = SIMPLE ->
  length (sp_shape base) = length axes ->
  sp_offset base = repeat 0 (length axes) ->
  Forall occupied axes ->
  guess_shape (with_hyperslabs base (grid (map positions axes)))
  = Ok (Some (map (fun a => a_count a * a_block a) axes)).
Proof.
  intros Hclass Hrank Hoff Hocc.
  pose proof (grid_first axes Hocc) as Hfirst.
  pose proof (grid_size axes Hocc) as Hsize.
  destruct (grid (map positions axes)) as [|p0 ps] eqn:Hg; [contradiction|].
  pose proof (regular_bounds base axes p0 ps Hocc Hoff Hg) as Hbounds.
  assert (Hcounts : axis_counts (with_hyperslabs base (p0 :: ps))
                    = Ok (map (fun a => a_count a * a_block a) axes)).
  { unfold axis_counts. rewrite Hbounds.
    assert (Hbox : map (fun '(t, b) => t - b + 1)
                       (combine (map last_position axes) (map a_start axes))
                   = map box_length axes).
    { rewrite combine_map_same, map_map. reflexivity. }
    rewrite Hbox.
    replace (length (sp_shape (with_hyperslabs base (p0 :: ps))))
      with (length axes) by (symmetry; exact Hrank).
    replace (get_select_npoints (with_hyperslabs base (p0 :: ps)))
      with (len (p0 :: ps)) by reflexivity.
    rewrite (mapM_seq _ (fun i => a_count (nth i axes no_axis)
                                  * a_block (nth i axes no_axis))).
    - rewrite (map_nth_seq (fun a => a_count a * a_block a) no_axis axes).
      reflexivity.
    - intros i Hi. apply regular_axis_count; [exact Hocc|exact Hg|lia]. }
  unfold guess_shape. rewrite Hcounts.
  cbn [with_hyperslabs sp_class sp_type bind]. rewrite Hclass.
  replace (get_select_npoints
             {| sp_class := SIMPLE; sp_shape := sp_shape base;
                sp_type := SEL_HYPERSLABS; sp_points := p0 :: ps;
                sp_offset := sp_offset base |})
    with (len (p0 :: ps)) by reflexivity.
  rewrite Hsize, Z.eqb_refl. cbn [negb].
  destruct (product (map (fun a => a_count a * a_block a) axes) =? 0) eqn:E;
    [|reflexivity].
  apply Z.eqb_eq in E. rewrite <- Hsize in E. unfold len in E.
  cbn [length] in E. lia.
Qed.

Lemma within_occupied (shape : list Z) (axes : list axis) :
  Forall2 within_extent shape axes ->
  Forall (fun m => m <> 0) (map (fun a => a_count a * a_block a) axes) ->
  Forall occupied axes.
Proof.
  induction 1 as [|n a shape axes Ha _ IH]; intros Hm; [constructor|].
  cbn [map] in Hm. apply Forall_cons_iff in Hm. destruct Hm as [Hma Hm].
  constructor; [|exact (IH Hm)].
  destruct Ha as (_ & Hc & Hb & Hd & _). unfold occupied.
  repeat split; try assumption. nia.
Qed.

(** X20.  [guess_shape] inverts regular indexing: for a selection
    created over [shape] and indexed (strided blocks being
    constructor-built), [guess_shape] of its region descriptor is
    [mshape] whenever the selection holds at least one element; when it
    is empty along some axis of an extent of rank at least 1,
    [guess_shape] is all zeros, whatever the other entries of [mshape]
    are. *)
Theorem guess_shape_of_regular (shape : list Z) (args : pyarg) (h h0 h' : heap)
    (sel sel' : SimpleSelection.t) :
  Forall valid_index (as_tuple args) ->
  SimpleSelection.init shape None h = (sel, h0) ->
  SimpleSelection.getitem sel args h0 = Ok (sel', h') ->
  (Forall (fun m => m <> 0) (SimpleSelection.mshape sel') ->
   guess_shape (deref h' (SimpleSelection._id sel'))
   = Ok (Some (SimpleSelection.mshape sel')))
  /\ (In 0 (SimpleSelection.mshape sel') ->
      guess_shape (deref h' (SimpleSelection._id sel'))
      = Ok (Some (tuple_repeat 0 (len shape)))).
Proof.
  intros Hv Hinit Hget. rewrite simple_init_fresh in Hinit.
  injection Hinit as <- <-.
  destruct shape as [|n shape].
  - unfold SimpleSelection.getitem in Hget.
    cbn [SimpleSelection.shape SimpleSelection._shape SimpleSelection._id] in Hget.
    rewrite modify_last in Hget.
    assert (Hr : (sel', h')
                 = (SimpleSelection.mk (length h) []
                      (tuple_repeat 0 (len (@nil Z)), [], tuple_repeat 1 (len (@nil Z)),
                       tuple_repeat false (len (@nil Z)))
                      [] (tuple_repeat 1 (len (@nil Z))),
                    h ++ [select_all (select_all (create_simple []))])).
    { destruct (as_tuple args) as [|a0 rest].
      - injection Hget as <- <-. reflexivity.
      - destruct (negb (SimpleSelection.in_ellipsis_or_unit a0)); [discriminate|].
        injection Hget as <- <-. reflexivity. }
    injection Hr as -> ->. cbn [SimpleSelection._id]. rewrite deref_last.
    split; [reflexivity|intros []].
  - match type of Hget with
    | SimpleSelection.getitem ?s _ _ = _ =>
        assert (Hs : SimpleSelection.shape s <> []) by discriminate;
        destruct (simple_getitem_axes _ _ _ _ _ Hs Hget)
          as (fargs & axes & He & Ht & Hl & Hid & _ & _ & _ & Hm & _ & Hh)
    end.
    cbn [SimpleSelection.shape SimpleSelection._shape SimpleSelection._id] in *.
    rewrite modify_last in Hh. rewrite Hid, Hh, deref_last, Hm.
    unfold select_hyperslab, hyperslab_points. rewrite hyperslab_axes_map.
    change (map (fun a => axis_positions (a_start a) (a_count a) (a_stride a)
                            (a_block a)) axes)
      with (map positions axes).
    assert (Hwithin : Forall2 within_extent (n :: shape) axes).
    { apply (translate_axes_within fargs).
      - exact (expand_ellipsis_valid _ _ _ Hv He).
      - pose proof (expand_ellipsis_length _ _ _ He) as Hlen.
        unfold len in Hlen. lia.
      - exact Ht. }
    split.
    + intros Hnz. apply guess_shape_grid.
      * reflexivity.
      * cbn [select_all create_simple sp_shape]. symmetry. exact Hl.
      * cbn [select_all create_simple sp_offset]. rewrite map_const, Hl.
        reflexivity.
      * exact (within_occupied _ _ Hwithin Hnz).
    + intros Hz. rewrite grid_empty; [reflexivity|].
      apply in_map_iff in Hz. destruct Hz as (a & Ha0 & Hin).
      apply in_map_iff. exists a. split; [|exact Hin].
      assert (Ha : 0 <= a_count a /\ 1 <= a_block a).
      { clear -Hwithin Hin. induction Hwithin as [|m b sh ax Hb _ IH];
          [contradiction|].
        destruct Hin as [->|Hin]; [|exact (IH Hin)].
        destruct Hb as (_ & Hc & Hb & _). split; assumption. }
      unfold positions, axis_positions, range.
      assert (Hc0 : a_count a = 0) by nia. rewrite Hc0. reflexivity.
Qed.

Lemma guess_shape_of_regular_witness :
  exists sel' h',
    (Forall valid_index (as_tuple (Tuple [Ellipsis; Int 0]))
     /\ SimpleSelection.init [10; 5; 4; 2] None [] = fresh_block
     /\ SimpleSelection.getitem (fst fresh_block) (Tuple [Ellipsis; Int 0])
          (snd fresh_block) = Ok (sel', h')
     /\ Forall (fun m => m <> 0) (SimpleSelection.mshape sel'))
    /\ guess_shape (deref h' (SimpleSelection._id sel'))
       = Ok (Some (SimpleSelection.mshape sel')).
Proof.
  assert (Hv : Forall valid_index (as_tuple (Tuple [Ellipsis; Int 0])))
    by (repeat constructor).
  destruct (SimpleSelection.getitem (fst fresh_block) (Tuple [Ellipsis; Int 0])
              (snd fresh_block)) as [[sel' h']|e] eqn:E;
    [|vm_compute in E; discriminate E].
  assert (Hm : Forall (fun m => m <> 0) (SimpleSelection.mshape sel')).
  { pose proof E as Ec. vm_compute in Ec. injection Ec as <- _.
    repeat constructor; discriminate. }
  exists sel', h'.
  split; [split; [exact Hv|split; [reflexivity|split; [reflexivity|exact Hm]]]|].
  exact (proj1 (guess_shape_of_regular [10; 5; 4; 2] (Tuple [Ellipsis; Int 0]) []
                  (snd fresh_block) h' (fst fresh_block) sel' Hv eq_refl E) Hm).
Defined.

(** * Union selections: the selected region *)

Lemma length_store (h : heap) :
  forall (l : loc) (v : SpaceID), length (store h l v) = length h.
Proof.
  induction h as [|x h IH]; intros [|l] v; cbn; try reflexivity.
  rewrite IH. reflexivity.
Qed.

Lemma handle_simple_inside (shape : list Z) (v : list index) (s : simple) :
  Forall valid_index v ->
  _handle_simple shape v = Ok s ->
  forall p,
    In p (hyperslab_points (s_start s) (s_count s) (s_stride s) (s_block s)) ->
    inside shape p.
Proof.
  intros Hv H. unfold _handle_simple in H.
  destruct (_expand_ellipsis v (len shape)) as [fargs|e] eqn:Ee; [|discriminate].
  cbn [bind] in H.
  destruct (translate_axes fargs shape) as [axes|e] eqn:Et; [|discriminate].
  cbn [bind] in H. injection H as <-.
  cbn [simple_of_axes s_start s_count s_stride s_block].
  unfold hyperslab_points. rewrite hyperslab_axes_map. intros p Hp.
  apply grid_in in Hp. apply (positions_inside shape axes); [|exact Hp].
  apply (translate_axes_within fargs).
  - exact (expand_ellipsis_valid _ _ _ Hv Ee).
  - pose proof (expand_ellipsis_length _ _ _ Ee) as Hl. unfold len in Hl. lia.
  - exact Et.
Qed.

Lemma list_set_valid (l : list index) :
  forall (position : nat) (v : index),
    Forall valid_index l -> valid_index v ->
    Forall valid_index (list_set l position v).
Proof.
  induction l as [|x l IH]; intros [|position] v Hl Hv; cbn [list_set];
    try exact Hl; apply Forall_cons_iff in Hl; destruct Hl as [Hx Hl];
    constructor; auto.
Qed.

Lemma fold_set_valid (val : list Z -> index) (d : dict) :
  (forall seq, valid_index (val seq)) ->
  forall entry,
    Forall valid_index entry ->
    Forall valid_index
      (fold_left (fun entry '(position, seq) => list_set entry position (val seq))
                 d entry).
Proof.
  intros Hval. induction d as [|[k v] d IH]; intros entry He; [exact He|].
  cbn [fold_left]. apply IH. apply list_set_valid; [exact He|apply Hval].
Qed.

Lemma argvector_valid (args : list index) (d : dict) (n : Z) :
  Forall valid_index args ->
  Forall (Forall valid_index) (FancySelection.argvector args d n).
Proof.
  intros Ha. unfold FancySelection.argvector. destruct (n >? 0).
  - apply Forall_forall. intros v Hv. apply in_map_iff in Hv.
    destruct Hv as (idx & <- & _).
    apply (fold_set_valid (fun seq => Int (nth idx seq 0)) d (fun _ => I) args Ha).
  - constructor; [|constructor].
    apply (fold_set_valid (fun _ => Slice (mkslice (Some 0) (Some 0) None)) d
             (fun _ => I) args Ha).
Qed.

(** ORing hyperslabs that lie inside the extent into a region that lies
    inside it gives a region inside it. *)
Lemma or_fold_inside (self : FancySelection.t) (vs : list (list index)) :
  forall (prev : option simple) (h0 : heap) (last : option simple) (h' : heap),
    Forall (Forall valid_index) vs ->
    foldM (FancySelection.or_step self) vs (prev, h0) = Ok (last, h') ->
    (FancySelection._id self < length h0)%nat ->
    sp_type (deref h0 (FancySelection._id self)) <> SEL_ALL ->
    (forall p, In p (selected (deref h0 (FancySelection._id self))) ->
               inside (FancySelection.shape self) p) ->
    forall p, In p (selected (deref h' (FancySelection._id self))) ->
              inside (FancySelection.shape self) p.
Proof.
  induction vs as [|v vs IH]; intros prev h0 last h' Hvs Hf Hl Hty Hin.
  - cbn [foldM] in Hf. injection Hf as _ <-. exact Hin.
  - apply Forall_cons_iff in Hvs. destruct Hvs as [Hv Hvs].
    cbn [foldM] in Hf. unfold FancySelection.or_step at 1 in Hf.
    destruct (_handle_simple (FancySelection.shape self) v) as [s|e] eqn:Es;
      [|discriminate].
    cbn [bind] in Hf.
    set (sid := deref h0 (FancySelection._id self)) in *.
    assert (Hstep : deref (modify (fun sid0 => select_hyperslab sid0 (s_start s)
                                      (s_count s) (Some (s_stride s))
                                      (Some (s_block s)) SELECT_OR)
                             (FancySelection._id self) h0)
                          (FancySelection._id self)
                    = with_hyperslabs sid
                        (selected sid
                         ++ filter (fun p => negb (coord_in p (selected sid)))
                              (hyperslab_points (s_start s) (s_count s)
                                 (s_stride s) (s_block s)))).
    { rewrite deref_modify by exact Hl. fold sid. unfold select_hyperslab.
      destruct (sp_type sid); try reflexivity. contradiction Hty. reflexivity. }
    apply (IH _ _ _ _ Hvs Hf).
    + unfold modify. rewrite length_store. exact Hl.
    + rewrite Hstep. destruct (_ ++ _); discriminate.
    + rewrite Hstep, selected_with_hyperslabs. intros p Hp.
      apply in_app_or in Hp. destruct Hp as [Hp|Hp]; [exact (Hin p Hp)|].
      apply filter_In in Hp. destruct Hp as [Hp _].
      exact (handle_simple_inside _ _ _ Hv Es p Hp).
Qed.

(** X21.  A union selection never reaches outside its extent: after a
    [FancySelection] has been created over [shape] and indexed (strided
    blocks being constructor-built), every coordinate that the region
    descriptor holds selected has one entry per axis, each at least 0 and
    below the length of its axis. *)
Theorem fancy_selected_inside (shape : list Z) (args : pyarg) (h h0 h' : heap)
    (sel sel' : FancySelection.t) :
  Forall valid_index (as_tuple args) ->
  FancySelection.init shape None h = (sel, h0) ->
  FancySelection.getitem sel args h0 = Ok (sel', h') ->
  forall p,
    In p (selected (deref h' (FancySelection._id sel'))) -> inside shape p.
Proof.
  intros Hv Hinit Hget.
  unfold FancySelection.init, Selection.init, alloc in Hinit.
  rewrite modify_last in Hinit. injection Hinit as <- <-.
  unfold FancySelection.getitem in Hget.
  cbn [FancySelection.shape FancySelection._shape FancySelection._id] in Hget.
  destruct (_expand_ellipsis (as_tuple args) (len shape)) as [fargs|e] eqn:Ee;
    [|discriminate].
  cbn [bind] in Hget.
  destruct (foldM FancySelection.collect_step _ _) as [d|e]; [|discriminate].
  cbn [bind] in Hget. destruct (len d >? 1); [discriminate|].
  destruct d as [|[k first] d]; [discriminate|].
  destruct (negb _); [discriminate|].
  rewrite modify_last in Hget.
  match type of Hget with
  | bind (foldM ?f ?vs ?st) _ = _ =>
      destruct (foldM f vs st) as [[last h1]|e] eqn:Ef; [|discriminate]
  end.
  cbn [bind] in Hget. destruct last as [s|]; [|discriminate].
  injection Hget as <- <-. cbn [FancySelection._id].
  pose proof (or_fold_inside
                (FancySelection.mk (length h) shape shape shape) _ _ _ _ _
                (argvector_valid fargs _ _ (expand_ellipsis_valid _ _ _ Hv Ee)) Ef)
    as Hfold.
  cbn [FancySelection.shape FancySelection._shape FancySelection._id] in Hfold.
  apply Hfold.
  - rewrite length_app. cbn [length]. lia.
  - rewrite deref_last. discriminate.
  - rewrite deref_last. intros p [].
Qed.

Lemma fancy_selected_inside_witness :
  exists sel' h',
    (Forall valid_index (as_tuple (Tuple [IntList [1; 3; 5]; full_slice]))
     /\ FancySelection.init [10; 10] None [] = fresh_rows
     /\ FancySelection.getitem (fst fresh_rows)
          (Tuple [IntList [1; 3; 5]; full_slice]) (snd fresh_rows)
        = Ok (sel', h'))
    /\ forall p,
         In p (selected (deref h' (FancySelection._id sel'))) ->
         inside [10; 10] p.
Proof.
  eexists. eexists.
  assert (Hv : Forall valid_index (as_tuple (Tuple [IntList [1; 3; 5]; full_slice])))
    by (repeat constructor).
  split; [split; [exact Hv|split; [reflexivity|vm_compute; reflexivity]]|].
  eapply (fancy_selected_inside [10; 10] (Tuple [IntList [1; 3; 5]; full_slice]) []
            (snd fresh_rows) _ (fst fresh_rows) _ Hv eq_refl).
  vm_compute. reflexivity.
Defined.

(** * Union selections: the selection shape *)

Lemma translate_axes_scalar_one (args : list index) :
  forall shape axes,
    translate_axes args shape = Ok axes ->
    Forall (fun a => a_scalar a = true -> a_count a = 1) axes.
Proof.
  induction args as [|arg args IH]; intros [|n shape] axes H; cbn in H;
    try (injection H as <-; constructor).
  destruct (translate_axis arg n) as [a|e] eqn:Ea; [|discriminate]. cbn in H.
  destruct (translate_axes args shape) as [rest|e] eqn:E; [|discriminate].
  injection H as <-. constructor; [|exact (IH _ _ E)].
  intros Hsc. pose proof (translate_axis_kind _ _ _ Ea) as Hk.
  destruct arg; try (destruct Hk as (_ & -> & _); reflexivity).
  - destruct Hk as [Hk _]. congruence.
  - congruence.
Qed.

Lemma abs_marked (axes : list axis) :
  Forall (fun a => 0 <= a_count a /\ 1 <= a_block a) axes ->
  Forall (fun a => a_scalar a = true -> a_count a = 1) axes ->
  map Z.abs (map (fun a => if a_scalar a then -1 else a_count a) axes)
  = map a_count axes.
Proof.
  intros Hc Hs. rewrite map_map. apply map_ext_Forall.
  rewrite Forall_forall in *. intros a Ha.
  specialize (Hc a Ha). specialize (Hs a Ha). cbn beta in *.
  destruct (a_scalar a); [rewrite (Hs eq_refl); reflexivity|].
  apply Z.abs_eq. lia.
Qed.

Lemma product_kept_counts (axes : list axis) :
  Forall (fun a => a_scalar a = true -> a_count a = 1) axes ->
  product (kept_counts axes) = product (map a_count axes).
Proof.
  unfold kept_counts. apply (product_drop_scalar a_count).
Qed.

(** X22.  For a union selection whose (ellipsis-expanded) index is one
    increasing sequence [l] among slices, integers and strided blocks:
    whenever [__getitem__] returns, [mshape] has one entry per axis of the
    extent: the count of every axis before the sequence axis (1 for an
    integer), the length of the sequence, the count of every axis after
    it; and [array_shape] holds as many elements as [mshape]. *)
Theorem fancy_mshape (self : FancySelection.t) (args : pyarg) (h : heap)
    (pre post : list index) (a : index) (l sp sq : list Z) (n : Z) :
  _expand_ellipsis (as_tuple args) (len (FancySelection.shape self))
  = Ok (pre ++ a :: post) ->
  Forall plain pre -> Forall plain post ->
  Forall valid_index pre -> Forall valid_index post ->
  sequence_values a = Some l ->
  ~ has_descent l ->
  FancySelection.shape self = sp ++ n :: sq ->
  length sp = length pre ->
  forall sel' h',
    FancySelection.getitem self args h = Ok (sel', h') ->
    exists pa qa,
      translate_axes pre sp = Ok pa /\ translate_axes post sq = Ok qa
      /\ FancySelection.mshape sel' = map a_count pa ++ len l :: map a_count qa
      /\ length (FancySelection.mshape sel') = length (FancySelection.shape self)
      /\ product (FancySelection.array_shape sel')
         = product (FancySelection.mshape sel').
Proof.
  intros Hexp Hpre Hpost Hvpre Hvpost Hseq Hinc Hshape Hsp sel' h' Hget.
  pose proof (fancy_getitem_unfold self args h pre post a l
                Hexp Hpre Hpost Hseq Hinc) as Hunfold.
  pose proof (fancy_vector_axes self args pre post a sp sq n
                Hexp Hpre Hpost Hshape Hsp) as Haxes.
  rewrite Hunfold in Hget.
  match type of Hget with
  | bind (foldM _ ?vs ?st) _ = _ =>
      destruct (foldM (FancySelection.or_step self) vs st)
        as [[last h'']|e] eqn:Ef; [|discriminate]
  end.
  cbn [bind] in Hget.
  destruct (or_fold_last self _ _ _ _
              (fancy_vectors_nonempty pre post a l Hseq Hinc) Ef)
    as (v & s & Hin & Hv & ->).
  destruct (fancy_vector_plain pre post l v Hin) as (w & Hw & ->).
  rewrite (Haxes w Hw) in Hv.
  destruct (translate_axes pre sp) as [pa|e] eqn:Epa; [|discriminate].
  cbn [bind] in Hv.
  destruct (translate_axis w n) as [va|e] eqn:Eva; [|discriminate].
  cbn [bind] in Hv.
  destruct (translate_axes post sq) as [qa|e] eqn:Eqa; [|discriminate].
  cbn [bind] in Hv. injection Hv as <-. injection Hget as <- _.
  exists pa, qa. split; [reflexivity|]. split; [reflexivity|].
  cbn [FancySelection.mshape FancySelection._mshape FancySelection.array_shape
       FancySelection._array_shape].
  assert (Hlp : length pa = length pre).
  { rewrite (translate_axes_length _ _ _ Epa), Hsp. apply Nat.min_id. }
  assert (Hlq : length qa = length post).
  { rewrite (translate_axes_length _ _ _ Eqa).
    rewrite (fancy_lengths self args pre post a sp sq n Hexp Hshape Hsp).
    apply Nat.min_id. }
  pose proof (translate_axes_shape _ _ _ Hvpre Epa) as Hcp.
  pose proof (translate_axes_shape _ _ _ Hvpost Eqa) as Hcq.
  pose proof (translate_axes_scalar_one _ _ _ Epa) as Hsp1.
  pose proof (translate_axes_scalar_one _ _ _ Eqa) as Hsq1.
  assert (Hm : map Z.abs
                 (FancySelection.mark_axes [(length pre, l)]
                    (s_count (simple_of_axes (pa ++ va :: qa)))
                    (s_scalar (simple_of_axes (pa ++ va :: qa))))
               = map a_count pa ++ len l :: map a_count qa).
  { cbn [simple_of_axes s_count s_scalar]. rewrite mark_axes_single, <- Hlp.
    pose proof (mark_axes_split (len l) va qa pa 0) as Hs.
    cbn [Nat.add] in Hs. rewrite Hs, map_app. cbn [map].
    rewrite !abs_marked by assumption.
    rewrite Z.abs_eq by apply len_nonneg. reflexivity. }
  pose proof (fancy_shape_of_axes (length pre) l pa qa va Hlp Hcp Hcq) as Ha.
  cbn [simple_of_axes s_count s_scalar] in Hm, Ha.
  rewrite Hm, Ha. split; [reflexivity|]. split.
  - rewrite length_app. cbn [length]. rewrite !length_map, Hlp, Hlq, Hshape.
    rewrite length_app. cbn [length].
    rewrite (fancy_lengths self args pre post a sp sq n Hexp Hshape Hsp), Hsp.
    reflexivity.
  - rewrite !product_app, !product_cons, !product_kept_counts by assumption.
    reflexivity.
Qed.

Lemma fancy_mshape_witness :
  exists sel' h',
    (_expand_ellipsis (as_tuple (Tuple [Int 2; IntList [1; 3; 5]]))
       (len (FancySelection.shape (fst fresh_rows)))
     = Ok ([Int 2] ++ IntList [1; 3; 5] :: [])
     /\ FancySelection.getitem (fst fresh_rows) (Tuple [Int 2; IntList [1; 3; 5]])
          (snd fresh_rows) = Ok (sel', h'))
    /\ FancySelection.mshape sel' = [1; 3]
    /\ product (FancySelection.array_shape sel')
       = product (FancySelection.mshape sel').
Proof.
  assert (Hplain : Forall plain [Int 2]) by (repeat constructor).
  assert (Hvalid : Forall valid_index [Int 2]) by (repeat constructor).
  assert (Hnil : forall A (P : A -> Prop), Forall P []) by (intros; constructor).
  assert (Hinc : ~ has_descent [1; 3; 5]).
  { intros Hd. apply not_increasing_iff in Hd. discriminate Hd. }
  destruct (FancySelection.getitem (fst fresh_rows)
              (Tuple [Int 2; IntList [1; 3; 5]]) (snd fresh_rows))
    as [[sel hh]|e] eqn:E; [|vm_compute in E; discriminate E].
  destruct (fancy_mshape (fst fresh_rows) (Tuple [Int 2; IntList [1; 3; 5]])
              (snd fresh_rows) [Int 2] [] (IntList [1; 3; 5]) [1; 3; 5]
              [10] [] 10 eq_refl Hplain (Hnil _ _) Hvalid (Hnil _ _)
              eq_refl Hinc eq_refl eq_refl sel hh E)
    as (pa & qa & Hpa & Hqa & Hm & _ & Hprod).
  vm_compute in Hpa. injection Hpa as <-. injection Hqa as <-.
  exists sel, hh. split; [split; reflexivity|]. split; [exact Hm|exact Hprod].
Defined.

(** * No element is selected twice *)

Lemma NoDup_flat_map {A B} (f : A -> list B) (l : list A) :
  NoDup l ->
  (forall x, In x l -> NoDup (f x)) ->
  (forall x y b, In x l -> In y l -> In b (f x) -> In b (f y) -> x = y) ->
  NoDup (flat_map f l).
Proof.
  induction 1 as [|x l Hx Hl IH]; intros Hf Hd; cbn [flat_map]; [constructor|].
  apply NoDup_app.
  - apply Hf. left. reflexivity.
  - apply IH.
    + intros y Hy. apply Hf. right. exact Hy.
    + intros y z b Hy Hz. apply Hd; right; assumption.
  - intros b Hb Hb'. apply in_flat_map in Hb'. destruct Hb' as (y & Hy & Hby).
    assert (Hxy : x = y).
    { apply (Hd x y b); [left; reflexivity|right; exact Hy|exact Hb|exact Hby]. }
    subst y. contradiction.
Qed.

Lemma range_NoDup (n : Z) : NoDup (range n).
Proof.
  unfold range. apply NoDup_map_NoDup_ForallPairs; [|apply seq_NoDup].
  intros a b _ _ H. apply Nat2Z.inj. exact H.
Qed.

Lemma positions_NoDup (a : axis) :
  1 <= a_block a -> a_block a <= a_stride a -> NoDup (positions a).
Proof.
  intros Hb Hd. unfold positions, axis_positions. apply NoDup_flat_map.
  - apply range_NoDup.
  - intros i _. apply NoDup_map_NoDup_ForallPairs; [|apply range_NoDup].
    intros j j' _ _ H. lia.
  - intros i i' x Hi Hi' Hx Hx'.
    apply in_map_iff in Hx. destruct Hx as (j & <- & Hj).
    apply in_map_iff in Hx'. destruct Hx' as (j' & Heq & Hj').
    apply range_in in Hj. apply range_in in Hj'.
    destruct (Z.lt_trichotomy i i') as [Hlt|[Heq'|Hgt]]; [exfalso; nia|exact Heq'|
                                                          exfalso; nia].
Qed.

Lemma grid_NoDup (L : list (list Z)) : Forall (@NoDup Z) L -> NoDup (grid L).
Proof.
  induction 1 as [|A L HA _ IH]; cbn [grid].
  - constructor; [intros []|constructor].
  - apply NoDup_flat_map; [exact HA| |].
    + intros x _. apply NoDup_map_NoDup_ForallPairs; [|exact IH].
      intros q q' _ _ Heq. injection Heq as Heq. exact Heq.
    + intros x y c _ _ Hc Hc'.
      apply in_map_iff in Hc. destruct Hc as (q & <- & _).
      apply in_map_iff in Hc'. destruct Hc' as (q' & Heq & _).
      injection Heq as Heq _. symmetry. exact Heq.
Qed.

(** X23.  A regular selection holds no element twice: after a selection
    has been created over [shape] and indexed (strided blocks being
    constructor-built, so that their blocks do not overlap), the
    coordinates that the region descriptor holds selected are pairwise
    different, so the number of selected points counts elements. *)
Theorem simple_selected_distinct (shape : list Z) (args : pyarg) (h h0 h' : heap)
    (sel sel' : SimpleSelection.t) :
  Forall valid_index (as_tuple args) ->
  SimpleSelection.init shape None h = (sel, h0) ->
  SimpleSelection.getitem sel args h0 = Ok (sel', h') ->
  NoDup (selected (deref h' (SimpleSelection._id sel'))).
Proof.
  intros Hv Hinit Hget. rewrite simple_init_fresh in Hinit.
  injection Hinit as <- <-.
  destruct shape as [|n shape].
  - unfold SimpleSelection.getitem in Hget.
    cbn [SimpleSelection.shape SimpleSelection._shape SimpleSelection._id] in Hget.
    rewrite modify_last in Hget.
    assert (Hr : SimpleSelection._id sel' = length h
                 /\ h' = h ++ [select_all (select_all (create_simple []))]).
    { destruct (as_tuple args) as [|a0 rest].
      - injection Hget as <- <-. split; reflexivity.
      - destruct (negb (SimpleSelection.in_ellipsis_or_unit a0)); [discriminate|].
        injection Hget as <- <-. split; reflexivity. }
    destruct Hr as [-> ->]. rewrite deref_last.
    constructor; [intros []|constructor].
  - match type of Hget with
    | SimpleSelection.getitem ?s _ _ = _ =>
        assert (Hs : SimpleSelection.shape s <> []) by discriminate;
        destruct (simple_getitem_axes _ _ _ _ _ Hs Hget)
          as (fargs & axes & He & Ht & _ & Hid & _ & _ & _ & _ & _ & Hh)
    end.
    cbn [SimpleSelection.shape SimpleSelection._shape SimpleSelection._id] in *.
    rewrite modify_last in Hh. rewrite Hid, Hh, deref_last.
    unfold select_hyperslab. rewrite selected_with_hyperslabs.
    unfold hyperslab_points. rewrite hyperslab_axes_map.
    apply grid_NoDup. apply Forall_map.
    assert (Hwithin : Forall2 within_extent (n :: shape) axes).
    { apply (translate_axes_within fargs).
      - exact (expand_ellipsis_valid _ _ _ Hv He).
      - pose proof (expand_ellipsis_length _ _ _ He) as Hlen.
        unfold len in Hlen. lia.
      - exact Ht. }
    clear -Hwithin. induction Hwithin as [|m a sh ax Ha _ IH]; constructor;
      [|exact IH].
    destruct Ha as (_ & _ & Hb & Hd & _). exact (positions_NoDup a Hb Hd).
Qed.

Lemma simple_selected_distinct_witness :
  exists sel' h',
    (Forall valid_index (as_tuple (Tuple [Ellipsis; Int 0]))
     /\ SimpleSelection.init [10; 5; 4; 2] None [] = fresh_block
     /\ SimpleSelection.getitem (fst fresh_block) (Tuple [Ellipsis; Int 0])
          (snd fresh_block) = Ok (sel', h'))
    /\ NoDup (selected (deref h' (SimpleSelection._id sel'))).
Proof.
  eexists. eexists.
  assert (Hv : Forall valid_index (as_tuple (Tuple [Ellipsis; Int 0])))
    by (repeat constructor).
  split; [split; [exact Hv|split; [reflexivity|vm_compute; reflexivity]]|].
  eapply (simple_selected_distinct [10; 5; 4; 2] (Tuple [Ellipsis; Int 0]) []
            (snd fresh_block) _ (fst fresh_block) _ Hv eq_refl).
  vm_compute. reflexivity.
Defined.

(** * Indexing a selection again *)

Lemma store_store (h : heap) :
  forall (l : loc) (x y : SpaceID), store (store h l x) l y = store h l y.
Proof.
  induction h as [|v h IH]; intros [|l] x y; cbn [store]; try reflexivity.
  rewrite IH. reflexivity.
Qed.

Lemma with_hyperslabs_same (x y : SpaceID) (pts : list coord) :
  same_extent x y -> with_hyperslabs x pts = with_hyperslabs y pts.
Proof.
  intros (Hc & Hs & Ho). destruct x, y. cbn in *. subst.
  destruct pts; reflexivity.
Qed.

Lemma with_hyperslabs_extent (x : SpaceID) (pts : list coord) :
  same_extent (with_hyperslabs x pts) x.
Proof. destruct pts; repeat split. Qed.

(** X24.  Indexing a regular selection again replaces the first index
    entirely: on an extent of rank at least 1, [sel[a1]] followed by
    [sel[a2]] gives the selection object and the region descriptor that
    [sel[a2]] alone gives, and raises what it raises. *)
Theorem simple_getitem_replaces (self s1 : SimpleSelection.t) (a1 a2 : pyarg)
    (h h1 : heap) :
  SimpleSelection.shape self <> [] ->
  (SimpleSelection._id self < length h)%nat ->
  SimpleSelection.getitem self a1 h = Ok (s1, h1) ->
  SimpleSelection.getitem s1 a2 h1 = SimpleSelection.getitem self a2 h.
Proof.
  intros Hs Hl H1.
  destruct (simple_getitem_axes _ _ _ _ _ Hs H1)
    as (fargs & axes & _ & _ & _ & Hid & Hshape & _ & _ & _ & _ & Hh).
  unfold SimpleSelection.getitem, SimpleSelection.shape in *.
  rewrite Hshape, Hid.
  destruct (SimpleSelection._shape self) as [|n shape]; [contradiction|].
  destruct (_handle_simple (n :: shape) (as_tuple a2)) as [[st ct sd bl sc]|e];
    [|reflexivity].
  cbn [bind]. do 2 f_equal. subst h1. unfold modify.
  rewrite deref_store by exact Hl. rewrite store_store. f_equal.
  unfold select_hyperslab. apply with_hyperslabs_same.
  apply with_hyperslabs_extent.
Qed.

Lemma simple_getitem_replaces_witness :
  exists s1 h1,
    (SimpleSelection.shape (fst fresh_block) <> []
     /\ (SimpleSelection._id (fst fresh_block) < length (snd fresh_block))%nat
     /\ SimpleSelection.getitem (fst fresh_block) (Tuple [Ellipsis; Int 0])
          (snd fresh_block) = Ok (s1, h1))
    /\ SimpleSelection.getitem s1 (Single (Int 3)) h1
       = SimpleSelection.getitem (fst fresh_block) (Single (Int 3)) (snd fresh_block).
Proof.
  eexists. eexists.
  assert (Hs : SimpleSelection.shape (fst fresh_block) <> []) by discriminate.
  assert (Hl : (SimpleSelection._id (fst fresh_block)
                < length (snd fresh_block))%nat) by (cbn; lia).
  split; [split; [exact Hs|split; [exact Hl|vm_compute; reflexivity]]|].
  eapply (simple_getitem_replaces (fst fresh_block) _ (Tuple [Ellipsis; Int 0])
            (Single (Int 3)) (snd fresh_block) _ Hs Hl).
  vm_compute. reflexivity.
Defined.

(** The OR steps change the descriptor of the selection only, and only
    its committed selection. *)
Lemma or_fold_extent (self : FancySelection.t) (vs : list (list index)) :
  forall (prev : option simple) (h0 : heap) (last : option simple) (h' : heap),
    foldM (FancySelection.or_step self) vs (prev, h0) = Ok (last, h') ->
    (FancySelection._id self < length h0)%nat ->
    h' = store h0 (FancySelection._id self) (deref h' (FancySelection._id self))
    /\ same_extent (deref h' (FancySelection._id self))
                   (deref h0 (FancySelection._id self)).
Proof.
  induction vs as [|v vs IH]; intros prev h0 last h' Hf Hl.
  - cbn [foldM] in Hf. injection Hf as _ <-. split; [|repeat split].
    clear -Hl. revert Hl. generalize (FancySelection._id self). intros l.
    revert l. induction h0 as [|x h0 IHh]; intros [|l] Hl; cbn in Hl; try lia.
    + reflexivity.
    + cbn [store]. unfold deref in *. cbn [nth]. f_equal. apply IHh. lia.
  - cbn [foldM] in Hf. unfold FancySelection.or_step at 1 in Hf.
    destruct (_handle_simple (FancySelection.shape self) v) as [s|e];
      [|discriminate].
    cbn [bind] in Hf.
    match type of Hf with
    | foldM _ _ (_, ?hm) = _ =>
        assert (Hlm : (FancySelection._id self < length hm)%nat)
          by (unfold modify; rewrite length_store; exact Hl);
        destruct (IH _ hm _ _ Hf Hlm) as [Hh Hext]
    end.
    unfold modify in Hh, Hext. rewrite store_store in Hh.
    rewrite deref_store in Hext by exact Hl.
    split; [exact Hh|].
    destruct Hext as (Hc & Hs & Ho). unfold select_hyperslab in Hc, Hs, Ho.
    destruct (sp_type (deref h0 (FancySelection._id self)));
      try (pose proof (with_hyperslabs_extent (deref h0 (FancySelection._id self))
                         (selected (deref h0 (FancySelection._id self))
                          ++ filter (fun p => negb (coord_in p
                                       (selected (deref h0 (FancySelection._id self)))))
                               (hyperslab_points (s_start s) (s_count s)
                                  (s_stride s) (s_block s))))
             as (Hc' & Hs' & Ho');
           repeat split; congruence).
Qed.

(** X25.  Indexing a union selection again replaces the first index
    entirely: [sel[a1]] followed by [sel[a2]] gives the selection object
    and the region descriptor that [sel[a2]] alone gives, and raises what
    it raises. *)
Theorem fancy_getitem_replaces (self s1 : FancySelection.t) (a1 a2 : pyarg)
    (h h1 : heap) :
  (FancySelection._id self < length h)%nat ->
  FancySelection.getitem self a1 h = Ok (s1, h1) ->
  FancySelection.getitem s1 a2 h1 = FancySelection.getitem self a2 h.
Proof.
  intros Hl H1.
  assert (Hfields : FancySelection._id s1 = FancySelection._id self
                    /\ FancySelection._shape s1 = FancySelection._shape self
                    /\ modify select_none (FancySelection._id self) h1
                       = modify select_none (FancySelection._id self) h).
  { unfold FancySelection.getitem in H1.
    destruct (_expand_ellipsis _ _) as [fargs|e]; [|discriminate].
    cbn [bind] in H1.
    destruct (foldM FancySelection.collect_step _ _) as [d|e]; [|discriminate].
    cbn [bind] in H1. destruct (len d >? 1); [discriminate|].
    destruct d as [|[k first] d]; [discriminate|].
    destruct (negb _); [discriminate|].
    match type of H1 with
    | bind (foldM ?f ?vs ?st) _ = _ =>
        destruct (foldM f vs st) as [[last h2]|e] eqn:Ef; [|discriminate]
    end.
    cbn [bind] in H1. destruct last as [s|]; [|discriminate].
    injection H1 as <- <-. split; [reflexivity|]. split; [reflexivity|].
    assert (Hlm : (FancySelection._id self
                   < length (modify select_none (FancySelection._id self) h))%nat)
      by (unfold modify; rewrite length_store; exact Hl).
    destruct (or_fold_extent self _ _ _ _ _ Ef Hlm) as [Hh (Hc & Hs & Ho)].
    unfold modify in *. rewrite deref_store in Hc, Hs, Ho by exact Hl.
    rewrite Hh at 1. rewrite !store_store. f_equal.
    unfold select_none. f_equal; assumption. }
  destruct Hfields as (Hid & Hshape & Hnone).
  unfold FancySelection.getitem, FancySelection.shape, FancySelection.or_step.
  unfold FancySelection.shape.
  rewrite Hid, Hshape, Hnone. reflexivity.
Qed.

Lemma fancy_getitem_replaces_witness :
  exists s1 h1,
    ((FancySelection._id (fst fresh_rows) < length (snd fresh_rows))%nat
     /\ FancySelection.getitem (fst fresh_rows)
          (Tuple [IntList [1; 3; 5]; full_slice]) (snd fresh_rows) = Ok (s1, h1))
    /\ FancySelection.getitem s1 (Tuple [Int 2; IntList [0; 4]]) h1
       = FancySelection.getitem (fst fresh_rows) (Tuple [Int 2; IntList [0; 4]])
           (snd fresh_rows).
Proof.
  eexists. eexists.
  assert (Hl : (FancySelection._id (fst fresh_rows)
                < length (snd fresh_rows))%nat) by (cbn; lia).
  split; [split; [exact Hl|vm_compute; reflexivity]|].
  eapply (fancy_getitem_replaces (fst fresh_rows) _
            (Tuple [IntList [1; 3; 5]; full_slice]) (Tuple [Int 2; IntList [0; 4]])
            (snd fresh_rows) _ Hl).
  vm_compute. reflexivity.
Defined.

(** * Broadcasting works on a copy *)

Lemma broadcast_loop_outcome (h : heap) (start step chunks : list Z)
    (idxs : list Z) :
  forall base,
    (forall idx, In idx idxs -> 0 <= idx < product chunks) ->
    exists last,
      outcome (SimpleSelection.broadcast_loop (length h) start step chunks idxs
                 (h ++ [base]))
      = Ok (h ++ [last]).
Proof.
  induction idxs as [|idx idxs IH]; intros base Hin.
  - exists base. reflexivity.
  - cbn [SimpleSelection.broadcast_loop].
    rewrite unravel_index_in_range by (apply Hin; left; reflexivity).
    rewrite modify_last. cbn [outcome].
    apply IH. intros i Hi. apply Hin. right. exact Hi.
Qed.

(** X26.  On an extent of rank at least 1, broadcasting never changes a
    descriptor that existed before, the selection's own among them: when
    [expand_shape] accepts the source shape with no zero entry, the run
    of [broadcast] ends normally and leaves the heap as it was, but for at
    most one new descriptor, the copy that it hands out. *)
Theorem broadcast_preserves_descriptors (self : SimpleSelection.t)
    (source_shape chunk_shape : list Z) (h : heap) :
  SimpleSelection.shape self <> [] ->
  (SimpleSelection._id self < length h)%nat ->
  SimpleSelection.expand_shape self source_shape = Ok chunk_shape ->
  Forall (fun d => d <> 0) chunk_shape ->
  exists extra,
    outcome (SimpleSelection.broadcast self source_shape h) = Ok (h ++ extra)
    /\ (length extra <= 1)%nat
    /\ deref (h ++ extra) (SimpleSelection._id self)
       = deref h (SimpleSelection._id self).
Proof.
  intros Hrank Hl Hexpand Hnz.
  assert (Hout : exists extra,
             outcome (SimpleSelection.broadcast self source_shape h)
             = Ok (h ++ extra) /\ (length extra <= 1)%nat).
  { unfold SimpleSelection.broadcast.
    destruct (SimpleSelection.shape self) as [|d0 ds];
      [contradiction Hrank; reflexivity|].
    destruct (SimpleSelection._sel self) as [[[st ct] sd] scal].
    rewrite Hexpand, (floordiv_zip_ok _ _ Hnz).
    destruct (product _ =? 1).
    - exists []. rewrite app_nil_r. split; [reflexivity|cbn; lia].
    - unfold copy, alloc. rewrite modify_last.
      match goal with
      | |- context [SimpleSelection.broadcast_loop _ ?s ?d ?c (range ?n) (_ ++ [?b])] =>
          destruct (broadcast_loop_outcome h s d c (range n) b (range_bounds n))
            as (last & Hlast)
      end.
      exists [last]. split; [exact Hlast|cbn; lia]. }
  destruct Hout as (extra & Ho & Hlen). exists extra.
  split; [exact Ho|]. split; [exact Hlen|].
  unfold deref. apply app_nth1. exact Hl.
Qed.

Lemma broadcast_preserves_descriptors_witness :
  (SimpleSelection.shape (fst fresh_block) <> []
   /\ (SimpleSelection._id (fst fresh_block) < length (snd fresh_block))%nat
   /\ SimpleSelection.expand_shape (fst fresh_block) [4; 2] = Ok [1; 1; 4; 2]
   /\ Forall (fun d => d <> 0) [1; 1; 4; 2])
  /\ exists extra,
       outcome (SimpleSelection.broadcast (fst fresh_block) [4; 2] (snd fresh_block))
       = Ok (snd fresh_block ++ extra)
       /\ (length extra <= 1)%nat
       /\ deref (snd fresh_block ++ extra) (SimpleSelection._id (fst fresh_block))
          = deref (snd fresh_block) (SimpleSelection._id (fst fresh_block)).
Proof.
  assert (Hs : SimpleSelection.shape (fst fresh_block) <> []) by discriminate.
  assert (Hl : (SimpleSelection._id (fst fresh_block)
                < length (snd fresh_block))%nat) by (cbn; lia).
  assert (He : SimpleSelection.expand_shape (fst fresh_block) [4; 2]
               = Ok [1; 1; 4; 2]) by reflexivity.
  assert (Hnz : Forall (fun d => d <> 0) [1; 1; 4; 2])
    by (repeat constructor; discriminate).
  split; [split; [exact Hs|split; [exact Hl|split; [exact He|exact Hnz]]]|].
  apply (broadcast_preserves_descriptors (fst fresh_block) [4; 2] [1; 1; 4; 2]
           (snd fresh_block) Hs Hl He Hnz).
Defined.
